(** * iPXE big-integer multiplication, LoongArch64 kernel

    A shallow embedding of [bigint_multiply_raw] from
    [src/arch/loong64/core/loong64_bigint.c] together with the proofs of
    the properties that the specification states about it, and of the RSA
    signature self-test of [src/tests/rsa_test.c].

    The kernel is modelled on a word-granular heap: a finite map from the
    byte address of an (8-byte aligned) double word to the 64-bit value it
    holds.  Every load and store is recorded in an access trace, an access
    to an unmapped address is a fault, and the data-dependent
    carry-propagation loop of the inline assembly is given fuel.

    Of the RSA self-test only the test vectors and the test macro are
    among the sources.  The RSA layer, the key parser and the digests are
    modelled after the specification, with the modular exponentiation
    built on the schoolbook multiplication that the kernel implements. *)

From Stdlib Require Import ZArith List Lia Bool.
From Bignums Require Import BigZ.
From stdpp Require Import base option list gmap fin_maps.
Import ListNotations.
Local Open Scope Z_scope.

(** ** Machine words and the LoongArch instructions used by the kernel *)

Module LA64.

(** [BASE] is 2^64, the number of values of a [uint64_t] element. *)
Definition BASE : Z := 2 ^ 64.

Definition word64 (w : Z) : Prop := 0 <= w < BASE.

#[global] Instance word64_dec w : Decision (word64 w).
Proof. unfold word64. apply _. Defined.

(** [mul.d rd, rj, rk]: low 64 bits of the product. *)
Definition mul_d (rj rk : Z) : Z := (rj * rk) mod BASE.

(** [mulh.du rd, rj, rk]: high 64 bits of the unsigned 128-bit product. *)
Definition mulh_du (rj rk : Z) : Z := ((rj * rk) / BASE) mod BASE.

(** [add.d rd, rj, rk]: 64-bit wrapping addition. *)
Definition add_d (rj rk : Z) : Z := (rj + rk) mod BASE.

(** [addi.d rd, rj, si12]: 64-bit wrapping addition of an immediate. *)
Definition addi_d (rj imm : Z) : Z := (rj + imm) mod BASE.

(** [sltu rd, rj, rk]: 1 when [rj] is below [rk] as unsigned, else 0. *)
Definition sltu (rj rk : Z) : Z := if rj <? rk then 1 else 0.

(** [or rd, rj, rk]: bitwise or. *)
Definition or_ (rj rk : Z) : Z := Z.lor rj rk.

(** Effective address of [ld.d]/[st.d rd, rj, si12]. *)
Definition ea (rj imm : Z) : Z := (rj + imm) mod BASE.

End LA64.

Import LA64.

(** ** Heap, access trace and the execution monad *)

Inductive event : Type :=
| EvLoad (addr : Z)
| EvStore (addr : Z).

#[global] Instance event_eq_dec : EqDecision event.
Proof. solve_decision. Defined.

Record state : Type := mkState {
  mem : gmap Z Z;        (* address of a double word |-> its value *)
  trace : list event     (* most recent access first *)
}.

Inductive outcome (A : Type) : Type :=
| Done (a : A) (s : state)
| Fault                       (* access to an unmapped address *)
| OutOfFuel.

Arguments Done {A} a s.
Arguments Fault {A}.
Arguments OutOfFuel {A}.

Definition M (A : Type) : Type := state -> outcome A.

Definition ret {A} (a : A) : M A := fun s => Done a s.

Definition bind {A B} (m : M A) (k : A -> M B) : M B :=
  fun s =>
    match m s with
    | Done a s' => k a s'
    | Fault => Fault
    | OutOfFuel => OutOfFuel
    end.

Notation "'let*' x ':=' m 'in' k" := (bind m (fun x => k))
  (at level 10, x pattern, m at level 100, k at level 200).
Notation "m ';;' k" := (bind m (fun _ => k))
  (at level 100, k at level 200, right associativity).

(** [ld.d rd, rj, si12] *)
Definition ld_d (rj imm : Z) : M Z :=
  fun s =>
    match mem s !! ea rj imm with
    | Some v => Done v (mkState (mem s) (EvLoad (ea rj imm) :: trace s))
    | None => Fault
    end.

(** [st.d rd, rj, si12] *)
Definition st_d (rd rj imm : Z) : M unit :=
  fun s =>
    match mem s !! ea rj imm with
    | Some _ => Done tt (mkState (<[ea rj imm := rd]> (mem s))
                                 (EvStore (ea rj imm) :: trace s))
    | None => Fault
    end.

(** A C [for ( i = start ; i < start + n ; i++ )] loop whose trip count
    [n] is known on entry. *)
Fixpoint for_loop (n : nat) (i : Z) (body : Z -> M unit) : M unit :=
  match n with
  | O => ret tt
  | S n' => body i ;; for_loop n' (i + 1) body
  end.

(** ** The kernel *)

(** [memset ( result, 0, sizeof ( *result ) )], one store per element. *)
Definition memset_zero (result0 result_size : Z) : M unit :=
  for_loop (Z.to_nat result_size) 0 (fun k => st_d 0 (result0 + 8 * k) 0).

(** Lines 90-98 of the assembly: add the double word [hi:lo] to the
    double word [th:tl]; the third component is the carry left in [$t0]. *)
Definition add_pair (lo hi tl th : Z) : Z * Z * Z :=
  let tl := add_d tl lo in
  let t0 := sltu tl lo in
  let th := add_d th hi in
  let t1 := sltu th hi in
  let th := add_d th t0 in
  let t0 := sltu th t0 in
  let t0 := or_ t0 t1 in
  (tl, th, t0).

(** Lines 106-111: the loop at label [1:], left when [$t0] is zero. *)
Fixpoint carry_loop (fuel : nat) (p t0 : Z) : M unit :=
  match fuel with
  | O => fun _ => OutOfFuel
  | S fuel' =>
      let* tl := ld_d p 0 in
      let tl := add_d tl t0 in
      let t0 := sltu tl t0 in
      st_d tl p 0 ;;
      let p := addi_d p 8 in
      if t0 =? 0 then ret tt else carry_loop fuel' p t0
  end.

(** The whole [__asm__] block, lines 84-112. *)
Definition mul_add_asm (fuel : nat) (result_elements : Z)
    (multiplicand_element multiplier_element : Z) : M unit :=
  let lo := mul_d multiplicand_element multiplier_element in
  let hi := mulh_du multiplicand_element multiplier_element in
  let* tl := ld_d result_elements 0 in
  let* th := ld_d result_elements 8 in
  let '(tl, th, t0) := add_pair lo hi tl th in
  st_d tl result_elements 0 ;;
  st_d th result_elements 8 ;;
  let p := addi_d result_elements 16 in
  if t0 =? 0 then ret tt else carry_loop fuel p t0.

(** [unsigned int] arithmetic on element counts and indices. *)
Definition uint (n : Z) : Z := n mod 2 ^ 32.

Definition bigint_multiply_raw (fuel : nat)
    (multiplicand0 multiplicand_size multiplier0 multiplier_size result0 : Z)
    : M unit :=
  let result_size := uint (multiplicand_size + multiplier_size) in
  memset_zero result0 result_size ;;
  for_loop (Z.to_nat multiplicand_size) 0 (fun i =>
    let* multiplicand_element := ld_d (multiplicand0 + 8 * i) 0 in
    for_loop (Z.to_nat multiplier_size) 0 (fun j =>
      let* multiplier_element := ld_d (multiplier0 + 8 * j) 0 in
      let result_elements := result0 + 8 * uint (i + j) in
      mul_add_asm fuel result_elements
                  multiplicand_element multiplier_element)).

(** ** Big integers as lists of words, and buffers in the heap *)

(** The value of a big integer: least-significant element first. *)
Fixpoint bigint_value (ws : list Z) : Z :=
  match ws with
  | [] => 0
  | w :: ws' => w + BASE * bigint_value ws'
  end.

(** The [n] elements of the array that starts at address [base]. *)
Definition read_array (m : gmap Z Z) (base : Z) (n : nat) : option (list Z) :=
  mapM (fun k => m !! (base + 8 * Z.of_nat k)) (seq 0 n).

(** The heap [m] with the elements of [ws] stored from address [base] on. *)
Fixpoint write_array (base : Z) (ws : list Z) (m : gmap Z Z) : gmap Z Z :=
  match ws with
  | [] => m
  | w :: ws' => <[base := w]> (write_array (base + 8) ws' m)
  end.

(** [addr] is the address of one of the [n] elements at [base]. *)
Definition in_buffer (base : Z) (n : nat) (addr : Z) : Prop :=
  base <= addr < base + 8 * Z.of_nat n /\ (addr - base) mod 8 = 0.

#[global] Instance in_buffer_dec base n addr : Decision (in_buffer base n addr).
Proof. unfold in_buffer. apply _. Defined.

(** The byte ranges of two buffers do not overlap. *)
Definition disjoint (p1 : Z) (n1 : nat) (p2 : Z) (n2 : nat) : Prop :=
  n1 = O \/ n2 = O \/
  p1 + 8 * Z.of_nat n1 <= p2 \/ p2 + 8 * Z.of_nat n2 <= p1.

(** A buffer lies inside the 64-bit address space. *)
Definition addressable (base : Z) (n : nat) : Prop :=
  0 <= base /\ base + 8 * Z.of_nat n <= BASE.

(** Running a computation on the heap [m], from an empty trace. *)
Definition run {A} (c : M A) (m : gmap Z Z) : outcome A := c (mkState m []).

(** What a caller of [bigint_multiply_raw] provides: the multiplicand [a]
    at [pa], the multiplier [b] at [pb], and a result buffer of
    [length a + length b] elements at [pr] whose present contents are
    [r0].  Elements are 64-bit, the element counts are [unsigned int]s
    whose sum is one too, and the result buffer overlaps neither operand. *)
Record call_ok (m : gmap Z Z) (pa : Z) (a : list Z) (pb : Z) (b : list Z)
    (pr : Z) (r0 : list Z) : Prop := {
  multiplicand_at : read_array m pa (length a) = Some a;
  multiplier_at : read_array m pb (length b) = Some b;
  result_at : read_array m pr (length a + length b) = Some r0;
  multiplicand_words : Forall word64 a;
  multiplier_words : Forall word64 b;
  sizes_fit : Z.of_nat (length a + length b) < 2 ^ 32;
  multiplicand_addressable : addressable pa (length a);
  multiplier_addressable : addressable pb (length b);
  result_addressable : addressable pr (length a + length b);
  multiplicand_disjoint : disjoint pr (length a + length b) pa (length a);
  multiplier_disjoint : disjoint pr (length a + length b) pb (length b)
}.

(** The call as the C caller writes it. *)
Definition multiply_call (fuel : nat) (pa : Z) (a : list Z) (pb : Z)
    (b : list Z) (pr : Z) : M unit :=
  bigint_multiply_raw fuel pa (Z.of_nat (length a)) pb (Z.of_nat (length b)) pr.

(** The addresses stored to, most recent first. *)
Definition stores (tr : list event) : list Z :=
  omap (fun e => match e with EvStore p => Some p | EvLoad _ => None end) tr.

(** The elements of [ws] are in the heap from address [base] on. *)
Definition array_at (m : gmap Z Z) (base : Z) (ws : list Z) : Prop :=
  forall (k : nat) (w : Z),
    ws !! k = Some w -> m !! (base + 8 * Z.of_nat k) = Some w.

(** An access that the call is entitled to: a store into the [n]-element
    buffer at [pr], or a load from that buffer or from an address in [rd]. *)
Definition access_ok (pr : Z) (n : nat) (rd : Z -> Prop) (e : event) : Prop :=
  match e with
  | EvStore addr => in_buffer pr n addr
  | EvLoad addr => in_buffer pr n addr \/ rd addr
  end.

(** State [s] was reached from [s0] by entitled accesses only, and the
    buffer at [pr] now holds [rs]. *)
Record tracks (pr : Z) (n : nat) (rd : Z -> Prop) (s0 : state)
    (rs : list Z) (s : state) : Prop := {
  tracks_length : length rs = n;
  tracks_array : array_at (mem s) pr rs;
  tracks_frame :
    forall addr, ~ in_buffer pr n addr -> mem s !! addr = mem s0 !! addr;
  tracks_trace :
    exists evs, trace s = evs ++ trace s0 /\ Forall (access_ok pr n rd) evs
}.

(** [addr] is an element of the multiplicand or of the multiplier. *)
Definition operand_cell (pa : Z) (a : list Z) (pb : Z) (b : list Z)
    (addr : Z) : Prop :=
  in_buffer pa (length a) addr \/ in_buffer pb (length b) addr.

(** The memory contents of the result buffer once the call is done. *)
Definition result_of (o : outcome unit) (pr : Z) (n : nat)
    : option (list Z) :=
  match o with
  | Done _ s => read_array (mem s) pr n
  | _ => None
  end.

(** A heap that holds three arrays and nothing else. *)
Definition heap_of (pa : Z) (a : list Z) (pb : Z) (b : list Z)
    (pr : Z) (r : list Z) : gmap Z Z :=
  write_array pa a (write_array pb b (write_array pr r ∅)).

(** The largest element value. *)
Definition max_word : Z := BASE - 1.

(** ** The portable schoolbook algorithm of the specification *)

Module Reference.

(** Propagate a carry into successive higher words until a word
    addition produces no further carry. *)
Fixpoint propagate (carry : Z) (ws : list Z) : list Z :=
  match ws with
  | [] => []
  | w :: ws' =>
      if carry =? 0 then w :: ws'
      else (w + carry) mod BASE :: propagate ((w + carry) / BASE) ws'
  end.

(** Add the double-word product of [x] and [y], split into its high and
    low halves, into the result at word positions [k] and [k + 1]. *)
Definition add_product (r : list Z) (k : nat) (x y : Z) : list Z :=
  let product := x * y in
  let high := product / BASE in
  let low := product mod BASE in
  let s0 := nth k r 0 + low in
  let s1 := nth (S k) r 0 + high + s0 / BASE in
  let r := <[k := s0 mod BASE]> r in
  let r := <[S k := s1 mod BASE]> r in
  take (S (S k)) r ++ propagate (s1 / BASE) (drop (S (S k)) r).

(** All pairs [(i, j)] for one [i], the first [j] of them. *)
Definition row_upto (b : list Z) (x : Z) (i j : nat) (r : list Z) : list Z :=
  foldl (fun r j => add_product r (i + j) x (nth j b 0)) r (seq 0 j).

Definition row (b : list Z) (x : Z) (i : nat) (r : list Z) : list Z :=
  row_upto b x i (length b) r.

(** The first [i] rows, starting from the zeroed result. *)
Definition rows_upto (a b : list Z) (i : nat) : list Z :=
  foldl (fun r i => row b (nth i a 0) i r)
        (replicate (length a + length b) 0) (seq 0 i).

Definition multiply (a b : list Z) : list Z := rows_upto a b (length a).

End Reference.

(** ** The collaborators of the self-test: digests, key parsing, RSA *)

Module Bytes.

(** Value of a big-endian byte string. *)
Definition be_value (bs : list Z) : Z :=
  foldl (fun acc b => acc * 256 + b) 0 bs.

(** Value of a little-endian byte string. *)
Fixpoint le_value (bs : list Z) : Z :=
  match bs with
  | [] => 0
  | b :: bs' => b + 256 * le_value bs'
  end.

(** The [n] low bytes of [z], least significant first. *)
Fixpoint le_bytes (n : nat) (z : Z) : list Z :=
  match n with
  | O => []
  | S n' => z mod 256 :: le_bytes n' (z / 256)
  end.

(** The [n] low bytes of [z], most significant first. *)
Definition be_bytes (n : nat) (z : Z) : list Z := rev (le_bytes n z).

(** Cut [l] into pieces of [k] elements. *)
Fixpoint chunks (fuel k : nat) (l : list Z) : list (list Z) :=
  match fuel with
  | O => []
  | S fuel' =>
      match l with
      | [] => []
      | _ => take k l :: chunks fuel' k (drop k l)
      end
  end.

Definition blocks (k : nat) (l : list Z) : list (list Z) :=
  chunks (length l) k l.

End Bytes.

Module Digest.

Import Bytes.

(** Arithmetic on 32-bit words. *)
Definition add32 (x y : Z) : Z := (x + y) mod 2 ^ 32.
Definition not32 (x : Z) : Z := Z.lxor x (2 ^ 32 - 1).
Definition rotl32 (x n : Z) : Z :=
  Z.lor (Z.shiftl x n mod 2 ^ 32) (Z.shiftr x (32 - n)).
Definition rotr32 (x n : Z) : Z := rotl32 x (32 - n).

(** Message padding shared by the three digests: a 0x80 byte, zeros up
    to 56 modulo 64, then the bit length in eight bytes. *)
Definition pad (length_bytes : Z -> list Z) (msg : list Z) : list Z :=
  let len := Z.of_nat (length msg) in
  msg ++ [0x80] ++ replicate (Z.to_nat ((55 - len) mod 64)) 0
      ++ length_bytes (8 * len).

(** The sine table of MD5: the integer parts of 2^32 |sin i|, i from 1. *)
Definition md5_K : list Z := [
  0xd76aa478; 0xe8c7b756; 0x242070db; 0xc1bdceee;
  0xf57c0faf; 0x4787c62a; 0xa8304613; 0xfd469501;
  0x698098d8; 0x8b44f7af; 0xffff5bb1; 0x895cd7be;
  0x6b901122; 0xfd987193; 0xa679438e; 0x49b40821;
  0xf61e2562; 0xc040b340; 0x265e5a51; 0xe9b6c7aa;
  0xd62f105d; 0x02441453; 0xd8a1e681; 0xe7d3fbc8;
  0x21e1cde6; 0xc33707d6; 0xf4d50d87; 0x455a14ed;
  0xa9e3e905; 0xfcefa3f8; 0x676f02d9; 0x8d2a4c8a;
  0xfffa3942; 0x8771f681; 0x6d9d6122; 0xfde5380c;
  0xa4beea44; 0x4bdecfa9; 0xf6bb4b60; 0xbebfbc70;
  0x289b7ec6; 0xeaa127fa; 0xd4ef3085; 0x04881d05;
  0xd9d4d039; 0xe6db99e5; 0x1fa27cf8; 0xc4ac5665;
  0xf4292244; 0x432aff97; 0xab9423a7; 0xfc93a039;
  0x655b59c3; 0x8f0ccc92; 0xffeff47d; 0x85845dd1;
  0x6fa87e4f; 0xfe2ce6e0; 0xa3014314; 0x4e0811a1;
  0xf7537e82; 0xbd3af235; 0x2ad7d2bb; 0xeb86d391 ].

(** The rotation amounts of MD5, round by round. *)
Definition md5_S : list Z :=
  [7; 12; 17; 22; 7; 12; 17; 22; 7; 12; 17; 22; 7; 12; 17; 22;
   5; 9; 14; 20; 5; 9; 14; 20; 5; 9; 14; 20; 5; 9; 14; 20;
   4; 11; 16; 23; 4; 11; 16; 23; 4; 11; 16; 23; 4; 11; 16; 23;
   6; 10; 15; 21; 6; 10; 15; 21; 6; 10; 15; 21; 6; 10; 15; 21].

(** Operation [i] of the 64 that process a block with words [M]. *)
Definition md5_step (M : list Z) (st : Z * Z * Z * Z) (i : nat)
    : Z * Z * Z * Z :=
  let '(A, B, C, D) := st in
  let '(F, g) :=
    if (i <? 16)%nat then
      (Z.lor (Z.land B C) (Z.land (not32 B) D), i)
    else if (i <? 32)%nat then
      (Z.lor (Z.land D B) (Z.land (not32 D) C), ((5 * i + 1) mod 16)%nat)
    else if (i <? 48)%nat then
      (Z.lxor B (Z.lxor C D), ((3 * i + 5) mod 16)%nat)
    else
      (Z.lxor C (Z.lor B (not32 D)), ((7 * i) mod 16)%nat) in
  let F := add32 (add32 (add32 F A) (nth i md5_K 0)) (nth g M 0) in
  (D, add32 B (rotl32 F (nth i md5_S 0)), B, C).

(** One 64-byte block. *)
Definition md5_block (h : Z * Z * Z * Z) (block : list Z) : Z * Z * Z * Z :=
  let M := map le_value (blocks 4 block) in
  let '(a0, b0, c0, d0) := h in
  let '(a, b, c, d) := foldl (md5_step M) h (seq 0 64) in
  (add32 a0 a, add32 b0 b, add32 c0 c, add32 d0 d).

(** Modelled from the spec: the MD5 digest algorithm, which the
    specification names as an external collaborator of the RSA layer; its
    implementation is not among the sources.  Written after RFC 1321. *)
Definition md5 (msg : list Z) : list Z :=
  let '(a, b, c, d) :=
    foldl md5_block (0x67452301, 0xefcdab89, 0x98badcfe, 0x10325476)
          (blocks 64 (pad (le_bytes 8) msg)) in
  le_bytes 4 a ++ le_bytes 4 b ++ le_bytes 4 c ++ le_bytes 4 d.

(** The message schedule, extended by [n] words. *)
Fixpoint sha1_schedule (n : nat) (w : list Z) : list Z :=
  match n with
  | O => w
  | S n' =>
      let t := length w in
      let x := Z.lxor (Z.lxor (nth (t - 3) w 0) (nth (t - 8) w 0))
                      (Z.lxor (nth (t - 14) w 0) (nth (t - 16) w 0)) in
      sha1_schedule n' (w ++ [rotl32 x 1])
  end.

(** Round [i] of the 80 that process a block with schedule [W]. *)
Definition sha1_step (W : list Z) (st : Z * Z * Z * Z * Z) (i : nat)
    : Z * Z * Z * Z * Z :=
  let '(a, b, c, d, e) := st in
  let '(f, k) :=
    if (i <? 20)%nat then
      (Z.lor (Z.land b c) (Z.land (not32 b) d), 0x5a827999)
    else if (i <? 40)%nat then
      (Z.lxor b (Z.lxor c d), 0x6ed9eba1)
    else if (i <? 60)%nat then
      (Z.lor (Z.lor (Z.land b c) (Z.land b d)) (Z.land c d), 0x8f1bbcdc)
    else
      (Z.lxor b (Z.lxor c d), 0xca62c1d6) in
  let temp :=
    add32 (add32 (add32 (add32 (rotl32 a 5) f) e) k) (nth i W 0) in
  (temp, a, rotl32 b 30, c, d).

(** One 64-byte block. *)
Definition sha1_block (h : Z * Z * Z * Z * Z) (block : list Z)
    : Z * Z * Z * Z * Z :=
  let W := sha1_schedule 64 (map be_value (blocks 4 block)) in
  let '(h0, h1, h2, h3, h4) := h in
  let '(a, b, c, d, e) := foldl (sha1_step W) h (seq 0 80) in
  (add32 h0 a, add32 h1 b, add32 h2 c, add32 h3 d, add32 h4 e).

(** Modelled from the spec: the SHA-1 digest algorithm, named by the
    specification as an external collaborator; its implementation is not
    among the sources.  Written after FIPS 180-4. *)
Definition sha1 (msg : list Z) : list Z :=
  let '(h0, h1, h2, h3, h4) :=
    foldl sha1_block
          (0x67452301, 0xefcdab89, 0x98badcfe, 0x10325476, 0xc3d2e1f0)
          (blocks 64 (pad (be_bytes 8) msg)) in
  be_bytes 4 h0 ++ be_bytes 4 h1 ++ be_bytes 4 h2 ++ be_bytes 4 h3
    ++ be_bytes 4 h4.

(** The primes among [k], [k + 1], ..., by trial division. *)
Fixpoint primes_upto (fuel : nat) (k : Z) (found : list Z) : list Z :=
  match fuel with
  | O => rev found
  | S fuel' =>
      if forallb (fun p => negb (k mod p =? 0)) found
      then primes_upto fuel' (k + 1) (k :: found)
      else primes_upto fuel' (k + 1) found
  end.

(** The first 64 primes, 2 to 311. *)
Definition first_primes : list Z := primes_upto 310 2 [].

(** The integer part of the [k]-th root of [x], found bit by bit from
    bit [bits - 1] down. *)
Fixpoint root (k : Z) (bits : nat) (x : Z) (r : Z) : Z :=
  match bits with
  | O => r
  | S bits' =>
      let r' := r + 2 ^ Z.of_nat bits' in
      if r' ^ k <=? x then root k bits' x r' else root k bits' x r
  end.

(** The round constants: the first 32 bits of the fractional parts of
    the cube roots of the first 64 primes. *)
Definition sha256_K : list Z :=
  Eval vm_compute in
    map (fun p => root 3 36 (p * 2 ^ 96) 0 mod 2 ^ 32) first_primes.

(** The initial hash value: the first 32 bits of the fractional parts of
    the square roots of the first 8 primes. *)
Definition sha256_H : list Z :=
  Eval vm_compute in
    map (fun p => root 2 36 (p * 2 ^ 64) 0 mod 2 ^ 32) (take 8 first_primes).

(** The message schedule, extended by [n] words. *)
Fixpoint sha256_schedule (n : nat) (w : list Z) : list Z :=
  match n with
  | O => w
  | S n' =>
      let t := length w in
      let w15 := nth (t - 15) w 0 in
      let w2 := nth (t - 2) w 0 in
      let s0 := Z.lxor (Z.lxor (rotr32 w15 7) (rotr32 w15 18))
                       (Z.shiftr w15 3) in
      let s1 := Z.lxor (Z.lxor (rotr32 w2 17) (rotr32 w2 19))
                       (Z.shiftr w2 10) in
      sha256_schedule n'
        (w ++ [add32 (add32 (add32 (nth (t - 16) w 0) s0) (nth (t - 7) w 0))
                     s1])
  end.

(** Round [i] of the 64 that process a block with schedule [W]. *)
Definition sha256_step (W : list Z) (st : list Z) (i : nat) : list Z :=
  match st with
  | [a; b; c; d; e; f; g; h] =>
      let S1 := Z.lxor (Z.lxor (rotr32 e 6) (rotr32 e 11)) (rotr32 e 25) in
      let ch := Z.lxor (Z.land e f) (Z.land (not32 e) g) in
      let temp1 :=
        add32 (add32 (add32 (add32 h S1) ch) (nth i sha256_K 0))
              (nth i W 0) in
      let S0 := Z.lxor (Z.lxor (rotr32 a 2) (rotr32 a 13)) (rotr32 a 22) in
      let maj := Z.lxor (Z.lxor (Z.land a b) (Z.land a c)) (Z.land b c) in
      let temp2 := add32 S0 maj in
      [add32 temp1 temp2; a; b; c; add32 d temp1; e; f; g]
  | _ => st
  end.

(** One 64-byte block. *)
Definition sha256_block (h : list Z) (block : list Z) : list Z :=
  let W := sha256_schedule 48 (map be_value (blocks 4 block)) in
  zip_with add32 h (foldl (sha256_step W) h (seq 0 64)).

(** Modelled from the spec: the SHA-256 digest algorithm, named by the
    specification as an external collaborator; its implementation is not
    among the sources.  Written after FIPS 180-4. *)
Definition sha256 (msg : list Z) : list Z :=
  concat (map (be_bytes 4)
              (foldl sha256_block sha256_H (blocks 64 (pad (be_bytes 8) msg)))).

End Digest.

Module ASN1.

Import Bytes.

Definition ASN1_INTEGER : Z := 0x02.
Definition ASN1_BIT_STRING : Z := 0x03.
Definition ASN1_SEQUENCE : Z := 0x30.

(** Modelled from the spec: the ASN.1 parsing of key material, an
    external collaborator whose implementation is not among the sources.
    One DER object at the head of [bs]: its tag, its contents and what
    follows it. *)
Definition object (bs : list Z) : option (Z * list Z * list Z) :=
  match bs with
  | tag :: l :: rest =>
      let '(len, body) :=
        if l <? 0x80 then (l, rest)
        else
          let n := Z.to_nat (l - 0x80) in
          (be_value (take n rest), drop n rest) in
      if Z.of_nat (length body) <? len then None
      else Some (tag, take (Z.to_nat len) body, drop (Z.to_nat len) body)
  | _ => None
  end.

(** Modelled from the spec: ASN.1 parsing of key material, the tag of
    the object at the head of [bs]. *)
Definition type (bs : list Z) : option Z :=
  match bs with
  | tag :: _ => Some tag
  | [] => None
  end.

(** Modelled from the spec: ASN.1 parsing of key material, the contents
    of the object at the head of [bs], which has tag [tag]. *)
Definition enter (tag : Z) (bs : list Z) : option (list Z) :=
  match object bs with
  | Some (t, contents, _) => if t =? tag then Some contents else None
  | None => None
  end.

(** Modelled from the spec: ASN.1 parsing of key material, what follows
    the object at the head of [bs]. *)
Definition skip_any (bs : list Z) : option (list Z) :=
  match object bs with
  | Some (_, _, rest) => Some rest
  | None => None
  end.

(** Modelled from the spec: ASN.1 parsing of key material, the contents
    of a bit string without unused bits. *)
Definition enter_bits (bs : list Z) : option (list Z) :=
  match enter ASN1_BIT_STRING bs with
  | Some (0 :: contents) => Some contents
  | _ => None
  end.

(** The bytes of an unsigned integer, leading zero bytes removed. *)
Fixpoint strip_zeros (bs : list Z) : list Z :=
  match bs with
  | 0 :: bs' => strip_zeros bs'
  | _ => bs
  end.

(** Modelled from the spec: ASN.1 parsing of key material, the bytes of
    the unsigned integer at the head of [bs]. *)
Definition integer (bs : list Z) : option (list Z) :=
  match enter ASN1_INTEGER bs with
  | Some contents => Some (strip_zeros contents)
  | None => None
  end.

End ASN1.

Module Bigint.

Import Bytes.

(** The [n] low 64-bit words of [z], least significant first. *)
Fixpoint to_words (n : nat) (z : Z) : list Z :=
  match n with
  | O => []
  | S n' => z mod BASE :: to_words n' (z / BASE)
  end.

(** Modelled from the spec: import of a big integer from a big-endian
    byte buffer, padded to [size] whole words (external interface of the
    engine; the implementation is not among the sources). *)
Definition init (size : nat) (bs : list Z) : list Z :=
  to_words size (be_value bs).

(** Modelled from the spec: export of a big integer to a big-endian byte
    buffer of the length the caller asks for. *)
Definition done (len : nat) (ws : list Z) : list Z :=
  be_bytes len (bigint_value ws).

(** Number of words needed for [len] bytes. *)
Definition required_size (len : nat) : nat := ((len + 7) / 8)%nat.

(** Modelled from the spec: division-based reduction of a double-width
    intermediate modulo the modulus, back to modulus width. *)
Definition reduce (modulus x : list Z) : list Z :=
  to_words (length modulus) (bigint_value x mod bigint_value modulus).

(** The bits of [exponent], most significant first. *)
Definition bits_msb_first (exponent : list Z) : list bool :=
  map (fun i => Z.testbit (bigint_value exponent) (Z.of_nat i))
      (rev (seq 0 (64 * length exponent))).

(** Modelled from the spec: modular exponentiation by square-and-multiply,
    scanning the exponent from its most significant bit, with the
    multiplications done by the multiply kernel's algorithm. *)
Definition mod_exp (base modulus exponent : list Z) : list Z :=
  foldl (fun acc (bit : bool) =>
           let acc := reduce modulus (Reference.multiply acc acc) in
           if bit then reduce modulus (Reference.multiply acc base) else acc)
        (to_words (length modulus) 1)
        (bits_msb_first exponent).

End Bigint.

(** The digest algorithms of the three signature tests. *)
Inductive digest_algorithm : Type :=
| md5_algorithm
| sha1_algorithm
| sha256_algorithm.

(** [struct asn1_algorithm], as far as the self-test uses it. *)
Record asn1_algorithm : Type := {
  digest : digest_algorithm
}.

Definition md5_with_rsa_encryption_algorithm : asn1_algorithm :=
  {| digest := md5_algorithm |}.
Definition sha1_with_rsa_encryption_algorithm : asn1_algorithm :=
  {| digest := sha1_algorithm |}.
Definition sha256_with_rsa_encryption_algorithm : asn1_algorithm :=
  {| digest := sha256_algorithm |}.

(** Modelled from the spec: a digest algorithm produces the fixed-length
    digest of the data ([digest_init], [digest_update] and [digest_final]
    in one go; not among the sources). *)
Definition digest_of (d : digest_algorithm) (data : list Z) : list Z :=
  match d with
  | md5_algorithm => Digest.md5 data
  | sha1_algorithm => Digest.sha1 data
  | sha256_algorithm => Digest.sha256 data
  end.

Module RSA.

(** An initialised RSA context. *)
Record context : Type := {
  modulus : list Z;      (* words *)
  exponent : list Z;     (* words *)
  max_len : nat          (* length of the modulus in bytes *)
}.

(** Modelled from the spec: the RSA layer parses the modulus and the
    exponent from the key: the private exponent of an [RSAPrivateKey],
    the public exponent of a [subjectPublicKeyInfo].  Its implementation
    is not among the sources. *)
Definition init (key : list Z) : option context :=
  cursor ← ASN1.enter ASN1.ASN1_SEQUENCE key;
  is_private ← (t ← ASN1.type cursor; Some (t =? ASN1.ASN1_INTEGER));
  cursor ← (if is_private : bool then
               (* skip version *)
               ASN1.skip_any cursor
             else
               (* skip algorithm, enter subjectPublicKey and RSAPublicKey *)
               cursor ← ASN1.skip_any cursor;
               cursor ← ASN1.enter_bits cursor;
               ASN1.enter ASN1.ASN1_SEQUENCE cursor);
  modulus ← ASN1.integer cursor;
  cursor ← ASN1.skip_any cursor;
  cursor ← (if is_private : bool then ASN1.skip_any cursor else Some cursor);
  exponent ← ASN1.integer cursor;
  let size := Bigint.required_size (length modulus) in
  let exponent_size := Bigint.required_size (length exponent) in
  Some {| modulus := Bigint.init size modulus;
          exponent := Bigint.init exponent_size exponent;
          max_len := length modulus |}.

(** Modelled from the spec: the RSA primitive, conversion to the
    word-array representation, modular exponentiation, and conversion
    back to bytes. *)
Definition cipher (ctx : context) (input : list Z) : list Z :=
  let size := length (modulus ctx) in
  Bigint.done (max_len ctx)
    (Bigint.mod_exp (Bigint.init size input) (modulus ctx) (exponent ctx)).

(** Modelled from the spec: the signature algorithm's identifier, as the
    [DigestInfo] prefix of PKCS#1 that precedes the digest. *)
Definition digest_prefix (d : digest_algorithm) : list Z :=
  match d with
  | md5_algorithm =>
      [0x30; 0x20; 0x30; 0x0c; 0x06; 0x08; 0x2a; 0x86; 0x48; 0x86; 0xf7;
       0x0d; 0x02; 0x05; 0x05; 0x00; 0x04; 0x10]
  | sha1_algorithm =>
      [0x30; 0x21; 0x30; 0x09; 0x06; 0x05; 0x2b; 0x0e; 0x03; 0x02; 0x1a;
       0x05; 0x00; 0x04; 0x14]
  | sha256_algorithm =>
      [0x30; 0x31; 0x30; 0x0d; 0x06; 0x09; 0x60; 0x86; 0x48; 0x01; 0x65;
       0x03; 0x04; 0x02; 0x01; 0x05; 0x00; 0x04; 0x20]
  end.

(** Modelled from the spec: the PKCS#1-style signature padding, which
    embeds the digest, per the signature algorithm's identifier, into the
    plaintext operand: 00 01 FF .. FF 00 DigestInfo. *)
Definition encode_digest (ctx : context) (d : digest_algorithm)
    (value : list Z) : option (list Z) :=
  let digest_info := digest_prefix d ++ value in
  if (max_len ctx <? length digest_info + 11)%nat then None
  else
    Some ([0x00; 0x01]
          ++ replicate (max_len ctx - length digest_info - 3) 0xff
          ++ [0x00] ++ digest_info).

(** Modelled from the spec: signing is the RSA primitive, with the
    private exponent, on the padded digest. *)
Definition sign (ctx : context) (d : digest_algorithm) (value : list Z)
    : option (list Z) :=
  encoded ← encode_digest ctx d value;
  Some (cipher ctx encoded).

(** Modelled from the spec: verification applies the RSA primitive, with
    the public exponent, to a signature of the modulus length and compares
    the outcome with the padded digest; a mismatch is reported as a
    result. *)
Definition verify (ctx : context) (d : digest_algorithm) (value : list Z)
    (signature : list Z) : bool :=
  if negb (length signature =? max_len ctx)%nat then false
  else
    match encode_digest ctx d value with
    | Some actual => bool_decide (cipher ctx signature = actual)
    | None => false
    end.

End RSA.

(** [struct pubkey_algorithm], as far as the self-test uses it. *)
Record pubkey_algorithm : Type := {
  pubkey_ctx : Type;
  pubkey_init : list Z -> option pubkey_ctx;
  pubkey_sign :
    pubkey_ctx -> digest_algorithm -> list Z -> option (list Z);
  pubkey_verify :
    pubkey_ctx -> digest_algorithm -> list Z -> list Z -> bool
}.

(** Modelled from the spec: the RSA layer as a public-key algorithm
    ([rsa_algorithm], not among the sources). *)
Definition rsa_algorithm : pubkey_algorithm :=
  {| pubkey_ctx := RSA.context;
     pubkey_init := RSA.init;
     pubkey_sign := RSA.sign;
     pubkey_verify := RSA.verify |}.

(** ** The RSA self-test *)

(** An RSA signature self-test. *)
Record rsa_signature_test : Type := {
  private : list Z;
  public : list Z;
  plaintext : list Z;
  algorithm : asn1_algorithm;
  signature : list Z
}.

(** Modelled from the spec: the harness asserts that signing the
    plaintext with the private key gives exactly the expected signature
    ([pubkey_sign_ok], not among the sources). *)
Definition pubkey_sign_ok (pubkey : pubkey_algorithm) (key : list Z)
    (d : digest_algorithm) (plaintext expected : list Z) : bool :=
  match pubkey_init pubkey key with
  | Some ctx =>
      bool_decide (pubkey_sign pubkey ctx d (digest_of d plaintext)
                   = Some expected)
  | None => false
  end.

(** Modelled from the spec: verification succeeds against the matching
    signature ([pubkey_verify_ok], not among the sources). *)
Definition pubkey_verify_ok (pubkey : pubkey_algorithm) (key : list Z)
    (d : digest_algorithm) (plaintext signature : list Z) : bool :=
  match pubkey_init pubkey key with
  | Some ctx => pubkey_verify pubkey ctx d (digest_of d plaintext) signature
  | None => false
  end.

(** Modelled from the spec: verification fails against a corrupted
    signature ([pubkey_verify_fail_ok], not among the sources). *)
Definition pubkey_verify_fail_ok (pubkey : pubkey_algorithm)
    (key : list Z) (d : digest_algorithm) (plaintext signature : list Z)
    : bool :=
  match pubkey_init pubkey key with
  | Some ctx =>
      negb (pubkey_verify pubkey ctx d (digest_of d plaintext) signature)
  | None => false
  end.

(** [rsa_signature_ok ( test )]: the three reports of the macro. *)
Definition rsa_signature_ok (test : rsa_signature_test) : bool * bool * bool :=
  let digest := digest (algorithm test) in
  let bad_signature := replicate (length (signature test)) 0 in
  (pubkey_sign_ok rsa_algorithm (private test) digest
                  (plaintext test) (signature test),
   pubkey_verify_ok rsa_algorithm (public test) digest
                    (plaintext test) (signature test),
   pubkey_verify_fail_ok rsa_algorithm (public test) digest
                         (plaintext test) bad_signature).

Definition md5_test_private : list Z := [
   0x30; 0x82; 0x01; 0x3b; 0x02; 0x01; 0x00; 0x02; 0x41; 0x00;
   0xf9; 0x3f; 0x78; 0x44; 0xe2; 0x0e; 0x25; 0xf1; 0x0e; 0x94;
   0xcd; 0xca; 0x6f; 0x9e; 0xea; 0x6d; 0xdf; 0xcd; 0xa0; 0x7c;
   0xe2; 0x21; 0xeb; 0xde; 0xa6; 0x01; 0x4b; 0xb0; 0x76; 0x4b;
   0xd8; 0x8b; 0x19; 0x83; 0xb4; 0xbe; 0x45; 0xde; 0x3d; 0x46;
   0x61; 0x0f; 0x11; 0xe2; 0x2c; 0xf5; 0xb0; 0x63; 0xa0; 0x84;
   0xc0; 0xaf; 0x4e; 0xbe; 0x6a; 0xd3; 0x84; 0x3f; 0xec; 0x42;
   0x17; 0xe9; 0x25; 0xe1; 0x02; 0x03; 0x01; 0x00; 0x01; 0x02;
   0x40; 0x62; 0x7d; 0x93; 0x1f; 0xdd; 0x17; 0xec; 0x24; 0x42;
   0x37; 0xc8; 0xce; 0x0a; 0xa7; 0x88; 0x49; 0x5c; 0x9b; 0x9b;
   0xa4; 0x5d; 0x93; 0x3b; 0xea; 0x62; 0x3c; 0xb6; 0xd5; 0x07;
   0x19; 0xd7; 0x79; 0xf0; 0x3b; 0xab; 0xa3; 0xa5; 0x43; 0x35;
   0x8d; 0x58; 0x40; 0xa0; 0x95; 0xc5; 0x63; 0x28; 0x28; 0xda;
   0x13; 0x28; 0xdf; 0xc9; 0x05; 0xdc; 0x69; 0x46; 0xff; 0x2a;
   0xfb; 0xe4; 0xd1; 0x23; 0xa5; 0x02; 0x21; 0x00; 0xfc; 0xef;
   0x3b; 0x9d; 0x9d; 0x69; 0xf3; 0x66; 0x0a; 0x2b; 0x52; 0xd6;
   0x61; 0x14; 0x90; 0x6e; 0x7d; 0x3c; 0x08; 0x4b; 0x98; 0x44;
   0x00; 0xf2; 0xa4; 0x16; 0x2d; 0xd1; 0xf9; 0xa0; 0x1e; 0x37;
   0x02; 0x21; 0x00; 0xfc; 0x44; 0xcc; 0x7c; 0xc0; 0x26; 0x9a;
   0x0a; 0x6e; 0xda; 0x17; 0x05; 0x7d; 0x66; 0x8d; 0x29; 0x1a;
   0x44; 0xbf; 0x33; 0x76; 0xae; 0x8d; 0xe8; 0xb5; 0xed; 0xb8;
   0x6f; 0xdc; 0xfe; 0x10; 0xa7; 0x02; 0x20; 0x76; 0x48; 0x8a;
   0x60; 0x93; 0x14; 0xd1; 0x36; 0x8e; 0xda; 0xe3; 0xca; 0x4d;
   0x6c; 0x08; 0x7f; 0x23; 0x21; 0xc7; 0xdf; 0x52; 0x3d; 0xbb;
   0x13; 0xbd; 0x98; 0x81; 0xa5; 0x08; 0x4f; 0xd0; 0xd1; 0x02;
   0x21; 0x00; 0xd9; 0xa3; 0x11; 0x37; 0xdf; 0x1e; 0x6e; 0x6e;
   0xe9; 0xcb; 0xc5; 0x68; 0xbb; 0x13; 0x2a; 0x5d; 0x77; 0x88;
   0x2f; 0xdc; 0x5a; 0x5b; 0xa5; 0x9a; 0x4a; 0xba; 0x58; 0x10;
   0x49; 0xfb; 0xf6; 0xa9; 0x02; 0x21; 0x00; 0x89; 0xe8; 0x47;
   0x5b; 0x20; 0x04; 0x3b; 0x0f; 0xb9; 0xe0; 0x1d; 0xab; 0xcf;
   0xe8; 0x72; 0xfd; 0x7d; 0x17; 0x85; 0xc8; 0xd8; 0xbd; 0x1a;
   0x92; 0xe0; 0xbc; 0x7a; 0xc7; 0x31; 0xbe; 0xef; 0xf4 ].

Definition md5_test_public : list Z := [
   0x30; 0x5c; 0x30; 0x0d; 0x06; 0x09; 0x2a; 0x86; 0x48; 0x86;
   0xf7; 0x0d; 0x01; 0x01; 0x01; 0x05; 0x00; 0x03; 0x4b; 0x00;
   0x30; 0x48; 0x02; 0x41; 0x00; 0xf9; 0x3f; 0x78; 0x44; 0xe2;
   0x0e; 0x25; 0xf1; 0x0e; 0x94; 0xcd; 0xca; 0x6f; 0x9e; 0xea;
   0x6d; 0xdf; 0xcd; 0xa0; 0x7c; 0xe2; 0x21; 0xeb; 0xde; 0xa6;
   0x01; 0x4b; 0xb0; 0x76; 0x4b; 0xd8; 0x8b; 0x19; 0x83; 0xb4;
   0xbe; 0x45; 0xde; 0x3d; 0x46; 0x61; 0x0f; 0x11; 0xe2; 0x2c;
   0xf5; 0xb0; 0x63; 0xa0; 0x84; 0xc0; 0xaf; 0x4e; 0xbe; 0x6a;
   0xd3; 0x84; 0x3f; 0xec; 0x42; 0x17; 0xe9; 0x25; 0xe1; 0x02;
   0x03; 0x01; 0x00; 0x01 ].

Definition md5_test_plaintext : list Z := [
   0x9d; 0x5b; 0x46; 0x42; 0x27; 0xc0; 0xf1; 0x4b; 0xe5; 0x9e;
   0xd3; 0x10; 0xa1; 0xeb; 0x16; 0xc3; 0xc6; 0x8f; 0x1a; 0x18;
   0x86; 0xc3; 0x92; 0x15; 0x2d; 0x65; 0xa0; 0x40; 0xe1; 0x3e;
   0x29; 0x79; 0x7c; 0xd4; 0x08; 0xef; 0x53; 0xeb; 0x08; 0x07;
   0x39; 0x21; 0xb3; 0x40; 0xff; 0x4b; 0xc7; 0x76; 0xb9; 0x12;
   0x32; 0x41; 0xcc; 0x5a; 0x86; 0x5c; 0x2e; 0x0b; 0x05; 0xd8;
   0x56; 0xd4; 0xdf; 0x6f; 0x2c; 0xf0; 0xbf; 0x4b; 0x6f; 0x68;
   0xde; 0x39; 0x4a; 0x3e; 0xae; 0x44; 0xb9; 0xc6; 0x24; 0xb3;
   0x83; 0x2e; 0x9f; 0xf5; 0x6d; 0x61; 0xc3; 0x8e; 0xe8; 0x8f;
   0xa6; 0x87; 0x58; 0x3f; 0x36; 0x13; 0xf4; 0x7e; 0xf0; 0x20;
   0x47; 0x87; 0x3f; 0x21; 0x6e; 0x51; 0x3c; 0xf1; 0xef; 0xca;
   0x9f; 0x77; 0x9c; 0x91; 0x4f; 0xd4; 0x56; 0xc0; 0x39; 0x11;
   0xab; 0x15; 0x2c; 0x5e; 0xad; 0x40; 0x09; 0xe6; 0xde; 0xe5;
   0x77; 0x60; 0x19; 0xd4; 0x0d; 0x77; 0x76; 0x24; 0x8b; 0xe6;
   0xdd; 0xa5; 0x8d; 0x4a; 0x55; 0x3a; 0xdf; 0xf8; 0x29; 0xfb;
   0x47; 0x8a; 0xfe; 0x98; 0x34; 0xf6; 0x30; 0x7f; 0x09; 0x03;
   0x26; 0x05; 0xd5; 0x46; 0x18; 0x96; 0xca; 0x96; 0x5b; 0x66;
   0xf2; 0x8d; 0xfc; 0xfc; 0x37; 0xf7; 0xc7; 0x6d; 0x6c; 0xd8;
   0x24; 0x0c; 0x6a; 0xec; 0x82; 0x5c; 0x72; 0xf1; 0xfc; 0x05;
   0xed; 0x8e; 0xe8; 0xd9; 0x8b; 0x8b; 0x67; 0x02; 0x95 ].

Definition md5_test_signature : list Z := [
   0xdb; 0x56; 0x3d; 0xea; 0xae; 0x81; 0x4b; 0x3b; 0x2e; 0x8e;
   0xb8; 0xee; 0x13; 0x61; 0xc6; 0xe7; 0xd7; 0x50; 0xcd; 0x0d;
   0x34; 0x3a; 0xfe; 0x9a; 0x8d; 0xf8; 0xfb; 0xd6; 0x7e; 0xbd;
   0xdd; 0xb3; 0xf9; 0xfb; 0xe0; 0xf8; 0xe7; 0x71; 0x03; 0xe6;
   0x55; 0xd5; 0xf4; 0x02; 0x3c; 0xb5; 0xbc; 0x95; 0x2b; 0x66;
   0x56; 0xec; 0x2f; 0x8e; 0xa7; 0xae; 0xd9; 0x80; 0xb3; 0xaa;
   0xac; 0x45; 0x00; 0xa8 ].

Definition sha1_test_private : list Z := [
   0x30; 0x82; 0x01; 0x3b; 0x02; 0x01; 0x00; 0x02; 0x41; 0x00;
   0xe0; 0x3a; 0x8d; 0x35; 0xe1; 0x92; 0x2f; 0xea; 0x0d; 0x82;
   0x60; 0x2e; 0xb6; 0x0b; 0x02; 0xd3; 0xf4; 0x39; 0xfb; 0x06;
   0x43; 0x8e; 0xa1; 0x7c; 0xc5; 0xae; 0x0d; 0xc7; 0xee; 0x83;
   0xb3; 0x63; 0x20; 0x92; 0x34; 0xe2; 0x94; 0x3d; 0xdd; 0xbb;
   0x6c; 0x64; 0x69; 0x68; 0x25; 0x24; 0x81; 0x4b; 0x4d; 0x48;
   0x5a; 0xd2; 0x29; 0x14; 0xeb; 0x38; 0xdd; 0x3e; 0xb5; 0x57;
   0x45; 0x9b; 0xed; 0x33; 0x02; 0x03; 0x01; 0x00; 0x01; 0x02;
   0x40; 0x3d; 0xa9; 0x1c; 0x47; 0xe2; 0xdd; 0xf6; 0x7b; 0x20;
   0x77; 0xe7; 0xc7; 0x30; 0x9c; 0x5a; 0x8c; 0xba; 0xae; 0x6f;
   0x0f; 0x4b; 0xe8; 0x9f; 0x13; 0xd6; 0xb0; 0x84; 0x6d; 0xa4;
   0x73; 0x67; 0x12; 0xa9; 0x7c; 0x75; 0xaf; 0x62; 0x92; 0x7b;
   0x80; 0xaf; 0x39; 0x7d; 0x01; 0xb3; 0x43; 0xc8; 0x0d; 0x17;
   0x7f; 0x82; 0x59; 0x46; 0xb8; 0xe5; 0x4e; 0xba; 0x5e; 0x71;
   0x5c; 0xba; 0x62; 0x06; 0x91; 0x02; 0x21; 0x00; 0xf7; 0xaa;
   0xb6; 0x9c; 0xc8; 0xad; 0x68; 0xa8; 0xd7; 0x25; 0xb1; 0xb5;
   0x91; 0xd4; 0xc7; 0xd6; 0x69; 0x51; 0x5d; 0x04; 0xed; 0xd8;
   0xc6; 0xea; 0x69; 0xd2; 0x24; 0xbe; 0x5e; 0x7c; 0x89; 0xa5;
   0x02; 0x21; 0x00; 0xe7; 0xc5; 0xf4; 0x01; 0x35; 0xe0; 0x16;
   0xb5; 0x13; 0x86; 0x14; 0x5a; 0x6a; 0x8d; 0x03; 0x90; 0xae;
   0x7d; 0x3a; 0xc1; 0xfe; 0x8c; 0xa0; 0x4a; 0xb4; 0x94; 0x50;
   0x58; 0xa4; 0xc6; 0x73; 0xf7; 0x02; 0x21; 0x00; 0xe2; 0xda;
   0x16; 0x6c; 0x63; 0x90; 0x1a; 0xc6; 0x54; 0x53; 0x2d; 0x84;
   0x8f; 0x70; 0x24; 0x1f; 0x6b; 0xd6; 0x5f; 0xea; 0x8c; 0xe5;
   0xbb; 0xc5; 0xa9; 0x6a; 0x17; 0xc7; 0xdb; 0x8a; 0x1d; 0x15;
   0x02; 0x21; 0x00; 0xe4; 0x2a; 0x7e; 0xe4; 0x76; 0x2a; 0x2d;
   0x90; 0x83; 0x30; 0xda; 0x76; 0x8c; 0x30; 0x58; 0x13; 0x25;
   0x83; 0x88; 0xc5; 0x93; 0x96; 0xd2; 0xf1; 0xd8; 0x45; 0xad;
   0xb7; 0x26; 0x37; 0x6b; 0xcf; 0x02; 0x20; 0x73; 0x58; 0x1f;
   0x0a; 0xcd; 0x0c; 0x83; 0x27; 0xcc; 0x15; 0xa2; 0x1e; 0x07;
   0x32; 0x1b; 0xa3; 0xc6; 0xa6; 0xb8; 0x83; 0x97; 0x48; 0x45;
   0x50; 0x6c; 0x37; 0x45; 0xa5; 0x54; 0x2a; 0x59; 0x3c ].

Definition sha1_test_public : list Z := [
   0x30; 0x5c; 0x30; 0x0d; 0x06; 0x09; 0x2a; 0x86; 0x48; 0x86;
   0xf7; 0x0d; 0x01; 0x01; 0x01; 0x05; 0x00; 0x03; 0x4b; 0x00;
   0x30; 0x48; 0x02; 0x41; 0x00; 0xe0; 0x3a; 0x8d; 0x35; 0xe1;
   0x92; 0x2f; 0xea; 0x0d; 0x82; 0x60; 0x2e; 0xb6; 0x0b; 0x02;
   0xd3; 0xf4; 0x39; 0xfb; 0x06; 0x43; 0x8e; 0xa1; 0x7c; 0xc5;
   0xae; 0x0d; 0xc7; 0xee; 0x83; 0xb3; 0x63; 0x20; 0x92; 0x34;
   0xe2; 0x94; 0x3d; 0xdd; 0xbb; 0x6c; 0x64; 0x69; 0x68; 0x25;
   0x24; 0x81; 0x4b; 0x4d; 0x48; 0x5a; 0xd2; 0x29; 0x14; 0xeb;
   0x38; 0xdd; 0x3e; 0xb5; 0x57; 0x45; 0x9b; 0xed; 0x33; 0x02;
   0x03; 0x01; 0x00; 0x01 ].

Definition sha1_test_plaintext : list Z := [
   0xf7; 0x42; 0x01; 0x57; 0x6b; 0x70; 0xcc; 0x4a; 0xdc; 0xed;
   0x12; 0x83; 0x3f; 0xef; 0x27; 0xc1; 0x3c; 0x85; 0xdd; 0x5e;
   0x0a; 0x34; 0x98; 0xf9; 0x21; 0xd3; 0x24; 0x2a; 0x5a; 0xb2;
   0xdf; 0x60; 0x21; 0x28; 0x7c; 0x5b; 0x7a; 0xbe; 0xcb; 0xea;
   0xbc; 0xd6; 0x0e; 0xae; 0x94; 0x64; 0x21; 0xda; 0x28; 0x66;
   0x2f; 0x71; 0x48; 0xe5; 0xea; 0x59; 0x38; 0x28; 0x3e; 0xed;
   0x3b; 0x95; 0x4f; 0x3d; 0x72; 0x2a; 0x00; 0xf3; 0x95; 0x4d;
   0xf0; 0x02; 0x71; 0x63; 0x5a; 0xbc; 0x84; 0xd1; 0x81; 0x3f;
   0x16; 0xcd; 0x28; 0x3d; 0x47; 0xa2; 0xee; 0xa1; 0x2f; 0x84;
   0x8a; 0x22; 0x02; 0x88; 0xd7; 0x83; 0x06; 0x4a; 0x9f; 0xea;
   0x0f; 0x15; 0x48; 0x43; 0x58; 0x6d; 0x39; 0x78; 0x5a; 0x43;
   0x3f; 0xed; 0x6f; 0x68; 0xde; 0x9c; 0xfe; 0xd3; 0x67; 0x74;
   0x08; 0x46; 0x7d; 0x20; 0x22; 0x60; 0x8c; 0x37; 0x35; 0x46;
   0x56; 0x19; 0x3c; 0xfa; 0xa5; 0x40; 0xac; 0x44; 0x90; 0x8a;
   0xa5; 0x80; 0xb2; 0x32; 0xbc; 0xb4; 0x3f; 0x3e; 0x5e; 0xd4;
   0x51; 0xa9; 0x2e; 0xd9; 0x7f; 0x5e; 0x32; 0xb1; 0x24; 0x35;
   0x88; 0x71; 0x3a; 0x01; 0x86; 0x5c; 0xa2; 0xe2; 0x2d; 0x02;
   0x30; 0x91; 0x1c; 0xaa; 0x6c; 0x24; 0x42; 0x1b; 0x1a; 0xba;
   0x30; 0x40; 0x49; 0x83; 0xd9; 0xd7; 0x66; 0x7e; 0x5c; 0x1a;
   0x4b; 0x7f; 0xa6; 0x8e; 0x8a; 0xd6; 0x0c; 0x65; 0x75 ].

Definition sha1_test_signature : list Z := [
   0xa5; 0x5a; 0x8a; 0x67; 0x81; 0x76; 0x7e; 0xad; 0x99; 0x22;
   0xf1; 0x47; 0x64; 0xd2; 0xfb; 0x81; 0x45; 0xeb; 0x85; 0x56;
   0xf8; 0x7d; 0xb8; 0xec; 0x41; 0x17; 0x84; 0xf7; 0x2b; 0xbb;
   0x2b; 0x8f; 0xb6; 0xb8; 0x8f; 0xc6; 0xab; 0x39; 0xbc; 0xa3;
   0x72; 0xb3; 0x63; 0x45; 0x5a; 0xe0; 0xac; 0xf8; 0x1c; 0x83;
   0x48; 0x84; 0x89; 0x8a; 0x6b; 0xdf; 0x93; 0xa0; 0xc3; 0x0b;
   0x0e; 0x3d; 0x80; 0x80 ].

Definition sha256_test_private : list Z := [
   0x30; 0x82; 0x01; 0x3a; 0x02; 0x01; 0x00; 0x02; 0x41; 0x00;
   0xa5; 0xe9; 0xdb; 0xa9; 0x1a; 0x6e; 0xd6; 0x4c; 0x25; 0x50;
   0xfe; 0x61; 0x77; 0x08; 0x7a; 0x80; 0x36; 0xcb; 0x88; 0x49;
   0x5c; 0xe8; 0xaa; 0x15; 0xf8; 0xb3; 0xd6; 0x78; 0x51; 0x46;
   0x86; 0x3a; 0x5f; 0xd5; 0x9f; 0xab; 0xfe; 0x74; 0x8c; 0x53;
   0x0d; 0xb5; 0x3c; 0x7d; 0x2c; 0x35; 0x88; 0x3f; 0xde; 0xa2;
   0xce; 0x46; 0x94; 0x30; 0xa9; 0x76; 0xee; 0x25; 0xc5; 0x5d;
   0xa6; 0xa6; 0x3a; 0xa5; 0x02; 0x03; 0x01; 0x00; 0x01; 0x02;
   0x40; 0x14; 0x4b; 0xbc; 0x4c; 0x3e; 0x68; 0x8a; 0x9c; 0x7c;
   0x00; 0x21; 0x6e; 0x28; 0xd2; 0x87; 0xb1; 0xc1; 0x82; 0x3a;
   0x64; 0xc7; 0x11; 0xcb; 0x24; 0xae; 0xec; 0xc8; 0xf2; 0xa4;
   0xf6; 0x9c; 0x9a; 0xbb; 0x05; 0x94; 0x80; 0x9b; 0xc1; 0x21;
   0x83; 0x36; 0x23; 0xba; 0x04; 0x20; 0x23; 0x06; 0x48; 0xa7;
   0xa4; 0xe6; 0x31; 0x8e; 0xa1; 0x73; 0xe5; 0x6b; 0x83; 0x4c;
   0x3a; 0xb8; 0xd8; 0x22; 0x61; 0x02; 0x21; 0x00; 0xd4; 0xdf;
   0xcb; 0x21; 0x4a; 0x9a; 0x35; 0x52; 0x02; 0x99; 0xcc; 0x40;
   0x83; 0x65; 0x30; 0x1f; 0x9d; 0x13; 0xd6; 0xd1; 0x79; 0x10;
   0xce; 0x5b; 0xeb; 0x25; 0xa2; 0x39; 0x4e; 0xdf; 0x1c; 0x29;
   0x02; 0x21; 0x00; 0xc7; 0x86; 0x8f; 0xd9; 0x88; 0xe9; 0x98;
   0x4b; 0x5c; 0x50; 0x06; 0x94; 0x05; 0x59; 0x31; 0x25; 0xa7;
   0xa8; 0xe6; 0x95; 0x2b; 0xe3; 0x74; 0x93; 0x51; 0xa8; 0x8e;
   0x3d; 0xe2; 0xe0; 0xfa; 0x1d; 0x02; 0x20; 0x6e; 0xe3; 0x81;
   0x31; 0xff; 0x65; 0xa3; 0x1e; 0xec; 0x61; 0xe7; 0x67; 0x37;
   0xcb; 0x0f; 0x2d; 0x78; 0xaa; 0xab; 0xfd; 0x84; 0x5e; 0x3f;
   0xd0; 0xdc; 0x06; 0x47; 0xa2; 0x28; 0xb6; 0xca; 0x39; 0x02;
   0x20; 0x13; 0x7d; 0x9f; 0x9b; 0xbe; 0x76; 0x23; 0x3c; 0x69;
   0x5e; 0x1f; 0xe6; 0x61; 0xc7; 0x5e; 0xb7; 0xb0; 0xf3; 0x1c;
   0xe3; 0x41; 0x90; 0x4c; 0x98; 0xff; 0x87; 0x19; 0xae; 0x0d;
   0xf5; 0xb0; 0x39; 0x02; 0x21; 0x00; 0xb7; 0xeb; 0xcd; 0x01;
   0x2e; 0x23; 0x42; 0x4f; 0x0c; 0x6f; 0xde; 0xc8; 0x4f; 0xa7;
   0x69; 0x09; 0x12; 0x34; 0xb6; 0x95; 0x4d; 0xb8; 0x7f; 0x16;
   0xd0; 0x48; 0x17; 0x4a; 0x9e; 0x6e; 0x5e; 0xe2 ].

Definition sha256_test_public : list Z := [
   0x30; 0x5c; 0x30; 0x0d; 0x06; 0x09; 0x2a; 0x86; 0x48; 0x86;
   0xf7; 0x0d; 0x01; 0x01; 0x01; 0x05; 0x00; 0x03; 0x4b; 0x00;
   0x30; 0x48; 0x02; 0x41; 0x00; 0xa5; 0xe9; 0xdb; 0xa9; 0x1a;
   0x6e; 0xd6; 0x4c; 0x25; 0x50; 0xfe; 0x61; 0x77; 0x08; 0x7a;
   0x80; 0x36; 0xcb; 0x88; 0x49; 0x5c; 0xe8; 0xaa; 0x15; 0xf8;
   0xb3; 0xd6; 0x78; 0x51; 0x46; 0x86; 0x3a; 0x5f; 0xd5; 0x9f;
   0xab; 0xfe; 0x74; 0x8c; 0x53; 0x0d; 0xb5; 0x3c; 0x7d; 0x2c;
   0x35; 0x88; 0x3f; 0xde; 0xa2; 0xce; 0x46; 0x94; 0x30; 0xa9;
   0x76; 0xee; 0x25; 0xc5; 0x5d; 0xa6; 0xa6; 0x3a; 0xa5; 0x02;
   0x03; 0x01; 0x00; 0x01 ].

Definition sha256_test_plaintext : list Z := [
   0x60; 0xe7; 0xba; 0x9d; 0x5a; 0xe3; 0x2d; 0xfa; 0x5f; 0x47;
   0xdb; 0x93; 0x24; 0x2c; 0xc4; 0xe2; 0x61; 0xf3; 0x89; 0x4d;
   0x67; 0xad; 0xc8; 0xae; 0xf8; 0xe2; 0xfb; 0x52; 0x0f; 0x8d;
   0x18; 0x7e; 0x30; 0xd8; 0x8d; 0x94; 0x07; 0x92; 0x70; 0x91;
   0xaf; 0x3b; 0x92; 0xa6; 0x0f; 0x7a; 0x9b; 0x46; 0x85; 0x8c;
   0x2a; 0x5a; 0x78; 0x5d; 0x1e; 0x13; 0xbf; 0xe6; 0x12; 0xbd;
   0xb1; 0xbb; 0x92; 0x6d; 0x11; 0xed; 0xe1; 0xe4; 0x6e; 0x88;
   0x4d; 0x0b; 0x51; 0xd6; 0xfd; 0x6a; 0xb2; 0x9b; 0xd3; 0xfd;
   0x56; 0xec; 0xd9; 0xd6; 0xb8; 0xc5; 0xfd; 0x0c; 0xf7; 0x55;
   0x5f; 0xc5; 0x6f; 0xbc; 0xbb; 0x78; 0x2f; 0x50; 0x08; 0x65;
   0x0f; 0x12; 0xca; 0x5a; 0xea; 0x52; 0xd0; 0x94; 0x76; 0x17;
   0xe4; 0xba; 0x97; 0xba; 0x11; 0xbf; 0x05; 0x7e; 0xa1; 0xfd;
   0x7d; 0xb5; 0xf1; 0x3a; 0x7e; 0x6f; 0xa1; 0xaa; 0x97; 0x66;
   0x5d; 0x72; 0x76; 0x45; 0x40; 0xb5; 0x22; 0x71; 0x43; 0xe8;
   0x77; 0x76; 0xc8; 0x1b; 0xd2; 0xd1; 0x33; 0x05; 0x64; 0xa9;
   0xc2; 0xa8; 0x40; 0x40; 0x21; 0xdd; 0xcf; 0x07; 0x7e; 0xf2;
   0x4b; 0x80; 0x3d; 0x0f; 0x67; 0xf6; 0xbd; 0xc2; 0xc7; 0xe3;
   0x91; 0x71; 0xd6; 0x2d; 0xa1; 0xae; 0x81; 0x0c; 0xed; 0x54;
   0x48; 0x79; 0x8a; 0x78; 0x05; 0x74; 0x4d; 0x4f; 0xf0; 0xe0;
   0x3c; 0x41; 0x5c; 0x04; 0x0b; 0x68; 0x57; 0xc5; 0xd6 ].

Definition sha256_test_signature : list Z := [
   0x02; 0x2e; 0xc5; 0x2a; 0x2b; 0x7f; 0xb4; 0x80; 0xca; 0x9d;
   0x96; 0x5b; 0xaf; 0x1f; 0x72; 0x5b; 0x6e; 0xf1; 0x69; 0x7f;
   0x4d; 0x41; 0xd5; 0x9f; 0x00; 0xdc; 0x47; 0xf4; 0x68; 0x8f;
   0xda; 0xfc; 0xd1; 0x23; 0x96; 0x11; 0x1d; 0xc0; 0x1b; 0x1d;
   0x36; 0x66; 0x2a; 0xf9; 0x21; 0x51; 0xcb; 0xb9; 0x7d; 0x24;
   0x7d; 0x38; 0x37; 0xc4; 0xea; 0xdd; 0x3a; 0x6f; 0xa8; 0x65;
   0x60; 0x73; 0x77; 0x3c ].

Definition md5_test : rsa_signature_test :=
  {| private := md5_test_private; public := md5_test_public;
     plaintext := md5_test_plaintext;
     algorithm := md5_with_rsa_encryption_algorithm;
     signature := md5_test_signature |}.

Definition sha1_test : rsa_signature_test :=
  {| private := sha1_test_private; public := sha1_test_public;
     plaintext := sha1_test_plaintext;
     algorithm := sha1_with_rsa_encryption_algorithm;
     signature := sha1_test_signature |}.

Definition sha256_test : rsa_signature_test :=
  {| private := sha256_test_private; public := sha256_test_public;
     plaintext := sha256_test_plaintext;
     algorithm := sha256_with_rsa_encryption_algorithm;
     signature := sha256_test_signature |}.

(** [rsa_test_exec], its three signature tests; the encryption and
    decryption tests that precede them draw random padding and are left
    out. *)
Definition rsa_test_exec : list (bool * bool * bool) :=
  [rsa_signature_ok md5_test; rsa_signature_ok sha1_test;
   rsa_signature_ok sha256_test].

(** ** Evaluating the RSA primitive on machine integers *)

(** Square-and-multiply on integers, one exponent bit. *)
Definition exp_step (b m : Z) (acc : Z) (bit : bool) : Z :=
  let acc := (acc * acc) mod m in
  if bit then (acc * b) mod m else acc.

Definition fast_exp_step (b m : bigZ) (acc : bigZ) (bit : bool) : bigZ :=
  let acc := ((acc * acc) mod m)%bigZ in
  if bit then ((acc * b) mod m)%bigZ else acc.

(** [RSA.cipher] computed on [bigZ]. *)
Definition fast_cipher (ctx : RSA.context) (input : list Z) : list Z :=
  let size := length (RSA.modulus ctx) in
  let b := BigZ.of_Z (bigint_value (Bigint.init size input)) in
  let m := BigZ.of_Z (bigint_value (RSA.modulus ctx)) in
  Bytes.be_bytes (RSA.max_len ctx)
    (BigZ.to_Z (foldl (fast_exp_step b m) 1%bigZ
                      (Bigint.bits_msb_first (RSA.exponent ctx)))).

(** A context whose modulus is a non-zero array of 64-bit words. *)
Definition context_ok (ctx : RSA.context) : Prop :=
  Forall word64 (RSA.modulus ctx) /\ 0 < bigint_value (RSA.modulus ctx).

(** What the three reports of [rsa_signature_ok] assert about a test. *)
Definition signature_test_passes (test : rsa_signature_test) : Prop :=
  let d := digest (algorithm test) in
  let value := digest_of d (plaintext test) in
  exists private_ctx public_ctx,
    RSA.init (private test) = Some private_ctx /\
    RSA.init (public test) = Some public_ctx /\
    RSA.sign private_ctx d value = Some (signature test) /\
    RSA.verify public_ctx d value (signature test) = true /\
    RSA.verify public_ctx d value (replicate (length (signature test)) 0)
    = false.

(** ** The loop nest on its own, and the loads of the operands *)

(** Lines 71-123 of [bigint_multiply_raw]: the two nested loops, stopped
    after [rows] iterations of the outer one.  The whole loop nest is
    [multiply_rows] with [rows] the multiplicand size. *)
Definition multiply_rows (fuel : nat)
    (multiplicand0 multiplier0 multiplier_size result0 : Z) (rows : nat)
    : M unit :=
  for_loop rows 0 (fun i =>
    let* multiplicand_element := ld_d (multiplicand0 + 8 * i) 0 in
    for_loop (Z.to_nat multiplier_size) 0 (fun j =>
      let* multiplier_element := ld_d (multiplier0 + 8 * j) 0 in
      let result_elements := result0 + 8 * uint (i + j) in
      mul_add_asm fuel result_elements
                  multiplicand_element multiplier_element)).

(** The addresses outside the [n]-element buffer at [pr] that a trace
    loads from, oldest first. *)
Definition operand_loads (pr : Z) (n : nat) (tr : list event) : list Z :=
  rev (omap (fun e =>
               match e with
               | EvLoad p => if decide (in_buffer pr n p) then None else Some p
               | EvStore _ => None
               end) tr).

(** The order in which the loop nest visits the operands: element [i] of
    the multiplicand, then every element of the multiplier. *)
Definition operand_load_order (pa : Z) (rows : nat) (pb : Z) (cols : nat)
    : list Z :=
  flat_map (fun i => (pa + 8 * Z.of_nat i)
                     :: map (fun j => pb + 8 * Z.of_nat j) (seq 0 cols))
           (seq 0 rows).

(** The accesses of [k] iterations of the carry loop from address [p],
    most recent first. *)
Definition carry_accesses (p : Z) (k : nat) : list event :=
  flat_map (fun i => [EvStore (p + 8 * Z.of_nat i); EvLoad (p + 8 * Z.of_nat i)])
           (rev (seq 0 k)).

(** * Proofs *)

(** ** Word arithmetic *)

Lemma BASE_pos : 0 < BASE.
Proof. reflexivity. Qed.

Lemma word64_mod z : word64 (z mod BASE).
Proof. unfold word64. apply Z.mod_pos_bound, BASE_pos. Qed.

Lemma carry_bit x y : word64 x -> word64 y -> 0 <= (x + y) / BASE <= 1.
Proof.
  unfold word64. intros Hx Hy. pose proof BASE_pos. split.
  - apply Z.div_pos; lia.
  - assert ((x + y) / BASE < 2); [|lia].
    apply Z.div_lt_upper_bound; lia.
Qed.

(** The comparison of a wrapped sum with an addend is the carry. *)
Lemma sltu_add_d x y :
  word64 x -> word64 y -> sltu (add_d x y) y = (x + y) / BASE.
Proof.
  unfold word64, sltu, add_d. intros Hx Hy. pose proof BASE_pos.
  destruct (Z_lt_ge_dec (x + y) BASE) as [Hlt|Hge].
  - rewrite Z.mod_small, Z.div_small by lia.
    destruct (Z.ltb_spec (x + y) y); lia.
  - replace (x + y) with ((x + y - BASE) + 1 * BASE) by lia.
    rewrite Z.mod_add, Z.div_add by lia.
    rewrite Z.mod_small, Z.div_small by lia.
    destruct (Z.ltb_spec (x + y - BASE) y); lia.
Qed.

Lemma or_bits c1 c2 :
  0 <= c1 <= 1 -> 0 <= c2 <= 1 -> c1 + c2 <= 1 -> or_ c1 c2 = c1 + c2.
Proof.
  intros H1 H2 H. unfold or_.
  assert (Hc1 : c1 = 0 \/ c1 = 1) by lia.
  assert (Hc2 : c2 = 0 \/ c2 = 1) by lia.
  destruct Hc1 as [-> | ->], Hc2 as [-> | ->]; try reflexivity; lia.
Qed.

Lemma add_pair_spec lo hi tl th :
  word64 lo -> word64 hi -> word64 tl -> word64 th ->
  add_pair lo hi tl th =
    ((tl + lo) mod BASE,
     (th + hi + (tl + lo) / BASE) mod BASE,
     (th + hi + (tl + lo) / BASE) / BASE).
Proof.
  intros Hlo Hhi Htl Hth. unfold add_pair.
  pose proof BASE_pos as HB.
  pose proof (carry_bit tl lo Htl Hlo) as Hc0.
  pose proof (carry_bit th hi Hth Hhi) as Hc1.
  rewrite (sltu_add_d tl lo) by assumption.
  rewrite (sltu_add_d th hi) by assumption.
  set (c0 := (tl + lo) / BASE) in *.
  assert (Hw0 : word64 c0) by (unfold word64, BASE in *; lia).
  rewrite (sltu_add_d (add_d th hi) c0) by (try apply word64_mod; assumption).
  assert (Hth' : add_d (add_d th hi) c0 = (th + hi + c0) mod BASE).
  { unfold add_d. rewrite Zplus_mod_idemp_l. reflexivity. }
  assert (Hsplit : (th + hi + c0) / BASE
                   = (add_d th hi + c0) / BASE + (th + hi) / BASE).
  { unfold add_d.
    rewrite (Z.div_mod (th + hi) BASE) at 1 by lia.
    replace (BASE * ((th + hi) / BASE) + (th + hi) mod BASE + c0)
      with (((th + hi) mod BASE + c0) + ((th + hi) / BASE) * BASE) by lia.
    rewrite Z.div_add by lia. reflexivity. }
  assert (Hc2 : 0 <= (add_d th hi + c0) / BASE <= 1)
    by (apply carry_bit; [apply word64_mod | assumption]).
  assert (Htot : (th + hi + c0) / BASE < 2).
  { apply Z.div_lt_upper_bound; [lia|]. unfold word64 in *. lia. }
  rewrite Hth', or_bits by lia. rewrite Hsplit. reflexivity.
Qed.

(** ** Values of word lists *)

Lemma BASE_pow_pos n : 0 < BASE ^ Z.of_nat n.
Proof. apply Z.pow_pos_nonneg; [apply BASE_pos | lia]. Qed.

Lemma BASE_pow_S n : BASE ^ Z.of_nat (S n) = BASE * BASE ^ Z.of_nat n.
Proof. rewrite Nat2Z.inj_succ, Z.pow_succ_r by lia. reflexivity. Qed.

Lemma BASE_pow_add n k :
  BASE ^ Z.of_nat (n + k) = BASE ^ Z.of_nat n * BASE ^ Z.of_nat k.
Proof. rewrite Nat2Z.inj_add, Z.pow_add_r by lia. reflexivity. Qed.

Lemma bigint_value_app l1 l2 :
  bigint_value (l1 ++ l2)
  = bigint_value l1 + BASE ^ Z.of_nat (length l1) * bigint_value l2.
Proof.
  induction l1 as [|w l1 IH]; cbn [app bigint_value length].
  - change (BASE ^ Z.of_nat 0) with 1. lia.
  - rewrite IH, BASE_pow_S. ring.
Qed.

Lemma bigint_value_bound l :
  Forall word64 l -> 0 <= bigint_value l < BASE ^ Z.of_nat (length l).
Proof.
  induction 1 as [|w l Hw _ IH]; cbn [bigint_value length].
  - change (BASE ^ Z.of_nat 0) with 1. lia.
  - rewrite BASE_pow_S. unfold word64 in Hw. pose proof BASE_pos. nia.
Qed.

Lemma bigint_value_replicate n : bigint_value (replicate n 0) = 0.
Proof. induction n as [|n IH]; cbn [replicate bigint_value]; lia. Qed.

Lemma bigint_value_inj l1 l2 :
  Forall word64 l1 -> Forall word64 l2 -> length l1 = length l2 ->
  bigint_value l1 = bigint_value l2 -> l1 = l2.
Proof.
  intros H1. revert l2.
  induction H1 as [|w1 l1 Hw1 _ IH]; intros l2 H2 Hlen Hval;
    destruct H2 as [|w2 l2 Hw2 H2]; try discriminate; [reflexivity|].
  cbn [bigint_value length] in *. unfold word64 in *. pose proof BASE_pos.
  assert (bigint_value l1 = bigint_value l2) as Htl by nia.
  assert (w1 = w2) by nia. subst w2.
  f_equal. apply IH; [assumption | lia | assumption].
Qed.

Lemma Forall_word64_replicate n : Forall word64 (replicate n 0).
Proof. apply Forall_replicate. unfold word64. pose proof BASE_pos. lia. Qed.

(** ** The reference algorithm computes the product *)

Import Reference.

Lemma propagate_0 ws : propagate 0 ws = ws.
Proof. destruct ws; reflexivity. Qed.

Lemma propagate_length c ws : length (propagate c ws) = length ws.
Proof.
  revert c. induction ws as [|w ws IH]; intros c; cbn [propagate]; [reflexivity|].
  destruct (c =? 0); cbn [length]; [reflexivity | now rewrite IH].
Qed.

Lemma propagate_words c ws :
  Forall word64 ws -> Forall word64 (propagate c ws).
Proof.
  intros H. revert c. induction H as [|w ws Hw H IH]; intros c;
    cbn [propagate]; [constructor|].
  destruct (c =? 0); constructor; auto using word64_mod.
Qed.

Lemma propagate_value c ws :
  Forall word64 ws -> 0 <= c ->
  bigint_value ws + c < BASE ^ Z.of_nat (length ws) ->
  bigint_value (propagate c ws) = bigint_value ws + c.
Proof.
  intros H. revert c. induction H as [|w ws Hw H IH]; intros c Hc Hlt.
  - cbn in *. lia.
  - cbn [propagate]. destruct (Z.eqb_spec c 0) as [-> | Hne]; [lia|].
    cbn [bigint_value length] in *. rewrite BASE_pow_S in Hlt.
    pose proof BASE_pos as HB. unfold word64 in Hw.
    pose proof (Z.div_mod (w + c) BASE ltac:(lia)) as Hdm.
    pose proof (Z.mod_pos_bound (w + c) BASE HB) as Hm.
    assert (Hq : 0 <= (w + c) / BASE) by (apply Z.div_pos; lia).
    pose proof (bigint_value_bound ws H) as Hb.
    rewrite IH; [lia | assumption | nia].
Qed.

Lemma add_product_shape l1 w0 w1 l2 x y :
  let s0 := w0 + (x * y) mod BASE in
  let s1 := w1 + (x * y) / BASE + s0 / BASE in
  add_product (l1 ++ w0 :: w1 :: l2) (length l1) x y
  = l1 ++ s0 mod BASE :: s1 mod BASE :: propagate (s1 / BASE) l2.
Proof.
  intros s0 s1. unfold add_product.
  assert (H0 : nth (length l1) (l1 ++ w0 :: w1 :: l2) 0 = w0)
    by apply nth_middle.
  assert (H1 : nth (S (length l1)) (l1 ++ w0 :: w1 :: l2) 0 = w1).
  { rewrite app_nth2 by lia.
    replace (S (length l1) - length l1)%nat with 1%nat by lia. reflexivity. }
  rewrite H0, H1. fold s0. fold s1.
  rewrite (insert_app_r_alt l1) by lia. rewrite Nat.sub_diag.
  cbn [insert list_insert].
  rewrite (insert_app_r_alt l1) by lia.
  replace (S (length l1) - length l1)%nat with 1%nat by lia.
  cbn [insert list_insert].
  replace (S (S (length l1))) with (length l1 + 2)%nat by lia.
  rewrite take_app_add', drop_app_add' by reflexivity.
  cbn [take drop]. rewrite <- app_assoc. reflexivity.
Qed.

Lemma split_at2 (r : list Z) k :
  (S k < length r)%nat ->
  exists l1 w0 w1 l2, r = l1 ++ w0 :: w1 :: l2 /\ length l1 = k.
Proof.
  intros Hk. exists (take k r).
  destruct (drop k r) as [|w0 [|w1 l2]] eqn:Hd.
  - apply (f_equal length) in Hd. rewrite length_drop in Hd. cbn in Hd. lia.
  - apply (f_equal length) in Hd. rewrite length_drop in Hd. cbn in Hd. lia.
  - exists w0, w1, l2. split.
    + rewrite <- Hd. symmetry. apply take_drop.
    + rewrite length_take. lia.
Qed.

Lemma add_product_length r k x y : length (add_product r k x y) = length r.
Proof.
  unfold add_product.
  rewrite length_app, propagate_length, length_take, length_drop.
  rewrite !length_insert. lia.
Qed.

Lemma add_product_words r k x y :
  Forall word64 r -> Forall word64 (add_product r k x y).
Proof.
  intros H. unfold add_product. apply Forall_app. split.
  - apply Forall_take. do 2 (apply Forall_insert; [|apply word64_mod]).
    assumption.
  - apply propagate_words, Forall_drop.
    do 2 (apply Forall_insert; [|apply word64_mod]). assumption.
Qed.

(** One accumulation step adds the partial product at its weight, as long
    as the sum still fits the result. *)
Lemma add_product_value r k x y :
  Forall word64 r -> word64 x -> word64 y -> (S k < length r)%nat ->
  bigint_value r + x * y * BASE ^ Z.of_nat k < BASE ^ Z.of_nat (length r) ->
  bigint_value (add_product r k x y)
  = bigint_value r + x * y * BASE ^ Z.of_nat k.
Proof.
  intros Hr Hx Hy Hk Hlt.
  destruct (split_at2 r k Hk) as (l1 & w0 & w1 & l2 & -> & <-).
  rewrite add_product_shape. cbv zeta.
  apply Forall_app in Hr as [Hl1 Hr].
  apply Forall_cons in Hr as [Hw0 Hr]. apply Forall_cons in Hr as [Hw1 Hl2].
  rewrite length_app in Hlt. cbn [length] in Hlt.
  rewrite BASE_pow_add, !BASE_pow_S in Hlt.
  rewrite !bigint_value_app in *. cbn [bigint_value] in *.
  pose proof BASE_pos as HB.
  pose proof (BASE_pow_pos (length l1)) as HBk.
  pose proof (BASE_pow_pos (length l2)) as HB2.
  pose proof (bigint_value_bound l1 Hl1) as Hb1.
  pose proof (bigint_value_bound l2 Hl2) as Hb2.
  set (P := x * y) in *.
  set (s0 := w0 + P mod BASE) in *.
  set (s1 := w1 + P / BASE + s0 / BASE) in *.
  pose proof (Z.div_mod P BASE ltac:(lia)) as HP.
  pose proof (Z.div_mod s0 BASE ltac:(lia)) as Hs0.
  pose proof (Z.div_mod s1 BASE ltac:(lia)) as Hs1.
  pose proof (Z.mod_pos_bound s0 BASE HB) as Hm0.
  pose proof (Z.mod_pos_bound s1 BASE HB) as Hm1.
  pose proof (Z.mod_pos_bound P BASE HB) as HmP.
  assert (HP0 : 0 <= P) by (unfold word64 in *; subst P; nia).
  assert (HqP : 0 <= P / BASE) by (apply Z.div_pos; lia).
  assert (Hq0 : 0 <= s0 / BASE)
    by (apply Z.div_pos; unfold word64 in *; subst s0; lia).
  assert (Hq1 : 0 <= s1 / BASE)
    by (apply Z.div_pos; unfold word64 in *; subst s1; lia).
  set (V1 := bigint_value l1) in *. set (V2 := bigint_value l2) in *.
  set (Bk := BASE ^ Z.of_nat (length l1)) in *.
  set (B2 := BASE ^ Z.of_nat (length l2)) in *.
  assert (Hsum : w0 + BASE * w1 + P
                 = s0 mod BASE + BASE * (s1 mod BASE)
                   + BASE * BASE * (s1 / BASE)).
  { subst s1 s0. lia. }
  assert (Hfit : V2 + s1 / BASE < B2).
  { assert (Bk * (w0 + BASE * (w1 + BASE * V2) + P)
            < Bk * (BASE * (BASE * B2))) as H by lia.
    apply Z.mul_lt_mono_pos_l in H; [|lia].
    assert (BASE * BASE * (V2 + s1 / BASE) < BASE * BASE * B2) as H' by lia.
    apply Z.mul_lt_mono_pos_l in H'; lia. }
  rewrite propagate_value by (try assumption; lia).
  fold V2.
  transitivity (V1 + Bk * (s0 mod BASE + BASE * (s1 mod BASE)
                           + BASE * BASE * (s1 / BASE) + BASE * BASE * V2)).
  - ring.
  - rewrite <- Hsum. ring.
Qed.

Lemma bigint_value_take_S a i :
  (i < length a)%nat ->
  bigint_value (take (S i) a)
  = bigint_value (take i a) + nth i a 0 * BASE ^ Z.of_nat i.
Proof.
  intros Hi. destruct (lookup_lt_is_Some_2 a i Hi) as [w Hw].
  rewrite (take_S_r a i w Hw), bigint_value_app, length_take.
  rewrite Nat.min_l by lia. cbn [bigint_value].
  rewrite (nth_lookup_Some a i 0 w Hw). ring.
Qed.

Lemma bigint_value_take_le a i :
  Forall word64 a -> 0 <= bigint_value (take i a) <= bigint_value a.
Proof.
  intros Ha. rewrite <- (take_drop i a) at 3. rewrite bigint_value_app.
  pose proof (bigint_value_bound (take i a) ltac:(apply Forall_take, Ha)).
  pose proof (bigint_value_bound (drop i a) ltac:(apply Forall_drop, Ha)).
  pose proof (BASE_pow_pos (length (take i a))). nia.
Qed.

Lemma word64_nth a i : Forall word64 a -> word64 (nth i a 0).
Proof.
  intros Ha. destruct (nth_in_or_default i a 0) as [Hin | ->].
  - rewrite Forall_forall in Ha. apply Ha. apply list_elem_of_In. exact Hin.
  - unfold word64. pose proof BASE_pos. lia.
Qed.

Lemma row_upto_S b x i j r :
  row_upto b x i (S j) r
  = add_product (row_upto b x i j r) (i + j) x (nth j b 0).
Proof. unfold row_upto. rewrite seq_S, foldl_app. reflexivity. Qed.

Lemma rows_upto_S a b i :
  rows_upto a b (S i) = row b (nth i a 0) i (rows_upto a b i).
Proof. unfold rows_upto. rewrite seq_S, foldl_app. reflexivity. Qed.

Lemma row_upto_spec b x i j r :
  Forall word64 r -> Forall word64 b -> word64 x ->
  (j <= length b)%nat -> (i + length b < length r)%nat ->
  bigint_value r + x * bigint_value b * BASE ^ Z.of_nat i
    < BASE ^ Z.of_nat (length r) ->
  Forall word64 (row_upto b x i j r) /\
  length (row_upto b x i j r) = length r /\
  bigint_value (row_upto b x i j r)
  = bigint_value r + x * bigint_value (take j b) * BASE ^ Z.of_nat i.
Proof.
  intros Hr Hb Hx Hj Hlen Hlt. induction j as [|j IH].
  - unfold row_upto. rewrite take_0. cbn [seq foldl bigint_value].
    split; [assumption | split; [reflexivity | ring]].
  - destruct IH as (IHw & IHl & IHv); [lia|].
    rewrite row_upto_S.
    pose proof (bigint_value_take_S b j ltac:(lia)) as HS.
    pose proof (bigint_value_take_le b (S j) Hb) as Hle.
    pose proof (BASE_pow_pos i) as HBi.
    assert (Hx0 : 0 <= x) by (unfold word64 in Hx; lia).
    repeat split.
    + apply add_product_words, IHw.
    + rewrite add_product_length. exact IHl.
    + rewrite add_product_value; try assumption.
      * rewrite IHv, HS, BASE_pow_add. ring.
      * apply word64_nth, Hb.
      * lia.
      * rewrite IHv, IHl, BASE_pow_add.
        apply Z.le_lt_trans with
          (bigint_value r + x * bigint_value (take (S j) b) * BASE ^ Z.of_nat i).
        { rewrite HS. lia. }
        apply Z.le_lt_trans with
          (bigint_value r + x * bigint_value b * BASE ^ Z.of_nat i);
          [|assumption].
        apply Z.add_le_mono_l, Z.mul_le_mono_nonneg_r; [lia|].
        apply Z.mul_le_mono_nonneg_l; lia.
Qed.

Lemma product_fits a b :
  Forall word64 a -> Forall word64 b ->
  0 <= bigint_value a * bigint_value b
     < BASE ^ Z.of_nat (length a + length b).
Proof.
  intros Ha Hb. rewrite BASE_pow_add.
  pose proof (bigint_value_bound a Ha). pose proof (bigint_value_bound b Hb).
  nia.
Qed.

Lemma rows_upto_spec a b i :
  Forall word64 a -> Forall word64 b -> (i <= length a)%nat ->
  Forall word64 (rows_upto a b i) /\
  length (rows_upto a b i) = (length a + length b)%nat /\
  bigint_value (rows_upto a b i)
  = bigint_value (take i a) * bigint_value b.
Proof.
  intros Ha Hb. induction i as [|i IH]; intros Hi.
  - unfold rows_upto. rewrite take_0. cbn [seq foldl bigint_value].
    split; [apply Forall_word64_replicate|].
    split; [apply length_replicate|].
    rewrite bigint_value_replicate. ring.
  - destruct IH as (IHw & IHl & IHv); [lia|].
    rewrite rows_upto_S. unfold row.
    pose proof (bigint_value_take_S a i ltac:(lia)) as HS.
    pose proof (bigint_value_take_le a (S i) Ha) as Hle.
    pose proof (bigint_value_bound b Hb) as Hbb.
    pose proof (product_fits a b Ha Hb) as Hfit.
    destruct (row_upto_spec b (nth i a 0) i (length b) (rows_upto a b i))
      as (Hw & Hl & Hv); try assumption.
    + apply word64_nth, Ha.
    + lia.
    + lia.
    + rewrite IHv, IHl.
      apply Z.le_lt_trans with (bigint_value a * bigint_value b); [|lia].
      replace (bigint_value (take i a) * bigint_value b
               + nth i a 0 * bigint_value b * BASE ^ Z.of_nat i)
        with (bigint_value (take (S i) a) * bigint_value b)
        by (rewrite HS; ring).
      apply Z.mul_le_mono_nonneg_r; lia.
    + split; [assumption|]. split; [lia|].
      rewrite Hv, IHv, HS, firstn_all. ring.
Qed.

(** The state of the reference algorithm before pair [(i, j)] leaves room
    for that pair's partial product. *)
Lemma pair_fits a b i j :
  Forall word64 a -> Forall word64 b ->
  (i < length a)%nat -> (j < length b)%nat ->
  let r := row_upto b (nth i a 0) i j (rows_upto a b i) in
  Forall word64 r /\ length r = (length a + length b)%nat /\
  bigint_value r + nth i a 0 * nth j b 0 * BASE ^ Z.of_nat (i + j)
    < BASE ^ Z.of_nat (length r).
Proof.
  intros Ha Hb Hi Hj r.
  destruct (rows_upto_spec a b i Ha Hb ltac:(lia)) as (Hw & Hl & Hv).
  destruct (rows_upto_spec a b (S i) Ha Hb ltac:(lia)) as (_ & _ & HvS).
  pose proof (product_fits a b Ha Hb) as Hfit.
  pose proof (bigint_value_take_S a i Hi) as HSa.
  pose proof (bigint_value_take_S b j Hj) as HSb.
  pose proof (bigint_value_take_le a (S i) Ha) as Hlea.
  pose proof (bigint_value_take_le b (S j) Hb) as Hleb.
  pose proof (bigint_value_bound b Hb) as Hbb.
  pose proof (word64_nth a i Ha) as Hx. unfold word64 in Hx.
  pose proof (BASE_pow_pos i) as HBi.
  assert (Hrow : bigint_value (rows_upto a b i)
                 + nth i a 0 * bigint_value b * BASE ^ Z.of_nat i
                 <= bigint_value a * bigint_value b).
  { rewrite Hv.
    replace (bigint_value (take i a) * bigint_value b
             + nth i a 0 * bigint_value b * BASE ^ Z.of_nat i)
      with (bigint_value (take (S i) a) * bigint_value b)
      by (rewrite HSa; ring).
    apply Z.mul_le_mono_nonneg_r; lia. }
  destruct (row_upto_spec b (nth i a 0) i j (rows_upto a b i))
    as (Hrw & Hrl & Hrv);
    [assumption | assumption | apply word64_nth, Ha | lia | lia
    | rewrite Hl; lia | ].
  subst r. split; [assumption|]. split; [lia|].
  rewrite Hrv, Hrl, Hl, BASE_pow_add.
  apply Z.le_lt_trans with
    (bigint_value (rows_upto a b i)
     + nth i a 0 * bigint_value b * BASE ^ Z.of_nat i); [|lia].
  replace (bigint_value (rows_upto a b i)
           + nth i a 0 * bigint_value (take j b) * BASE ^ Z.of_nat i
           + nth i a 0 * nth j b 0
             * (BASE ^ Z.of_nat i * BASE ^ Z.of_nat j))
    with (bigint_value (rows_upto a b i)
          + nth i a 0 * bigint_value (take (S j) b) * BASE ^ Z.of_nat i)
    by (rewrite HSb; ring).
  apply Z.add_le_mono_l, Z.mul_le_mono_nonneg_r; [lia|].
  apply Z.mul_le_mono_nonneg_l; lia.
Qed.

Lemma multiply_spec a b :
  Forall word64 a -> Forall word64 b ->
  Forall word64 (multiply a b) /\
  length (multiply a b) = (length a + length b)%nat /\
  bigint_value (multiply a b) = bigint_value a * bigint_value b.
Proof.
  intros Ha Hb. unfold multiply.
  destruct (rows_upto_spec a b (length a) Ha Hb ltac:(lia)) as (Hw & Hl & Hv).
  rewrite firstn_all in Hv. auto.
Qed.

(** ** Buffers in the heap *)

Lemma read_array_spec m base n ws :
  read_array m base n = Some ws <-> length ws = n /\ array_at m base ws.
Proof.
  unfold read_array, array_at. rewrite mapM_Some, Forall2_same_length_lookup.
  rewrite length_seq. split.
  - intros [Hlen H]. split; [lia|]. intros k w Hk.
    apply (H k k w); [|assumption].
    apply lookup_seq. split; [lia|].
    apply lookup_lt_Some in Hk. lia.
  - intros [Hlen H]. split; [lia|]. intros i k w Hi Hw.
    apply lookup_seq in Hi as [-> _]. apply H, Hw.
Qed.

Lemma ea_small p off : 0 <= p + off < BASE -> ea p off = p + off.
Proof. intros H. unfold ea. apply Z.mod_small, H. Qed.

Lemma in_buffer_element base (n k : nat) :
  (k < n)%nat -> in_buffer base n (base + 8 * Z.of_nat k).
Proof.
  intros Hk. unfold in_buffer. split; [lia|].
  replace (base + 8 * Z.of_nat k - base) with (Z.of_nat k * 8) by lia.
  apply Z.mod_mul. lia.
Qed.

Lemma in_buffer_inv base n addr :
  in_buffer base n addr ->
  exists k : nat, (k < n)%nat /\ addr = base + 8 * Z.of_nat k.
Proof.
  intros [Hr Hm]. apply Z.mod_divide in Hm as [q Hq]; [|lia].
  exists (Z.to_nat q). split; lia.
Qed.

Lemma disjoint_not_in_buffer pr n p (l k : nat) :
  disjoint pr n p l -> (k < l)%nat -> ~ in_buffer pr n (p + 8 * Z.of_nat k).
Proof. unfold disjoint, in_buffer. intros H Hk [Hr _]. lia. Qed.

Lemma tracks_refl pr n rd s rs :
  length rs = n -> array_at (mem s) pr rs -> tracks pr n rd s rs s.
Proof.
  intros Hl Ha. split; [assumption | assumption | reflexivity |].
  exists []. split; [reflexivity | constructor].
Qed.

Lemma tracks_trans pr n rd s0 s1 s2 rs1 rs2 :
  tracks pr n rd s0 rs1 s1 -> tracks pr n rd s1 rs2 s2 ->
  tracks pr n rd s0 rs2 s2.
Proof.
  intros [_ _ F1 (e1 & T1 & S1)] [L2 A2 F2 (e2 & T2 & S2)].
  split; [assumption | assumption | |].
  - intros addr H. rewrite F2, F1 by assumption. reflexivity.
  - exists (e2 ++ e1). split.
    + rewrite T2, T1, app_assoc. reflexivity.
    + apply Forall_app. split; assumption.
Qed.

Section Simulation.

Variables (pr : Z) (n : nat) (rd : Z -> Prop) (s0 : state).
Hypothesis Haddr : addressable pr n.

Lemma ld_tracks rs s p off (k : nat) w :
  tracks pr n rd s0 rs s -> rs !! k = Some w ->
  p + off = pr + 8 * Z.of_nat k ->
  exists s', ld_d p off s = Done w s' /\ tracks pr n rd s0 rs s'.
Proof.
  intros [L A F (evs & T & St)] Hk Hp.
  pose proof (lookup_lt_Some _ _ _ Hk) as Hlt.
  destruct Haddr as [Hlo Hhi].
  assert (Hea : ea p off = pr + 8 * Z.of_nat k)
    by (rewrite ea_small; lia).
  unfold ld_d. rewrite Hea, (A k w Hk).
  eexists. split; [reflexivity|].
  split; cbn [mem trace]; [assumption | assumption | assumption |].
  exists (EvLoad (pr + 8 * Z.of_nat k) :: evs). split.
  - rewrite T. reflexivity.
  - constructor; [|assumption]. left. apply in_buffer_element. lia.
Qed.

Lemma st_tracks rs s v p off (k : nat) :
  tracks pr n rd s0 rs s -> (k < n)%nat ->
  p + off = pr + 8 * Z.of_nat k ->
  exists s', st_d v p off s = Done tt s' /\
             tracks pr n rd s0 (<[k := v]> rs) s'.
Proof.
  intros [L A F (evs & T & St)] Hk Hp.
  destruct Haddr as [Hlo Hhi].
  assert (Hea : ea p off = pr + 8 * Z.of_nat k)
    by (rewrite ea_small; lia).
  destruct (lookup_lt_is_Some_2 rs k ltac:(lia)) as [w Hw].
  unfold st_d. rewrite Hea, (A k w Hw).
  eexists. split; [reflexivity|].
  split; cbn [mem trace].
  - rewrite length_insert. assumption.
  - intros k' w' Hk'.
    destruct (decide (k = k')) as [<- | Hne].
    + rewrite list_lookup_insert_eq in Hk' by lia.
      rewrite lookup_insert_eq. assumption.
    + rewrite list_lookup_insert_ne in Hk' by assumption.
      rewrite lookup_insert_ne by lia. apply A, Hk'.
  - intros addr Hout. rewrite lookup_insert_ne; [apply F, Hout|].
    intros <-. apply Hout, in_buffer_element, Hk.
  - exists (EvStore (pr + 8 * Z.of_nat k) :: evs). split.
    + rewrite T. reflexivity.
    + constructor; [|assumption]. apply in_buffer_element, Hk.
Qed.

Lemma ld_outside rs s p off w :
  tracks pr n rd s0 rs s -> 0 <= p + off < BASE ->
  ~ in_buffer pr n (p + off) -> rd (p + off) ->
  mem s0 !! (p + off) = Some w ->
  exists s', ld_d p off s = Done w s' /\ tracks pr n rd s0 rs s'.
Proof.
  intros [L A F (evs & T & St)] Hr Hout Hrd Hw.
  unfold ld_d. rewrite (ea_small p off Hr), (F _ Hout), Hw.
  eexists. split; [reflexivity|].
  split; cbn [mem trace]; [assumption | assumption | assumption |].
  exists (EvLoad (p + off) :: evs). split.
  - rewrite T. reflexivity.
  - constructor; [|assumption]. right. assumption.
Qed.

End Simulation.

(** ** The assembly block follows the reference step *)

(** Room for the partial product means room for the carry that is left
    once the two-word addition is done. *)
Lemma carry_fits l1 w0 w1 l2 x y :
  Forall word64 (l1 ++ w0 :: w1 :: l2) -> word64 x -> word64 y ->
  bigint_value (l1 ++ w0 :: w1 :: l2) + x * y * BASE ^ Z.of_nat (length l1)
    < BASE ^ Z.of_nat (length (l1 ++ w0 :: w1 :: l2)) ->
  let s0 := w0 + (x * y) mod BASE in
  let s1 := w1 + (x * y) / BASE + s0 / BASE in
  0 <= s1 / BASE <= 1 /\
  bigint_value l2 + s1 / BASE < BASE ^ Z.of_nat (length l2).
Proof.
  intros Hr Hx Hy Hlt s0 s1.
  apply Forall_app in Hr as [Hl1 Hr].
  apply Forall_cons in Hr as [Hw0 Hr]. apply Forall_cons in Hr as [Hw1 Hl2].
  rewrite length_app in Hlt. cbn [length] in Hlt.
  rewrite BASE_pow_add, !BASE_pow_S in Hlt.
  rewrite !bigint_value_app in *. cbn [bigint_value] in *.
  pose proof BASE_pos as HB.
  pose proof (BASE_pow_pos (length l1)) as HBk.
  pose proof (bigint_value_bound l1 Hl1) as Hb1.
  pose proof (bigint_value_bound l2 Hl2) as Hb2.
  set (P := x * y) in *.
  pose proof (Z.div_mod P BASE ltac:(lia)) as HP.
  pose proof (Z.div_mod s0 BASE ltac:(lia)) as Hs0.
  pose proof (Z.div_mod s1 BASE ltac:(lia)) as Hs1.
  pose proof (Z.mod_pos_bound s0 BASE HB) as Hm0.
  pose proof (Z.mod_pos_bound s1 BASE HB) as Hm1.
  pose proof (Z.mod_pos_bound P BASE HB) as HmP.
  assert (HP0 : 0 <= P < BASE * BASE) by (unfold word64 in *; subst P; nia).
  assert (HqP : 0 <= P / BASE < BASE).
  { split; [apply Z.div_pos; lia | apply Z.div_lt_upper_bound; lia]. }
  assert (Hc0 : 0 <= s0 / BASE <= 1).
  { apply (carry_bit w0 (P mod BASE)); [assumption | exact HmP]. }
  assert (Hc1 : 0 <= s1 / BASE <= 1).
  { split; [apply Z.div_pos; unfold word64 in *; subst s1; lia|].
    assert (s1 / BASE < 2); [|lia].
    apply Z.div_lt_upper_bound; [lia|].
    unfold word64 in *. subst s1. lia. }
  split; [exact Hc1|].
  set (V1 := bigint_value l1) in *. set (V2 := bigint_value l2) in *.
  set (Bk := BASE ^ Z.of_nat (length l1)) in *.
  set (B2 := BASE ^ Z.of_nat (length l2)) in *.
  assert (Hsum : w0 + BASE * w1 + P
                 = s0 mod BASE + BASE * (s1 mod BASE)
                   + BASE * BASE * (s1 / BASE)).
  { subst s1 s0. lia. }
  assert (Bk * (w0 + BASE * (w1 + BASE * V2) + P)
          < Bk * (BASE * (BASE * B2))) as H by lia.
  apply Z.mul_lt_mono_pos_l in H; [|lia].
  assert (BASE * BASE * (V2 + s1 / BASE) < BASE * BASE * B2) as H' by lia.
  apply Z.mul_lt_mono_pos_l in H'; lia.
Qed.

Lemma mul_d_word x y : mul_d x y = (x * y) mod BASE.
Proof. reflexivity. Qed.

Lemma mulh_du_word x y :
  word64 x -> word64 y -> mulh_du x y = (x * y) / BASE.
Proof.
  unfold word64, mulh_du. intros Hx Hy. pose proof BASE_pos.
  apply Z.mod_small. split.
  - apply Z.div_pos; nia.
  - apply Z.div_lt_upper_bound; nia.
Qed.

Lemma for_loop_from (I : nat -> state -> Prop) body n st s :
  I st s ->
  (forall k s, (st <= k < st + n)%nat -> I k s ->
     exists s', body (Z.of_nat k) s = Done tt s' /\ I (S k) s') ->
  exists s', for_loop n (Z.of_nat st) body s = Done tt s' /\ I (st + n)%nat s'.
Proof.
  revert st s. induction n as [|n IH]; intros st s H0 Hstep.
  - exists s. rewrite Nat.add_0_r. split; [reflexivity | assumption].
  - destruct (Hstep st s ltac:(lia) H0) as (s1 & E1 & H1).
    destruct (IH (S st) s1 H1) as (s2 & E2 & H2).
    { intros k s' Hk. apply Hstep. lia. }
    exists s2. split.
    + cbn [for_loop]. unfold bind. rewrite E1.
      replace (Z.of_nat st + 1) with (Z.of_nat (S st)) by lia. exact E2.
    + replace (st + S n)%nat with (S st + n)%nat by lia. exact H2.
Qed.

Lemma for_loop_inv (I : nat -> state -> Prop) body n s :
  I O s ->
  (forall k s, (k < n)%nat -> I k s ->
     exists s', body (Z.of_nat k) s = Done tt s' /\ I (S k) s') ->
  exists s', for_loop n 0 body s = Done tt s' /\ I n s'.
Proof.
  intros H0 Hstep.
  apply (for_loop_from I body n O s H0).
  intros k s' Hk. apply Hstep. lia.
Qed.

Section Kernel.

Variables (pr : Z) (n : nat) (rd : Z -> Prop) (s0 : state).
Hypothesis Haddr : addressable pr n.

Lemma carry_loop_tracks l2 :
  forall l1 fuel s p,
    tracks pr n rd s0 (l1 ++ l2) s -> Forall word64 l2 ->
    bigint_value l2 + 1 < BASE ^ Z.of_nat (length l2) ->
    (length l2 <= fuel)%nat ->
    p = pr + 8 * Z.of_nat (length l1) ->
    exists s', carry_loop fuel p 1 s = Done tt s' /\
               tracks pr n rd s0 (l1 ++ propagate 1 l2) s'.
Proof.
  induction l2 as [|w l2 IH]; intros l1 fuel s p Ht Hw Hlt Hfuel ->.
  - cbn in Hlt. lia.
  - destruct fuel as [|fuel]; [cbn in Hfuel; lia|].
    apply Forall_cons in Hw as [Hw Hl2].
    pose proof (tracks_length _ _ _ _ _ _ Ht) as Hlen.
    rewrite length_app in Hlen. cbn [length] in Hlen, Hfuel, Hlt.
    rewrite BASE_pow_S in Hlt. cbn [bigint_value] in Hlt.
    destruct (ld_tracks pr n rd s0 Haddr _ s (pr + 8 * Z.of_nat (length l1)) 0
                (length l1) w Ht) as (s1 & E1 & T1);
      [apply list_lookup_middle; reflexivity | lia |].
    destruct (st_tracks pr n rd s0 Haddr _ s1 (add_d w 1)
                (pr + 8 * Z.of_nat (length l1)) 0 (length l1) T1)
      as (s2 & E2 & T2); [lia | lia |].
    rewrite insert_app_r_alt, Nat.sub_diag in T2 by lia.
    cbn [insert list_insert] in T2.
    assert (H1 : word64 1) by (split; [lia | reflexivity]).
    pose proof (carry_bit w 1 Hw H1) as Hc.
    cbn [carry_loop propagate]. unfold bind. rewrite E1, E2.
    rewrite (sltu_add_d w 1 Hw H1).
    change (1 =? 0) with false. cbv iota.
    destruct (Z.eqb_spec ((w + 1) / BASE) 0) as [Hz | Hnz].
    + exists s2. split; [reflexivity|].
      rewrite Hz, propagate_0. exact T2.
    + assert (Hone : (w + 1) / BASE = 1) by lia. rewrite Hone.
      pose proof BASE_pos as HB.
      pose proof (bigint_value_bound l2 Hl2) as Hb2.
      assert (Hwmax : BASE <= w + 1).
      { destruct (Z_lt_ge_dec (w + 1) BASE) as [Hs|]; [|lia].
        rewrite Z.div_small in Hone by (unfold word64 in Hw; lia). lia. }
      assert (Hfit : bigint_value l2 + 1 < BASE ^ Z.of_nat (length l2)).
      { unfold word64 in Hw. nia. }
      assert (Hne : (0 < length l2)%nat).
      { destruct l2; [cbn in Hfit; lia | cbn; lia]. }
      destruct Haddr as [Hlo Hhi].
      destruct (IH (l1 ++ [add_d w 1]) fuel s2
                  (addi_d (pr + 8 * Z.of_nat (length l1)) 8))
        as (s3 & E3 & T3).
      * rewrite <- app_assoc. exact T2.
      * exact Hl2.
      * exact Hfit.
      * lia.
      * rewrite length_app. cbn [length]. unfold addi_d.
        rewrite Z.mod_small; lia.
      * exists s3. split; [exact E3|].
        rewrite <- app_assoc in T3. exact T3.
Qed.

Lemma mul_add_asm_tracks l1 w0 w1 l2 x y fuel s :
  tracks pr n rd s0 (l1 ++ w0 :: w1 :: l2) s ->
  Forall word64 (l1 ++ w0 :: w1 :: l2) -> word64 x -> word64 y ->
  bigint_value (l1 ++ w0 :: w1 :: l2) + x * y * BASE ^ Z.of_nat (length l1)
    < BASE ^ Z.of_nat (length (l1 ++ w0 :: w1 :: l2)) ->
  (length l2 <= fuel)%nat ->
  exists s',
    mul_add_asm fuel (pr + 8 * Z.of_nat (length l1)) x y s = Done tt s' /\
    tracks pr n rd s0 (add_product (l1 ++ w0 :: w1 :: l2) (length l1) x y) s'.
Proof.
  intros Ht Hr Hx Hy Hlt Hfuel.
  destruct (carry_fits l1 w0 w1 l2 x y Hr Hx Hy Hlt) as [Hc Hfit].
  rewrite add_product_shape. cbv zeta in Hc, Hfit |- *.
  pose proof (tracks_length _ _ _ _ _ _ Ht) as Hlen.
  rewrite length_app in Hlen. cbn [length] in Hlen.
  pose proof Hr as Hr'.
  apply Forall_app in Hr' as [Hl1 Hr'].
  apply Forall_cons in Hr' as [Hw0 Hr'].
  apply Forall_cons in Hr' as [Hw1 Hl2].
  set (p := pr + 8 * Z.of_nat (length l1)) in *.
  destruct (ld_tracks pr n rd s0 Haddr _ s p 0 (length l1) w0 Ht)
    as (s1 & E1 & T1);
    [apply list_lookup_middle; reflexivity | subst p; lia |].
  destruct (ld_tracks pr n rd s0 Haddr _ s1 p 8 (S (length l1)) w1 T1)
    as (s2 & E2 & T2).
  { rewrite lookup_app_r by lia.
    replace (S (length l1) - length l1)%nat with 1%nat by lia. reflexivity. }
  { subst p. lia. }
  set (s0w := w0 + (x * y) mod BASE) in *.
  set (s1w := w1 + (x * y) / BASE + s0w / BASE) in *.
  destruct (st_tracks pr n rd s0 Haddr _ s2 (s0w mod BASE) p 0 (length l1) T2)
    as (s3 & E3 & T3); [lia | subst p; lia |].
  destruct (st_tracks pr n rd s0 Haddr _ s3 (s1w mod BASE) p 8
              (S (length l1)) T3)
    as (s4 & E4 & T4); [lia | subst p; lia |].
  rewrite insert_app_r_alt, Nat.sub_diag in T4 by lia.
  rewrite insert_app_r_alt in T4 by lia.
  replace (S (length l1) - length l1)%nat with 1%nat in T4 by lia.
  cbn [insert list_insert] in T4.
  unfold mul_add_asm, bind. rewrite E1, E2.
  rewrite mul_d_word, (mulh_du_word x y Hx Hy).
  rewrite add_pair_spec;
    [| apply word64_mod
     | rewrite <- (mulh_du_word x y Hx Hy); apply word64_mod
     | assumption | assumption].
  fold s0w. fold s1w. rewrite E3, E4.
  destruct (Z.eqb_spec (s1w / BASE) 0) as [Hz | Hnz].
  - exists s4. split; [reflexivity|]. rewrite Hz, propagate_0. exact T4.
  - assert (Hone : s1w / BASE = 1) by lia. rewrite Hone in *.
    assert (Hne : (0 < length l2)%nat).
    { destruct l2; [cbn in Hfit; lia | cbn; lia]. }
    destruct Haddr as [Hlo Hhi].
    destruct (carry_loop_tracks l2 (l1 ++ [s0w mod BASE; s1w mod BASE])
                fuel s4 (addi_d p 16)) as (s5 & E5 & T5).
    + rewrite <- app_assoc. exact T4.
    + exact Hl2.
    + exact Hfit.
    + exact Hfuel.
    + rewrite length_app. cbn [length]. unfold addi_d. subst p.
      rewrite Z.mod_small; lia.
    + exists s5. split; [exact E5|].
      rewrite <- app_assoc in T5. exact T5.
Qed.

End Kernel.

(** ** The whole kernel *)

Lemma st_d_trace v p off s s' :
  st_d v p off s = Done tt s' -> trace s' = EvStore (ea p off) :: trace s.
Proof.
  unfold st_d. destruct (mem s !! ea p off); [|discriminate].
  intros [= <-]. reflexivity.
Qed.

Lemma memset_zero_tracks pr n rd s0 r0 :
  addressable pr n -> read_array (mem s0) pr n = Some r0 ->
  exists s1 evs,
    memset_zero pr (Z.of_nat n) s0 = Done tt s1 /\
    tracks pr n rd s0 (replicate n 0) s1 /\
    trace s1 = evs ++ trace s0 /\
    forall k : nat, (k < n)%nat -> In (EvStore (pr + 8 * Z.of_nat k)) evs.
Proof.
  intros Haddr Hr0. apply read_array_spec in Hr0 as [Hlen Harr].
  unfold memset_zero. rewrite Nat2Z.id.
  destruct (for_loop_inv
    (fun k s => tracks pr n rd s0 (replicate k 0 ++ drop k r0) s /\
                exists evs, trace s = evs ++ trace s0 /\
                  forall k' : nat, (k' < k)%nat ->
                    In (EvStore (pr + 8 * Z.of_nat k')) evs)
    (fun k => st_d 0 (pr + 8 * k) 0) n s0) as (s1 & E & T & evs & Etr & Hst).
  - split.
    + cbn [replicate app drop]. apply tracks_refl; assumption.
    + exists []. split; [reflexivity | intros; lia].
  - intros k s Hk [T (evs & Etr & Hst)].
    destruct (st_tracks pr n rd s0 Haddr _ s 0 (pr + 8 * Z.of_nat k) 0 k T)
      as (s' & E' & T'); [lia | lia |].
    exists s'. split; [exact E'|]. split.
    + rewrite insert_app_r_alt in T' by (rewrite length_replicate; lia).
      rewrite length_replicate, Nat.sub_diag in T'.
      destruct (lookup_lt_is_Some_2 r0 k ltac:(lia)) as [w Hw].
      rewrite (drop_S r0 w k Hw) in T'. cbn [insert list_insert] in T'.
      rewrite replicate_S_end, <- app_assoc. exact T'.
    + exists (EvStore (ea (pr + 8 * Z.of_nat k) 0) :: evs). split.
      * rewrite (st_d_trace _ _ _ _ _ E'), Etr. reflexivity.
      * intros k' Hk'. destruct (decide (k' = k)) as [-> | Hne].
        -- left. f_equal. destruct Haddr. rewrite ea_small; lia.
        -- right. apply Hst. lia.
  - exists s1, evs. split; [exact E|]. split; [|split; assumption].
    rewrite drop_ge, app_nil_r in T by lia. exact T.
Qed.

Lemma uint_small z : 0 <= z < 2 ^ 32 -> uint z = z.
Proof. intros H. unfold uint. apply Z.mod_small, H. Qed.

Lemma kernel_tracks s0 pa a pb b pr r0 fuel :
  call_ok (mem s0) pa a pb b pr r0 ->
  (length a + length b <= fuel)%nat ->
  exists s' evs,
    multiply_call fuel pa a pb b pr s0 = Done tt s' /\
    tracks pr (length a + length b) (operand_cell pa a pb b) s0
           (multiply a b) s' /\
    trace s' = evs ++ trace s0 /\
    forall k : nat, (k < length a + length b)%nat ->
      In (EvStore (pr + 8 * Z.of_nat k)) evs.
Proof.
  intros [Ha Hb Hr Hwa Hwb Hsz Hpa Hpb Hpr Hda Hdb] Hfuel.
  set (n := (length a + length b)%nat) in *.
  set (rd := operand_cell pa a pb b).
  apply read_array_spec in Ha as [_ Ha]. apply read_array_spec in Hb as [_ Hb].
  destruct (memset_zero_tracks pr n rd s0 r0 Hpr Hr)
    as (s1 & evs1 & E1 & T1 & Etr1 & S1).
  unfold multiply_call, bigint_multiply_raw, bind.
  rewrite <- Nat2Z.inj_add. fold n.
  rewrite uint_small by lia. rewrite E1, !Nat2Z.id.
  assert (Hmul : exists s',
    for_loop (length a) 0 (fun i =>
      let* multiplicand_element := ld_d (pa + 8 * i) 0 in
      for_loop (length b) 0 (fun j =>
        let* multiplier_element := ld_d (pb + 8 * j) 0 in
        mul_add_asm fuel (pr + 8 * uint (i + j))
                    multiplicand_element multiplier_element)) s1
    = Done tt s' /\ tracks pr n rd s1 (rows_upto a b (length a)) s').
  { apply (for_loop_inv (fun i s => tracks pr n rd s1 (rows_upto a b i) s)).
    - apply tracks_refl; [apply length_replicate|].
      apply (tracks_array _ _ _ _ _ _ T1).
    - intros i s Hi Ti.
      destruct (lookup_lt_is_Some_2 a i Hi) as [x Hx].
      pose proof (Forall_lookup_1 _ _ _ _ Hwa Hx) as Hxw.
      destruct (ld_outside pr n rd s1 (rows_upto a b i) s
                  (pa + 8 * Z.of_nat i) 0 x Ti) as (s2 & E2 & T2).
      { destruct Hpa. lia. }
      { rewrite Z.add_0_r. apply (disjoint_not_in_buffer _ _ _ _ _ Hda Hi). }
      { rewrite Z.add_0_r. left. apply in_buffer_element, Hi. }
      { rewrite Z.add_0_r, (tracks_frame _ _ _ _ _ _ T1).
        - apply Ha, Hx.
        - apply (disjoint_not_in_buffer _ _ _ _ _ Hda Hi). }
      unfold bind at 1. rewrite E2.
      rewrite rows_upto_S, (nth_lookup_Some a i 0 x Hx). unfold row.
      apply (for_loop_inv
        (fun j s =>
           tracks pr n rd s1 (row_upto b x i j (rows_upto a b i)) s)).
      + exact T2.
      + intros j s3 Hj Tj.
        destruct (lookup_lt_is_Some_2 b j Hj) as [y Hy].
        pose proof (Forall_lookup_1 _ _ _ _ Hwb Hy) as Hyw.
        destruct (ld_outside pr n rd s1 _ s3 (pb + 8 * Z.of_nat j) 0 y Tj)
          as (s4 & E4 & T4).
        { destruct Hpb. lia. }
        { rewrite Z.add_0_r. apply (disjoint_not_in_buffer _ _ _ _ _ Hdb Hj). }
        { rewrite Z.add_0_r. right. apply in_buffer_element, Hj. }
        { rewrite Z.add_0_r, (tracks_frame _ _ _ _ _ _ T1).
          - apply Hb, Hy.
          - apply (disjoint_not_in_buffer _ _ _ _ _ Hdb Hj). }
        unfold bind. rewrite E4.
        rewrite <- Nat2Z.inj_add, uint_small by lia.
        rewrite row_upto_S, (nth_lookup_Some b j 0 y Hy).
        destruct (pair_fits a b i j Hwa Hwb Hi Hj) as (Hw & Hl & Hfit).
        rewrite (nth_lookup_Some a i 0 x Hx),
                (nth_lookup_Some b j 0 y Hy) in *.
        set (r := row_upto b x i j (rows_upto a b i)) in *.
        destruct (split_at2 r (i + j)) as (l1 & w0 & w1 & l2 & Er & El1);
          [lia|].
        rewrite Er in *. rewrite <- El1.
        apply (mul_add_asm_tracks pr n rd s1 Hpr); try assumption.
        * rewrite El1. exact Hfit.
        * rewrite length_app in Hl. cbn [length] in Hl. lia. }
  destruct Hmul as (s' & E' & T').
  destruct (tracks_trace _ _ _ _ _ _ T') as (evs2 & Etr2 & _).
  exists s', (evs2 ++ evs1). split; [exact E'|]. split; [|split].
  - apply (tracks_trans _ _ _ _ _ _ _ _ T1 T').
  - rewrite Etr2, Etr1, app_assoc. reflexivity.
  - intros k Hk. apply in_or_app. right. apply S1, Hk.
Qed.

(** The kernel run from a heap [m], as the claims below use it. *)
Lemma kernel_run m pa a pb b pr r0 fuel :
  call_ok m pa a pb b pr r0 ->
  (length a + length b <= fuel)%nat ->
  exists s',
    run (multiply_call fuel pa a pb b pr) m = Done tt s' /\
    read_array (mem s') pr (length a + length b) = Some (multiply a b) /\
    (forall addr, ~ in_buffer pr (length a + length b) addr ->
       mem s' !! addr = m !! addr) /\
    Forall (access_ok pr (length a + length b) (operand_cell pa a pb b))
           (trace s') /\
    (forall k : nat, (k < length a + length b)%nat ->
       In (EvStore (pr + 8 * Z.of_nat k)) (trace s')).
Proof.
  intros Hok Hfuel.
  destruct (kernel_tracks (mkState m []) pa a pb b pr r0 fuel Hok Hfuel)
    as (s' & evs & E & [L A F (evs' & Etr' & Hacc)] & Etr & Hst).
  cbn [mem trace] in *. rewrite app_nil_r in *.
  exists s'. split; [exact E|]. split; [|split; [|split]].
  - apply read_array_spec. split; assumption.
  - exact F.
  - rewrite Etr'. exact Hacc.
  - rewrite Etr. exact Hst.
Qed.

Lemma read_array_frame m m' pr n p l ws :
  (forall addr, ~ in_buffer pr n addr -> m' !! addr = m !! addr) ->
  disjoint pr n p l -> read_array m p l = Some ws ->
  read_array m' p l = Some ws.
Proof.
  intros F Hd H. apply read_array_spec in H as [Hl Ha].
  apply read_array_spec. split; [assumption|].
  intros k w Hk. rewrite F; [apply Ha, Hk|].
  apply (disjoint_not_in_buffer _ _ _ _ _ Hd).
  apply lookup_lt_Some in Hk. lia.
Qed.


(** ** The RSA self-test: the primitive on machine integers *)

Lemma to_words_length n z : length (Bigint.to_words n z) = n.
Proof.
  revert z. induction n as [|n IH]; intros z; cbn [Bigint.to_words length];
    [reflexivity | now rewrite IH].
Qed.

Lemma to_words_word64 n z : Forall word64 (Bigint.to_words n z).
Proof.
  revert z. induction n as [|n IH]; intros z; cbn [Bigint.to_words];
    constructor; [apply word64_mod | apply IH].
Qed.

Lemma to_words_value n z :
  0 <= z < BASE ^ Z.of_nat n -> bigint_value (Bigint.to_words n z) = z.
Proof.
  revert z. induction n as [|n IH]; intros z Hz.
  - change (BASE ^ Z.of_nat 0) with 1 in Hz. cbn. lia.
  - cbn [Bigint.to_words bigint_value]. rewrite BASE_pow_S in Hz.
    pose proof BASE_pos as HB.
    rewrite IH.
    + pose proof (Z.div_mod z BASE ltac:(lia)). lia.
    + split; [apply Z.div_pos; lia | apply Z.div_lt_upper_bound; lia].
Qed.

Lemma exp_step_range b m acc bit :
  0 < m -> 0 <= exp_step b m acc bit < m.
Proof.
  intros Hm. unfold exp_step. destruct bit; apply Z.mod_pos_bound, Hm.
Qed.

(** The word-array exponentiation computes what the integer one does. *)
Lemma mod_exp_words base modulus exponent :
  Forall word64 base -> Forall word64 modulus ->
  0 < bigint_value modulus ->
  Bigint.mod_exp base modulus exponent
  = Bigint.to_words (length modulus)
      (foldl (exp_step (bigint_value base) (bigint_value modulus)) 1
             (Bigint.bits_msb_first exponent)).
Proof.
  intros Hb Hm Hpos. unfold Bigint.mod_exp.
  pose proof (bigint_value_bound modulus Hm) as Hmb.
  assert (Hone : 0 <= 1 < BASE ^ Z.of_nat (length modulus)) by lia.
  generalize (Bigint.bits_msb_first exponent) as bits.
  generalize dependent 1. intros acc Hacc bits. revert acc Hacc.
  induction bits as [|bit bits IH]; intros acc Hacc; [reflexivity|].
  cbn [foldl].
  set (w := Bigint.to_words (length modulus) acc).
  assert (Hw : Forall word64 w) by apply to_words_word64.
  assert (Hv : bigint_value w = acc) by (apply to_words_value, Hacc).
  destruct (multiply_spec w w Hw Hw) as (_ & _ & Hsq).
  set (sq := Bigint.reduce modulus (Reference.multiply w w)).
  assert (Hsqw : Forall word64 sq) by apply to_words_word64.
  assert (Hsqv : bigint_value sq = (acc * acc) mod bigint_value modulus).
  { unfold sq, Bigint.reduce. rewrite Hsq, Hv. apply to_words_value.
    pose proof (Z.mod_pos_bound (acc * acc) (bigint_value modulus) Hpos).
    lia. }
  destruct (multiply_spec sq base Hsqw Hb) as (_ & _ & Hmu).
  pose proof (exp_step_range (bigint_value base) (bigint_value modulus)
                acc bit Hpos) as Hr.
  replace (if bit then Bigint.reduce modulus (Reference.multiply sq base)
           else sq)
    with (Bigint.to_words (length modulus)
            (exp_step (bigint_value base) (bigint_value modulus) acc bit)).
  - apply IH. lia.
  - unfold exp_step. destruct bit.
    + unfold Bigint.reduce. rewrite Hmu, Hsqv. reflexivity.
    + unfold sq, Bigint.reduce. rewrite Hsq, Hv. reflexivity.
Qed.

Lemma fast_exp_step_spec b m acc bit :
  BigZ.to_Z (fast_exp_step b m acc bit)
  = exp_step (BigZ.to_Z b) (BigZ.to_Z m) (BigZ.to_Z acc) bit.
Proof.
  unfold fast_exp_step, exp_step.
  destruct bit; rewrite ?BigZ.spec_modulo, ?BigZ.spec_mul, ?BigZ.spec_modulo,
    ?BigZ.spec_mul; reflexivity.
Qed.

Lemma fast_exp_spec b m bits acc :
  BigZ.to_Z (foldl (fast_exp_step b m) acc bits)
  = foldl (exp_step (BigZ.to_Z b) (BigZ.to_Z m)) (BigZ.to_Z acc) bits.
Proof.
  revert acc. induction bits as [|bit bits IH]; intros acc; [reflexivity|].
  cbn [foldl]. rewrite IH, fast_exp_step_spec. reflexivity.
Qed.

Lemma cipher_fast ctx input :
  context_ok ctx -> RSA.cipher ctx input = fast_cipher ctx input.
Proof.
  intros [Hw Hpos]. unfold RSA.cipher, fast_cipher, Bigint.done.
  rewrite mod_exp_words by (try apply to_words_word64; assumption).
  rewrite fast_exp_spec, !BigZ.spec_of_Z. change (BigZ.to_Z 1) with 1.
  f_equal. apply to_words_value.
  pose proof (bigint_value_bound _ Hw) as Hb.
  set (bits := Bigint.bits_msb_first (RSA.exponent ctx)).
  destruct bits as [|bit bits _] using rev_ind; [cbn [foldl]; lia|].
  rewrite foldl_app. cbn [foldl].
  pose proof (exp_step_range
    (bigint_value (Bigint.init (length (RSA.modulus ctx)) input))
    (bigint_value (RSA.modulus ctx))
    (foldl (exp_step
              (bigint_value (Bigint.init (length (RSA.modulus ctx)) input))
              (bigint_value (RSA.modulus ctx))) 1 bits) bit Hpos).
  lia.
Qed.

Lemma context_ok_check ctx :
  forallb (fun w => (0 <=? w) && (w <? BASE)) (RSA.modulus ctx)
  && (0 <? bigint_value (RSA.modulus ctx)) = true ->
  context_ok ctx.
Proof.
  intros H. apply andb_true_iff in H as [Hw Hpos]. split.
  - apply Forall_forall. intros w Hin.
    rewrite forallb_forall in Hw. apply list_elem_of_In, Hw in Hin.
    apply andb_true_iff in Hin as [H0 H1]. unfold word64. lia.
  - lia.
Qed.

Lemma pubkey_sign_ok_fast key d plaintext expected ctx :
  RSA.init key = Some ctx -> context_ok ctx ->
  pubkey_sign_ok rsa_algorithm key d plaintext expected
  = match RSA.encode_digest ctx d (digest_of d plaintext) with
    | Some encoded => bool_decide (fast_cipher ctx encoded = expected)
    | None => false
    end.
Proof.
  intros Hinit Hok. unfold pubkey_sign_ok.
  cbn [pubkey_init pubkey_sign rsa_algorithm]. unfold RSA.sign.
  rewrite Hinit.
  destruct (RSA.encode_digest ctx d (digest_of d plaintext)) as [em|];
    cbn [mbind option_bind].
  - rewrite (cipher_fast ctx em Hok).
    apply bool_decide_ext. split; [intros [= <-] | intros <-]; reflexivity.
  - apply bool_decide_eq_false. discriminate.
Qed.

Lemma verify_fast ctx d value signature :
  context_ok ctx ->
  RSA.verify ctx d value signature
  = if negb (length signature =? RSA.max_len ctx)%nat then false
    else match RSA.encode_digest ctx d value with
         | Some actual => bool_decide (fast_cipher ctx signature = actual)
         | None => false
         end.
Proof.
  intros Hok. unfold RSA.verify. rewrite (cipher_fast ctx signature Hok).
  reflexivity.
Qed.

Ltac fast_rsa :=
  unfold rsa_signature_ok, pubkey_verify_ok, pubkey_verify_fail_ok;
  cbn [pubkey_init pubkey_verify rsa_algorithm];
  erewrite pubkey_sign_ok_fast;
    [| vm_compute; reflexivity | apply context_ok_check; vm_compute; reflexivity];
  match goal with
  | |- context [RSA.init ?key] =>
      let H := fresh in
      let c := eval vm_compute in (RSA.init key) in
      assert (H : RSA.init key = c) by (vm_compute; reflexivity);
      rewrite H; clear H
  end;
  cbv iota beta;
  rewrite !verify_fast by (apply context_ok_check; vm_compute; reflexivity);
  vm_compute; reflexivity.


Lemma rsa_signature_ok_passes test :
  rsa_signature_ok test = (true, true, true) -> signature_test_passes test.
Proof.
  unfold rsa_signature_ok, signature_test_passes, pubkey_sign_ok,
    pubkey_verify_ok, pubkey_verify_fail_ok.
  cbn [pubkey_init pubkey_sign pubkey_verify rsa_algorithm].
  destruct (RSA.init (private test)) as [private_ctx|]; [|discriminate].
  destruct (RSA.init (public test)) as [public_ctx|]; [|discriminate].
  intros [= Hs Hv Hf]. exists private_ctx, public_ctx.
  apply bool_decide_eq_true in Hs. apply negb_true_iff in Hf. auto.
Qed.

Lemma rsa_test_md5 : rsa_signature_ok md5_test = (true, true, true).
Proof. fast_rsa. Qed.

Lemma rsa_test_sha1 : rsa_signature_ok sha1_test = (true, true, true).
Proof. fast_rsa. Qed.

Lemma rsa_test_sha256 : rsa_signature_ok sha256_test = (true, true, true).
Proof. fast_rsa. Qed.

(** * The claims *)

(** Closing a side condition about concrete words, sizes and addresses. *)
Ltac concrete :=
  vm_compute;
  first [ reflexivity
        | discriminate
        | lia
        | intuition (first [reflexivity | discriminate | lia]) ].

Ltac concrete_words :=
  repeat (apply Forall_cons; split; [split; concrete|]); apply Forall_nil_2.

(** A concrete call is well formed. *)
Ltac concrete_call :=
  split;
  [ vm_compute; reflexivity | vm_compute; reflexivity | vm_compute; reflexivity
  | concrete_words | concrete_words
  | concrete
  | split; concrete | split; concrete | split; concrete
  | concrete | concrete ].

(** C1. For a multiplicand of L1 elements and a multiplier of L2 elements
    in well-formed buffers, [bigint_multiply_raw] returns, stores to every
    one of the L1+L2 result elements and to nothing else, and leaves in
    them the L1+L2 words whose value is exactly the product of the values
    of the operands. *)
Theorem multiply_raw_exact m pa a pb b pr r0 fuel :
  call_ok m pa a pb b pr r0 ->
  (length a + length b <= fuel)%nat ->
  exists s' r,
    run (multiply_call fuel pa a pb b pr) m = Done tt s' /\
    read_array (mem s') pr (length a + length b) = Some r /\
    length r = (length a + length b)%nat /\
    Forall word64 r /\
    bigint_value r = bigint_value a * bigint_value b /\
    (forall addr, In (EvStore addr) (trace s')
                  <-> in_buffer pr (length a + length b) addr).
Proof.
  intros Hok Hfuel.
  destruct (kernel_run m pa a pb b pr r0 fuel Hok Hfuel)
    as (s' & E & Hr & _ & Hacc & Hst).
  destruct (multiply_spec a b (multiplicand_words _ _ _ _ _ _ _ Hok)
              (multiplier_words _ _ _ _ _ _ _ Hok)) as (Hw & Hl & Hv).
  exists s', (multiply a b). repeat (split; [assumption|]).
  intros addr. split.
  - intros Hin. rewrite Forall_forall in Hacc.
    apply (Hacc (EvStore addr)). apply list_elem_of_In, Hin.
  - intros Hin. apply in_buffer_inv in Hin as (k & Hk & ->). apply Hst, Hk.
Qed.

Lemma multiply_raw_exact_witness :
  let m := heap_of 4096 [3; 5] 8192 [max_word] 12288 [9; 9; 9] in
  call_ok m 4096 [3; 5] 8192 [max_word] 12288 [9; 9; 9] /\
  (length [3; 5] + length [max_word] <= 3)%nat /\
  exists s' r,
    run (multiply_call 3 4096 [3; 5] 8192 [max_word] 12288) m = Done tt s' /\
    read_array (mem s') 12288 (length [3; 5] + length [max_word]) = Some r /\
    length r = (length [3; 5] + length [max_word])%nat /\
    Forall word64 r /\
    bigint_value r = bigint_value [3; 5] * bigint_value [max_word] /\
    (forall addr, In (EvStore addr) (trace s')
                  <-> in_buffer 12288 (length [3; 5] + length [max_word]) addr).
Proof.
  intros m.
  assert (Hok : call_ok m 4096 [3; 5] 8192 [max_word] 12288 [9; 9; 9])
    by concrete_call.
  assert (Hfuel : (length [3; 5] + length [max_word] <= 3)%nat)
    by concrete.
  split; [exact Hok|]. split; [exact Hfuel|].
  exact (multiply_raw_exact m 4096 [3; 5] 8192 [max_word] 12288 [9; 9; 9] 3
           Hok Hfuel).
Defined.

(** C2. Whatever the operands, all-ones words included, the call returns
    with every store it made, the stores of every carry chain among them,
    inside the L1+L2-element result: no carry-propagation loop runs out of
    the buffer or out of L1+L2 iterations, and memory from the end of the
    result on is as it was. *)
Theorem carry_stays_in_result m pa a pb b pr r0 fuel :
  call_ok m pa a pb b pr r0 ->
  (length a + length b <= fuel)%nat ->
  exists s',
    run (multiply_call fuel pa a pb b pr) m = Done tt s' /\
    (forall addr, In (EvStore addr) (trace s') ->
       exists k : nat, (k < length a + length b)%nat /\
                       addr = pr + 8 * Z.of_nat k) /\
    (forall addr, pr + 8 * Z.of_nat (length a + length b) <= addr ->
       mem s' !! addr = m !! addr).
Proof.
  intros Hok Hfuel.
  destruct (kernel_run m pa a pb b pr r0 fuel Hok Hfuel)
    as (s' & E & _ & F & Hacc & _).
  exists s'. split; [exact E|]. split.
  - intros addr Hin. rewrite Forall_forall in Hacc.
    apply in_buffer_inv, (Hacc (EvStore addr)), list_elem_of_In, Hin.
  - intros addr Hge. apply F. unfold in_buffer. lia.
Qed.

(** The maximal-carry case: all words of both operands at the maximum,
    with a mapped word right behind the result buffer. *)
Lemma carry_stays_in_result_witness :
  let a := [max_word; max_word] in
  let b := [max_word; max_word] in
  let m := heap_of 4096 a 8192 b 12288 [1; 2; 3; 4; 77] in
  call_ok m 4096 a 8192 b 12288 [1; 2; 3; 4] /\
  (length a + length b <= 4)%nat /\
  exists s',
    run (multiply_call 4 4096 a 8192 b 12288) m = Done tt s' /\
    (forall addr, In (EvStore addr) (trace s') ->
       exists k : nat, (k < length a + length b)%nat /\
                       addr = 12288 + 8 * Z.of_nat k) /\
    (forall addr, 12288 + 8 * Z.of_nat (length a + length b) <= addr ->
       mem s' !! addr = m !! addr).
Proof.
  intros a b m.
  assert (Hok : call_ok m 4096 a 8192 b 12288 [1; 2; 3; 4]) by concrete_call.
  assert (Hfuel : (length a + length b <= 4)%nat) by concrete.
  split; [exact Hok|]. split; [exact Hfuel|].
  exact (carry_stays_in_result m 4096 a 8192 b 12288 [1; 2; 3; 4] 4
           Hok Hfuel).
Defined.

(** C3. On every pair of operands the assembly kernel leaves in the result
    buffer exactly the words that the schoolbook algorithm of the
    specification computes: zero the result, then for every pair (i, j)
    add the halves of the double-word product at positions i+j and i+j+1
    and propagate the carry upwards until an addition produces none. *)
Theorem kernel_refines_reference m pa a pb b pr r0 fuel :
  call_ok m pa a pb b pr r0 ->
  (length a + length b <= fuel)%nat ->
  result_of (run (multiply_call fuel pa a pb b pr) m) pr
            (length a + length b)
  = Some (Reference.multiply a b).
Proof.
  intros Hok Hfuel.
  destruct (kernel_run m pa a pb b pr r0 fuel Hok Hfuel)
    as (s' & E & Hr & _).
  rewrite E. exact Hr.
Qed.

Lemma kernel_refines_reference_witness :
  let a := [max_word; 0; 12345] in
  let b := [max_word; max_word] in
  let m := heap_of 800 a 1600 b 2400 [5; 5; 5; 5; 5] in
  call_ok m 800 a 1600 b 2400 [5; 5; 5; 5; 5] /\
  (length a + length b <= 5)%nat /\
  result_of (run (multiply_call 5 800 a 1600 b 2400) m) 2400
            (length a + length b)
  = Some (Reference.multiply a b).
Proof.
  intros a b m.
  assert (Hok : call_ok m 800 a 1600 b 2400 [5; 5; 5; 5; 5]) by concrete_call.
  assert (Hfuel : (length a + length b <= 5)%nat) by concrete.
  split; [exact Hok|]. split; [exact Hfuel|].
  exact (kernel_refines_reference m 800 a 1600 b 2400 [5; 5; 5; 5; 5] 5
           Hok Hfuel).
Defined.

(** C4. Word additions wrap modulo 2^64, and comparing the wrapped sum
    with an addend detects the carry: for 64-bit [x] and [y], the sum
    modulo 2^64 is below [y] exactly when [x + y] reaches 2^64.  The flag
    that the kernel leaves in [$t0] after adding the double word [hi:lo]
    to [th:tl] is the carry of that 128-bit addition. *)
Theorem carry_detection x y lo hi tl th :
  word64 x -> word64 y ->
  word64 lo -> word64 hi -> word64 tl -> word64 th ->
  add_d x y = (x + y) mod 2 ^ 64 /\
  (add_d x y < y <-> 2 ^ 64 <= x + y) /\
  sltu (add_d x y) y = (x + y) / 2 ^ 64 /\
  (let '(tl', th', t0) := add_pair lo hi tl th in
   word64 tl' /\ word64 th' /\ (t0 = 0 \/ t0 = 1) /\
   tl' + 2 ^ 64 * th' + 2 ^ 64 * 2 ^ 64 * t0
   = (tl + 2 ^ 64 * th) + (lo + 2 ^ 64 * hi)).
Proof.
  intros Hx Hy Hlo Hhi Htl Hth. change (2 ^ 64) with BASE.
  pose proof BASE_pos as HB.
  split; [reflexivity|]. split; [|split].
  - pose proof (sltu_add_d x y Hx Hy) as Hs. unfold sltu in Hs.
    pose proof (carry_bit x y Hx Hy) as Hc.
    destruct (Z.ltb_spec (add_d x y) y) as [Hlt | Hge].
    + split; [intros _ | intros _; exact Hlt].
      destruct (Z_lt_ge_dec (x + y) BASE) as [Hs'|]; [|lia].
      rewrite Z.div_small in Hs by (unfold word64 in *; lia). lia.
    + split; [lia|]. intros Hbig.
      assert (1 <= (x + y) / BASE) by (apply Z.div_le_lower_bound; lia). lia.
  - apply sltu_add_d; assumption.
  - rewrite add_pair_spec by assumption.
    set (s0 := tl + lo). set (s1 := th + hi + s0 / BASE).
    pose proof (Z.div_mod s0 BASE ltac:(lia)) as H0.
    pose proof (Z.div_mod s1 BASE ltac:(lia)) as H1.
    pose proof (carry_bit tl lo Htl Hlo) as Hc0. fold s0 in Hc0.
    split; [apply word64_mod|]. split; [apply word64_mod|]. split.
    + assert (0 <= s1 / BASE)
        by (apply Z.div_pos; unfold word64 in *; subst s1; lia).
      assert (s1 / BASE < 2)
        by (apply Z.div_lt_upper_bound; unfold word64 in *; subst s1; lia).
      lia.
    + subst s1 s0. lia.
Qed.

Lemma carry_detection_witness :
  word64 max_word /\ word64 2 /\
  word64 max_word /\ word64 max_word /\ word64 1 /\ word64 max_word /\
  add_d max_word 2 = (max_word + 2) mod 2 ^ 64 /\
  (add_d max_word 2 < 2 <-> 2 ^ 64 <= max_word + 2) /\
  sltu (add_d max_word 2) 2 = (max_word + 2) / 2 ^ 64 /\
  (let '(tl', th', t0) := add_pair max_word max_word 1 max_word in
   word64 tl' /\ word64 th' /\ (t0 = 0 \/ t0 = 1) /\
   tl' + 2 ^ 64 * th' + 2 ^ 64 * 2 ^ 64 * t0
   = (1 + 2 ^ 64 * max_word) + (max_word + 2 ^ 64 * max_word)).
Proof.
  assert (Hmax : word64 max_word) by (split; concrete).
  assert (H2 : word64 2) by (split; concrete).
  assert (H1 : word64 1) by (split; concrete).
  repeat (split; [assumption|]).
  exact (carry_detection max_word 2 max_word max_word 1 max_word
           Hmax H2 Hmax Hmax H1 Hmax).
Defined.

(** C5, as stated, fails: the call reads through the operand buffers.
    Multiplying the one-element operands 3 and 5, the access trace has a
    load from the multiplicand's element. *)
Lemma operands_are_read :
  let m := heap_of 4096 [3] 8192 [5] 12288 [0; 0] in
  call_ok m 4096 [3] 8192 [5] 12288 [0; 0] /\
  exists s',
    run (multiply_call 2 4096 [3] 8192 [5] 12288) m = Done tt s' /\
    In (EvLoad 4096) (trace s') /\
    operand_cell 4096 [3] 8192 [5] 4096.
Proof.
  intros m. split; [concrete_call|].
  eexists. split; [vm_compute; reflexivity|]. split.
  - cbn [trace]. do 5 right. left. reflexivity.
  - left. split; concrete.
Qed.

(** C5, amended. A call stores only into the L1+L2-element result buffer
    and never into an operand buffer; what it loads are elements of the
    operands and of the result.  On well-formed, non-aliased buffers it
    returns without fault, all memory outside the result buffer is
    unchanged, and both operand buffers hold the words they held before. *)
Theorem operands_preserved m pa a pb b pr r0 fuel :
  call_ok m pa a pb b pr r0 ->
  (length a + length b <= fuel)%nat ->
  exists s',
    run (multiply_call fuel pa a pb b pr) m = Done tt s' /\
    (forall addr, In (EvStore addr) (trace s') ->
       in_buffer pr (length a + length b) addr /\
       ~ operand_cell pa a pb b addr) /\
    (forall addr, In (EvLoad addr) (trace s') ->
       in_buffer pr (length a + length b) addr \/
       operand_cell pa a pb b addr) /\
    (forall addr, ~ in_buffer pr (length a + length b) addr ->
       mem s' !! addr = m !! addr) /\
    read_array (mem s') pa (length a) = Some a /\
    read_array (mem s') pb (length b) = Some b.
Proof.
  intros Hok Hfuel.
  destruct (kernel_run m pa a pb b pr r0 fuel Hok Hfuel)
    as (s' & E & _ & F & Hacc & _).
  destruct Hok as [Ha Hb _ _ _ _ _ _ _ Hda Hdb].
  rewrite Forall_forall in Hacc.
  exists s'. split; [exact E|]. split; [|split; [|split; [|split]]].
  - intros addr Hin.
    pose proof (Hacc (EvStore addr) ltac:(apply list_elem_of_In, Hin)) as Hb'.
    cbn [access_ok] in Hb'. split; [exact Hb'|].
    unfold operand_cell, in_buffer, disjoint in *. lia.
  - intros addr Hin.
    exact (Hacc (EvLoad addr) ltac:(apply list_elem_of_In, Hin)).
  - exact F.
  - exact (read_array_frame _ _ _ _ _ _ _ F Hda Ha).
  - exact (read_array_frame _ _ _ _ _ _ _ F Hdb Hb).
Qed.

Lemma operands_preserved_witness :
  let a := [max_word; 7] in
  let b := [max_word; max_word; 1] in
  let m := heap_of 160 a 80 b 0 [8; 8; 8; 8; 8] in
  call_ok m 160 a 80 b 0 [8; 8; 8; 8; 8] /\
  (length a + length b <= 5)%nat /\
  exists s',
    run (multiply_call 5 160 a 80 b 0) m = Done tt s' /\
    (forall addr, In (EvStore addr) (trace s') ->
       in_buffer 0 (length a + length b) addr /\
       ~ operand_cell 160 a 80 b addr) /\
    (forall addr, In (EvLoad addr) (trace s') ->
       in_buffer 0 (length a + length b) addr \/
       operand_cell 160 a 80 b addr) /\
    (forall addr, ~ in_buffer 0 (length a + length b) addr ->
       mem s' !! addr = m !! addr) /\
    read_array (mem s') 160 (length a) = Some a /\
    read_array (mem s') 80 (length b) = Some b.
Proof.
  intros a b m.
  assert (Hok : call_ok m 160 a 80 b 0 [8; 8; 8; 8; 8]) by concrete_call.
  assert (Hfuel : (length a + length b <= 5)%nat) by concrete.
  split; [exact Hok|]. split; [exact Hfuel|].
  exact (operands_preserved m 160 a 80 b 0 [8; 8; 8; 8; 8] 5 Hok Hfuel).
Defined.

Lemma result_of_call m pa a pb b pr r0 fuel :
  call_ok m pa a pb b pr r0 ->
  (length a + length b <= fuel)%nat ->
  result_of (run (multiply_call fuel pa a pb b pr) m) pr
            (length a + length b)
  = Some (multiply a b).
Proof.
  intros Hok Hfuel.
  destruct (kernel_run m pa a pb b pr r0 fuel Hok Hfuel)
    as (s' & E & Hr & _).
  rewrite E. exact Hr.
Qed.

(** C6. Multiplication on the word-array representation is commutative:
    the call with multiplicand [a] and multiplier [b] and the call with
    the operands exchanged leave the same L1+L2 words in their result
    buffers. *)
Theorem multiply_raw_commutative
    m pa a pb b pr r0 m' pa' pb' pr' r0' fuel :
  call_ok m pa a pb b pr r0 ->
  call_ok m' pa' b pb' a pr' r0' ->
  (length a + length b <= fuel)%nat ->
  exists r,
    length r = (length a + length b)%nat /\
    result_of (run (multiply_call fuel pa a pb b pr) m) pr
              (length a + length b) = Some r /\
    result_of (run (multiply_call fuel pa' b pb' a pr') m') pr'
              (length b + length a) = Some r.
Proof.
  intros Hok Hok' Hfuel.
  pose proof (multiplicand_words _ _ _ _ _ _ _ Hok) as Hwa.
  pose proof (multiplier_words _ _ _ _ _ _ _ Hok) as Hwb.
  destruct (multiply_spec a b Hwa Hwb) as (Hw & Hl & Hv).
  destruct (multiply_spec b a Hwb Hwa) as (Hw' & Hl' & Hv').
  exists (multiply a b). split; [exact Hl|]. split.
  - apply (result_of_call _ _ _ _ _ _ _ _ Hok Hfuel).
  - rewrite (result_of_call _ _ _ _ _ _ _ _ Hok') by lia.
    f_equal. apply bigint_value_inj; try assumption; [lia|].
    rewrite Hv, Hv'. ring.
Qed.

Lemma multiply_raw_commutative_witness :
  let a := [max_word; 2; 3] in
  let b := [max_word; max_word] in
  let m := heap_of 4096 a 8192 b 12288 [0; 1; 2; 3; 4] in
  let m' := heap_of 64 b 128 a 256 [9; 9; 9; 9; 9] in
  call_ok m 4096 a 8192 b 12288 [0; 1; 2; 3; 4] /\
  call_ok m' 64 b 128 a 256 [9; 9; 9; 9; 9] /\
  (length a + length b <= 5)%nat /\
  exists r,
    length r = (length a + length b)%nat /\
    result_of (run (multiply_call 5 4096 a 8192 b 12288) m) 12288
              (length a + length b) = Some r /\
    result_of (run (multiply_call 5 64 b 128 a 256) m') 256
              (length b + length a) = Some r.
Proof.
  intros a b m m'.
  assert (Hok : call_ok m 4096 a 8192 b 12288 [0; 1; 2; 3; 4])
    by concrete_call.
  assert (Hok' : call_ok m' 64 b 128 a 256 [9; 9; 9; 9; 9]) by concrete_call.
  assert (Hfuel : (length a + length b <= 5)%nat) by concrete.
  split; [exact Hok|]. split; [exact Hok'|]. split; [exact Hfuel|].
  exact (multiply_raw_commutative m 4096 a 8192 b 12288 [0; 1; 2; 3; 4]
           m' 64 128 256 [9; 9; 9; 9; 9] 5 Hok Hok' Hfuel).
Defined.

(** C7. One is a multiplicative identity up to zero-extension: with the
    one-element multiplier of value 1 the result is the L1 words of the
    multiplicand followed by one zero word. *)
Theorem multiply_raw_one m pa a pb pr r0 fuel :
  call_ok m pa a pb [1] pr r0 ->
  (length a + 1 <= fuel)%nat ->
  result_of (run (multiply_call fuel pa a pb [1] pr) m) pr (length a + 1)
  = Some (a ++ [0]).
Proof.
  intros Hok Hfuel.
  pose proof (multiplicand_words _ _ _ _ _ _ _ Hok) as Hwa.
  pose proof (multiplier_words _ _ _ _ _ _ _ Hok) as Hwb.
  destruct (multiply_spec a [1] Hwa Hwb) as (Hw & Hl & Hv).
  change (length a + 1)%nat with (length a + length [1])%nat.
  rewrite (result_of_call _ _ _ _ _ _ _ _ Hok) by exact Hfuel.
  f_equal. apply bigint_value_inj.
  - exact Hw.
  - apply Forall_app. split; [exact Hwa|].
    apply (Forall_word64_replicate 1).
  - rewrite Hl, length_app. reflexivity.
  - rewrite Hv, bigint_value_app. cbn [bigint_value]. ring.
Qed.

Lemma multiply_raw_one_witness :
  let a := [max_word; 0; 42] in
  let m := heap_of 4096 a 8192 [1] 12288 [6; 6; 6; 6] in
  call_ok m 4096 a 8192 [1] 12288 [6; 6; 6; 6] /\
  (length a + 1 <= 4)%nat /\
  result_of (run (multiply_call 4 4096 a 8192 [1] 12288) m) 12288
            (length a + 1)
  = Some (a ++ [0]).
Proof.
  intros a m.
  assert (Hok : call_ok m 4096 a 8192 [1] 12288 [6; 6; 6; 6])
    by concrete_call.
  assert (Hfuel : (length a + 1 <= 4)%nat) by concrete.
  split; [exact Hok|]. split; [exact Hfuel|].
  exact (multiply_raw_one m 4096 a 8192 12288 [6; 6; 6; 6] 4 Hok Hfuel).
Defined.

(** C8. For each of the three fixed RSA signature test vectors (MD5,
    SHA-1, SHA-256) the self-test passes: signing the plaintext with the
    private key gives exactly the reference signature, verifying that
    signature with the public key succeeds, and verifying an all-zero
    signature of the same length fails. *)
Theorem rsa_signature_tests_pass :
  rsa_test_exec = [(true, true, true); (true, true, true); (true, true, true)]
  /\ Forall signature_test_passes [md5_test; sha1_test; sha256_test].
Proof.
  split.
  - unfold rsa_test_exec.
    rewrite rsa_test_md5, rsa_test_sha1, rsa_test_sha256. reflexivity.
  - repeat constructor; apply rsa_signature_ok_passes.
    + exact rsa_test_md5.
    + exact rsa_test_sha1.
    + exact rsa_test_sha256.
Qed.

Lemma ld_d_Done p off s w :
  mem s !! ea p off = Some w ->
  ld_d p off s = Done w (mkState (mem s) (EvLoad (ea p off) :: trace s)).
Proof. intros H. unfold ld_d. rewrite H. reflexivity. Qed.

(** C9. When the multiplicand or the multiplier has no elements, no
    partial product is accumulated: the call does what the initial
    zeroing alone does to memory, makes no other store, and leaves the
    all-zero result of [multiplicand_size + multiplier_size] words, whose
    value is 0. *)
Theorem zero_length_operand m pa a pb b pr r0 fuel :
  call_ok m pa a pb b pr r0 ->
  length a = O \/ length b = O ->
  exists s1 s',
    run (memset_zero pr (Z.of_nat (length a + length b))) m = Done tt s1 /\
    run (multiply_call fuel pa a pb b pr) m = Done tt s' /\
    mem s' = mem s1 /\
    stores (trace s') = stores (trace s1) /\
    read_array (mem s') pr (length a + length b)
    = Some (replicate (length a + length b) 0) /\
    bigint_value (replicate (length a + length b) 0) = 0.
Proof.
  intros [Ha Hb Hr Hwa Hwb Hsz Hpa Hpb Hpr Hda Hdb] Hzero.
  set (n := (length a + length b)%nat) in *.
  destruct (memset_zero_tracks pr n (operand_cell pa a pb b)
              (mkState m []) r0 Hpr Hr)
    as (s1 & evs1 & E1 & [L1 A1 F1 _] & _ & _).
  cbn [mem] in F1.
  assert (Hmul : exists s',
    for_loop (length a) 0 (fun i =>
      let* multiplicand_element := ld_d (pa + 8 * i) 0 in
      for_loop (length b) 0 (fun j =>
        let* multiplier_element := ld_d (pb + 8 * j) 0 in
        mul_add_asm fuel (pr + 8 * uint (i + j))
                    multiplicand_element multiplier_element)) s1
    = Done tt s' /\
    mem s' = mem s1 /\ stores (trace s') = stores (trace s1)).
  { destruct Hzero as [Hz | Hz]; rewrite Hz.
    - exists s1. repeat split; reflexivity.
    - apply (for_loop_inv
        (fun _ s => mem s = mem s1 /\ stores (trace s) = stores (trace s1)));
        [split; reflexivity|].
      intros i s Hi [Hm Ht].
      apply read_array_spec in Ha as [_ Ha].
      destruct (lookup_lt_is_Some_2 a i Hi) as [x Hx].
      assert (Hld : mem s !! ea (pa + 8 * Z.of_nat i) 0 = Some x).
      { rewrite ea_small by (destruct Hpa; lia).
        rewrite Z.add_0_r, Hm, F1; [apply Ha, Hx|].
        apply (disjoint_not_in_buffer _ _ _ _ _ Hda Hi). }
      eexists. unfold bind. rewrite (ld_d_Done _ _ _ _ Hld).
      cbn [for_loop ret mem trace stores omap]. split; [reflexivity|].
      split; assumption. }
  destruct Hmul as (s' & E' & Hm & Ht).
  exists s1, s'. split; [exact E1|]. split; [|split; [|split; [|split]]].
  - unfold run, multiply_call, bigint_multiply_raw, bind.
    rewrite <- Nat2Z.inj_add. fold n. rewrite uint_small by lia.
    unfold run in E1. rewrite E1, !Nat2Z.id. exact E'.
  - exact Hm.
  - exact Ht.
  - rewrite Hm. apply read_array_spec. split; assumption.
  - apply bigint_value_replicate.
Qed.

Lemma zero_length_operand_witness :
  let a := [max_word; 5; max_word] in
  let m := heap_of 4096 a 8192 [] 12288 [1; 2; 3] in
  call_ok m 4096 a 8192 [] 12288 [1; 2; 3] /\
  (length a = O \/ length (@nil Z) = O) /\
  exists s1 s',
    run (memset_zero 12288 (Z.of_nat (length a + length (@nil Z)))) m
    = Done tt s1 /\
    run (multiply_call 0 4096 a 8192 [] 12288) m = Done tt s' /\
    mem s' = mem s1 /\
    stores (trace s') = stores (trace s1) /\
    read_array (mem s') 12288 (length a + length (@nil Z))
    = Some (replicate (length a + length (@nil Z)) 0) /\
    bigint_value (replicate (length a + length (@nil Z)) 0) = 0.
Proof.
  intros a m.
  assert (Hok : call_ok m 4096 a 8192 [] 12288 [1; 2; 3]) by concrete_call.
  assert (Hz : length a = O \/ length (@nil Z) = O) by (right; reflexivity).
  split; [exact Hok|]. split; [exact Hz|].
  exact (zero_length_operand m 4096 a 8192 [] 12288 [1; 2; 3] 0 Hok Hz).
Defined.

(** C10. The result does not depend on what the result buffer held
    before the call: from two heaps with the same operands and different
    prior contents [r1] and [r2] of the result buffer, the final result
    buffers are identical. *)
Theorem result_ignores_prior_contents m1 m2 pa a pb b pr r1 r2 fuel :
  call_ok m1 pa a pb b pr r1 ->
  call_ok m2 pa a pb b pr r2 ->
  (length a + length b <= fuel)%nat ->
  exists r,
    result_of (run (multiply_call fuel pa a pb b pr) m1) pr
              (length a + length b) = Some r /\
    result_of (run (multiply_call fuel pa a pb b pr) m2) pr
              (length a + length b) = Some r.
Proof.
  intros Hok1 Hok2 Hfuel. exists (multiply a b). split.
  - apply (result_of_call _ _ _ _ _ _ _ _ Hok1 Hfuel).
  - apply (result_of_call _ _ _ _ _ _ _ _ Hok2 Hfuel).
Qed.

Lemma result_ignores_prior_contents_witness :
  let a := [max_word; max_word] in
  let b := [max_word; 3] in
  let r1 := [0; 0; 0; 0] in
  let r2 := [max_word; max_word; max_word; max_word] in
  let m1 := heap_of 4096 a 8192 b 12288 r1 in
  let m2 := heap_of 4096 a 8192 b 12288 r2 in
  call_ok m1 4096 a 8192 b 12288 r1 /\
  call_ok m2 4096 a 8192 b 12288 r2 /\
  (length a + length b <= 4)%nat /\
  exists r,
    result_of (run (multiply_call 4 4096 a 8192 b 12288) m1) 12288
              (length a + length b) = Some r /\
    result_of (run (multiply_call 4 4096 a 8192 b 12288) m2) 12288
              (length a + length b) = Some r.
Proof.
  intros a b r1 r2 m1 m2.
  assert (Hok1 : call_ok m1 4096 a 8192 b 12288 r1) by concrete_call.
  assert (Hok2 : call_ok m2 4096 a 8192 b 12288 r2) by concrete_call.
  assert (Hfuel : (length a + length b <= 4)%nat) by concrete.
  split; [exact Hok1|]. split; [exact Hok2|]. split; [exact Hfuel|].
  exact (result_ignores_prior_contents m1 m2 4096 a 8192 b 12288 r1 r2 4
           Hok1 Hok2 Hfuel).
Defined.

(** * Further properties of the kernel *)

(** ** The assembly block on its own *)

Lemma tracks_mono pr n (rd rd' : Z -> Prop) s0 rs s :
  (forall addr, rd addr -> rd' addr) ->
  tracks pr n rd s0 rs s -> tracks pr n rd' s0 rs s.
Proof.
  intros Hsub [L A F (evs & T & Hacc)].
  split; [assumption | assumption | assumption |].
  exists evs. split; [assumption|].
  eapply Forall_impl; [exact Hacc|].
  intros [addr | addr]; cbn [access_ok]; [|tauto].
  intros [H | H]; [left | right; apply Hsub]; assumption.
Qed.

(** The block run on a heap whose buffer at [pr] holds [rs]. *)
Lemma mul_add_asm_run m pr rs k x y fuel :
  read_array m pr (length rs) = Some rs ->
  addressable pr (length rs) ->
  Forall word64 rs -> word64 x -> word64 y ->
  (S k < length rs)%nat ->
  bigint_value rs + x * y * BASE ^ Z.of_nat k
    < BASE ^ Z.of_nat (length rs) ->
  (length rs <= fuel)%nat ->
  exists s',
    run (mul_add_asm fuel (pr + 8 * Z.of_nat k) x y) m = Done tt s' /\
    tracks pr (length rs) (fun _ => False) (mkState m [])
           (add_product rs k x y) s'.
Proof.
  intros Hr Haddr Hw Hx Hy Hk Hfit Hfuel.
  apply read_array_spec in Hr as [_ Harr].
  destruct (split_at2 rs k Hk) as (l1 & w0 & w1 & l2 & Ers & El1).
  subst rs. rewrite <- El1.
  unfold run.
  apply (mul_add_asm_tracks pr _ (fun _ => False) (mkState m []) Haddr);
    try assumption.
  - apply tracks_refl; [reflexivity | exact Harr].
  - rewrite El1. exact Hfit.
  - rewrite length_app in Hfuel. cbn [length] in Hfuel. lia.
Qed.

(** X1. One execution of the assembly block on a result buffer that has
    room for the partial product adds [x * y * BASE^k] to the value held
    in the buffer, keeps every element a 64-bit word, touches nothing but
    the buffer and leaves the rest of the heap as it was. *)
Theorem mul_add_asm_adds_product m pr rs k x y fuel :
  read_array m pr (length rs) = Some rs ->
  addressable pr (length rs) ->
  Forall word64 rs -> word64 x -> word64 y ->
  (S k < length rs)%nat ->
  bigint_value rs + x * y * BASE ^ Z.of_nat k
    < BASE ^ Z.of_nat (length rs) ->
  (length rs <= fuel)%nat ->
  exists s' rs',
    run (mul_add_asm fuel (pr + 8 * Z.of_nat k) x y) m = Done tt s' /\
    read_array (mem s') pr (length rs) = Some rs' /\
    Forall word64 rs' /\
    bigint_value rs' = bigint_value rs + x * y * BASE ^ Z.of_nat k /\
    (forall addr, ~ in_buffer pr (length rs) addr ->
       mem s' !! addr = m !! addr) /\
    (forall e, In e (trace s') ->
       exists addr, (e = EvLoad addr \/ e = EvStore addr) /\
                    in_buffer pr (length rs) addr).
Proof.
  intros Hr Haddr Hw Hx Hy Hk Hfit Hfuel.
  destruct (mul_add_asm_run m pr rs k x y fuel Hr Haddr Hw Hx Hy Hk Hfit Hfuel)
    as (s' & E & [L A F (evs & T & Hacc)]).
  cbn [mem trace] in *. rewrite app_nil_r in T. subst evs.
  exists s', (add_product rs k x y). split; [exact E|].
  split; [|split; [|split; [|split]]].
  - apply read_array_spec. split; assumption.
  - apply add_product_words, Hw.
  - apply add_product_value; assumption.
  - exact F.
  - intros e Hin. rewrite Forall_forall in Hacc.
    apply list_elem_of_In, Hacc in Hin.
    destruct e as [addr | addr]; cbn [access_ok] in Hin; exists addr.
    + split; [left; reflexivity | tauto].
    + split; [right; reflexivity | exact Hin].
Qed.

Lemma mul_add_asm_adds_product_witness :
  let rs := [max_word; max_word; 0; 7] in
  let m := write_array 4096 rs ∅ in
  read_array m 4096 (length rs) = Some rs /\
  addressable 4096 (length rs) /\
  Forall word64 rs /\ word64 max_word /\ word64 5 /\
  (S 0 < length rs)%nat /\
  bigint_value rs + max_word * 5 * BASE ^ Z.of_nat 0
    < BASE ^ Z.of_nat (length rs) /\
  (length rs <= 4)%nat /\
  exists s' rs',
    run (mul_add_asm 4 (4096 + 8 * Z.of_nat 0) max_word 5) m = Done tt s' /\
    read_array (mem s') 4096 (length rs) = Some rs' /\
    Forall word64 rs' /\
    bigint_value rs' = bigint_value rs + max_word * 5 * BASE ^ Z.of_nat 0 /\
    (forall addr, ~ in_buffer 4096 (length rs) addr ->
       mem s' !! addr = m !! addr) /\
    (forall e, In e (trace s') ->
       exists addr, (e = EvLoad addr \/ e = EvStore addr) /\
                    in_buffer 4096 (length rs) addr).
Proof.
  intros rs m.
  assert (H1 : read_array m 4096 (length rs) = Some rs)
    by (vm_compute; reflexivity).
  assert (H2 : addressable 4096 (length rs)) by (split; concrete).
  assert (H3 : Forall word64 rs) by concrete_words.
  assert (H4 : word64 max_word) by (split; concrete).
  assert (H5 : word64 5) by (split; concrete).
  assert (H6 : (S 0 < length rs)%nat) by concrete.
  assert (H7 : bigint_value rs + max_word * 5 * BASE ^ Z.of_nat 0
               < BASE ^ Z.of_nat (length rs)) by concrete.
  assert (H8 : (length rs <= 4)%nat) by concrete.
  repeat (split; [assumption|]).
  exact (mul_add_asm_adds_product m 4096 rs 0 max_word 5 4
           H1 H2 H3 H4 H5 H6 H7 H8).
Defined.

Lemma two_word_sum w0 w1 x y :
  let T := w0 + BASE * w1 + x * y in
  let s0 := w0 + (x * y) mod BASE in
  let s1 := w1 + (x * y) / BASE + s0 / BASE in
  s0 mod BASE = T mod BASE /\ s1 = T / BASE.
Proof.
  intros T s0 s1. pose proof BASE_pos as HB.
  pose proof (Z.div_mod (x * y) BASE ltac:(lia)) as HP.
  pose proof (Z.div_mod s0 BASE ltac:(lia)) as Hs0.
  pose proof (Z.mod_pos_bound s0 BASE HB) as Hm0.
  assert (HT : T = s1 * BASE + s0 mod BASE) by (subst T s1 s0; lia).
  split.
  - rewrite HT, Z.add_comm, Z.mod_add by lia. symmetry. apply Z.mod_mod. lia.
  - rewrite HT, Z.div_add_l, (Z.div_small (s0 mod BASE)) by lia. lia.
Qed.

(** X2. When adding the product to the two words at [p] produces no
    carry out of the double word, the block makes exactly two loads and
    two stores, runs no iteration of the carry loop (so needs no fuel),
    and leaves the low and high word of the exact sum. *)
Theorem mul_add_asm_without_carry m p w0 w1 x y fuel :
  m !! p = Some w0 -> m !! (p + 8) = Some w1 ->
  0 <= p -> p + 8 < BASE ->
  word64 w0 -> word64 w1 -> word64 x -> word64 y ->
  w0 + BASE * w1 + x * y < BASE * BASE ->
  run (mul_add_asm fuel p x y) m
  = Done tt
      (mkState
         (<[p + 8 := (w0 + BASE * w1 + x * y) / BASE]>
            (<[p := (w0 + BASE * w1 + x * y) mod BASE]> m))
         [EvStore (p + 8); EvStore p; EvLoad (p + 8); EvLoad p]).
Proof.
  intros H0 H1 Hp Hp8 Hw0 Hw1 Hx Hy Hsmall.
  destruct (two_word_sum w0 w1 x y) as [E0 E1]. cbv zeta in E0, E1.
  pose proof BASE_pos as HB.
  assert (Hea0 : ea p 0 = p) by (rewrite ea_small; lia).
  assert (Hea8 : ea p 8 = p + 8) by (rewrite ea_small; lia).
  assert (HT0 : 0 <= w0 + BASE * w1 + x * y) by (unfold word64 in *; nia).
  assert (Hq : 0 <= (w0 + BASE * w1 + x * y) / BASE < BASE).
  { split; [apply Z.div_pos; lia | apply Z.div_lt_upper_bound; lia]. }
  unfold run, mul_add_asm, bind, ld_d. cbn [mem trace].
  rewrite Hea0, H0. cbn [mem trace]. rewrite Hea8, H1.
  rewrite mul_d_word, (mulh_du_word x y Hx Hy).
  rewrite add_pair_spec;
    [| apply word64_mod
     | rewrite <- (mulh_du_word x y Hx Hy); apply word64_mod
     | assumption | assumption].
  rewrite <- E1 in Hq. rewrite E0.
  rewrite (Z.mod_small _ BASE Hq), (Z.div_small _ BASE Hq), E1.
  unfold st_d. cbn [mem trace]. rewrite Hea0, H0. cbn [mem trace].
  rewrite Hea8, lookup_insert_ne, H1 by lia.
  reflexivity.
Qed.

Lemma mul_add_asm_without_carry_witness :
  let m := write_array 4096 [max_word; 0] ∅ in
  m !! 4096 = Some max_word /\ m !! (4096 + 8) = Some 0 /\
  0 <= 4096 /\ 4096 + 8 < BASE /\
  word64 max_word /\ word64 0 /\ word64 max_word /\ word64 max_word /\
  max_word + BASE * 0 + max_word * max_word < BASE * BASE /\
  run (mul_add_asm 0 4096 max_word max_word) m
  = Done tt
      (mkState
         (<[4096 + 8 := (max_word + BASE * 0 + max_word * max_word) / BASE]>
            (<[4096 := (max_word + BASE * 0 + max_word * max_word) mod BASE]>
               m))
         [EvStore (4096 + 8); EvStore 4096; EvLoad (4096 + 8); EvLoad 4096]).
Proof.
  intros m.
  assert (H0 : m !! 4096 = Some max_word) by (vm_compute; reflexivity).
  assert (H1 : m !! (4096 + 8) = Some 0) by (vm_compute; reflexivity).
  assert (H2 : 0 <= 4096) by lia.
  assert (H3 : 4096 + 8 < BASE) by concrete.
  assert (Hm : word64 max_word) by (split; concrete).
  assert (H4 : word64 0) by (split; concrete).
  assert (H5 : max_word + BASE * 0 + max_word * max_word < BASE * BASE)
    by concrete.
  split; [exact H0|]. split; [exact H1|]. split; [exact H2|].
  split; [exact H3|]. split; [exact Hm|]. split; [exact H4|].
  split; [exact Hm|]. split; [exact Hm|]. split; [exact H5|].
  exact (mul_add_asm_without_carry m 4096 max_word 0 max_word max_word 0
           H0 H1 H2 H3 Hm H4 Hm Hm H5).
Defined.

(** ** The carry loop on its own *)

Lemma write_array_insert p v q ws (m : gmap Z Z) :
  p < q ->
  write_array q ws (<[p := v]> m) = <[p := v]> (write_array q ws m).
Proof.
  revert q. induction ws as [|w ws IH]; intros q Hlt; cbn [write_array];
    [reflexivity|].
  rewrite IH by lia. apply insert_insert_ne. lia.
Qed.

Lemma carry_accesses_S p k :
  carry_accesses p (S k)
  = carry_accesses (p + 8) k ++ [EvStore p; EvLoad p].
Proof.
  unfold carry_accesses.
  change (seq 0 (S k)) with (0%nat :: seq 1 k).
  rewrite <- seq_shift. cbn [rev]. rewrite flat_map_app. cbn [flat_map].
  rewrite app_nil_r. f_equal.
  - rewrite <- map_rev, flat_map_concat_map, map_map,
      <- flat_map_concat_map.
    apply flat_map_ext. intros i.
    replace (p + 8 * Z.of_nat (S i)) with (p + 8 + 8 * Z.of_nat i) by lia.
    reflexivity.
  - change (Z.of_nat 0) with 0. rewrite Z.mul_0_r, Z.add_0_r. reflexivity.
Qed.

Lemma carry_loop_exact k :
  forall p s w fuel,
    (forall i : nat, (i < k)%nat ->
       mem s !! (p + 8 * Z.of_nat i) = Some max_word) ->
    mem s !! (p + 8 * Z.of_nat k) = Some w ->
    0 <= w < max_word ->
    0 <= p -> p + 8 * Z.of_nat k < BASE ->
    (k < fuel)%nat ->
    carry_loop fuel p 1 s
    = Done tt (mkState (write_array p (replicate k 0 ++ [w + 1]) (mem s))
                       (carry_accesses p (S k) ++ trace s)).
Proof.
  induction k as [|k IH]; intros p s w fuel Hmax Hw Hwr Hp Hend Hfuel;
    (destruct fuel as [|fuel]; [lia|]).
  - change (Z.of_nat 0) with 0 in *. rewrite Z.mul_0_r, Z.add_0_r in *.
    assert (Hea : ea p 0 = p) by (rewrite ea_small; lia).
    cbn [carry_loop]. unfold bind, ld_d, st_d. rewrite Hea, Hw.
    cbn [mem trace]. rewrite Hw.
    assert (Hadd : add_d w 1 = w + 1).
    { unfold add_d. apply Z.mod_small. unfold max_word in Hwr. lia. }
    rewrite Hadd. unfold sltu.
    destruct (Z.ltb_spec (w + 1) 1) as [Hlt | _]; [lia|].
    change (0 =? 0) with true. cbv iota. unfold ret.
    rewrite carry_accesses_S. reflexivity.
  - assert (Hea : ea p 0 = p) by (rewrite ea_small; lia).
    pose proof (Hmax O ltac:(lia)) as H0.
    change (Z.of_nat 0) with 0 in H0. rewrite Z.mul_0_r, Z.add_0_r in H0.
    cbn [carry_loop]. unfold bind, ld_d, st_d. rewrite Hea, H0.
    cbn [mem trace]. rewrite H0.
    assert (Hadd : add_d max_word 1 = 0) by reflexivity.
    rewrite Hadd. change (sltu 0 1) with 1. change (1 =? 0) with false.
    cbv iota.
    assert (Hnext : addi_d p 8 = p + 8).
    { unfold addi_d. apply Z.mod_small. lia. }
    rewrite Hnext.
    rewrite (IH (p + 8) _ w fuel); cbn [mem trace].
    + f_equal. f_equal.
      * cbn [replicate app write_array].
        apply write_array_insert. lia.
      * rewrite (carry_accesses_S p (S k)), <- app_assoc. reflexivity.
    + intros i Hi. rewrite lookup_insert_ne by lia.
      replace (p + 8 + 8 * Z.of_nat i) with (p + 8 * Z.of_nat (S i)) by lia.
      apply Hmax. lia.
    + rewrite lookup_insert_ne by lia.
      replace (p + 8 + 8 * Z.of_nat k) with (p + 8 * Z.of_nat (S k)) by lia.
      exact Hw.
    + exact Hwr.
    + lia.
    + lia.
    + lia.
Qed.

(** X3. The carry loop started with a carry at [p] runs one iteration per
    word it finds at the maximum plus one: [k] maximal words followed by
    a word [w] below the maximum become [k] zero words followed by
    [w + 1], in exactly [k + 1] load-store pairs.  The trip count is
    decided by the data. *)
Theorem carry_loop_trip_count m p k w fuel :
  read_array m p (S k) = Some (replicate k max_word ++ [w]) ->
  0 <= w < max_word ->
  0 <= p -> p + 8 * Z.of_nat k < BASE ->
  (k < fuel)%nat ->
  run (carry_loop fuel p 1) m
  = Done tt (mkState (write_array p (replicate k 0 ++ [w + 1]) m)
                     (carry_accesses p (S k))).
Proof.
  intros Hr Hw Hp Hend Hfuel.
  apply read_array_spec in Hr as [_ Harr].
  unfold run.
  rewrite (carry_loop_exact k p (mkState m []) w fuel); cbn [mem trace];
    try assumption.
  - rewrite app_nil_r. reflexivity.
  - intros i Hi. apply Harr.
    rewrite lookup_app_l by (rewrite length_replicate; lia).
    apply lookup_replicate_2, Hi.
  - apply Harr. rewrite lookup_app_r by (rewrite length_replicate; lia).
    rewrite length_replicate, Nat.sub_diag. reflexivity.
Qed.

Lemma carry_loop_trip_count_witness :
  let m := write_array 800 [max_word; max_word; max_word; 41; 9] ∅ in
  read_array m 800 (S 3) = Some (replicate 3 max_word ++ [41]) /\
  0 <= 41 < max_word /\
  0 <= 800 /\ 800 + 8 * Z.of_nat 3 < BASE /\
  (3 < 4)%nat /\
  run (carry_loop 4 800 1) m
  = Done tt (mkState (write_array 800 (replicate 3 0 ++ [41 + 1]) m)
                     (carry_accesses 800 (S 3))).
Proof.
  intros m.
  assert (H1 : read_array m 800 (S 3) = Some (replicate 3 max_word ++ [41]))
    by (vm_compute; reflexivity).
  assert (H2 : 0 <= 41 < max_word) by (split; concrete).
  assert (H3 : 0 <= 800) by lia.
  assert (H4 : 800 + 8 * Z.of_nat 3 < BASE) by concrete.
  assert (H5 : (3 < 4)%nat) by lia.
  repeat (split; [assumption|]).
  exact (carry_loop_trip_count m 800 3 41 4 H1 H2 H3 H4 H5).
Defined.

(** ** What the block does when the sum does not fit *)

Lemma partial_product_bound rs k x y :
  Forall word64 rs -> word64 x -> word64 y -> (S k < length rs)%nat ->
  0 <= x * y * BASE ^ Z.of_nat k < BASE ^ Z.of_nat (length rs).
Proof.
  intros Hw Hx Hy Hk.
  replace (length rs) with (k + (2 + (length rs - k - 2)))%nat by lia.
  rewrite !BASE_pow_add.
  pose proof (BASE_pow_pos k). pose proof (BASE_pow_pos (length rs - k - 2)).
  change (BASE ^ Z.of_nat 2) with (BASE * BASE).
  pose proof BASE_pos. unfold word64 in *.
  assert (0 <= x * y < BASE * BASE) by nia.
  assert (BASE * BASE <= BASE * BASE * BASE ^ Z.of_nat (length rs - k - 2))
    by nia.
  nia.
Qed.

(** X4. The carry loop has no bound of its own.  When the buffer of
    [length rs] words cannot hold the sum, the block carries into the
    word behind the buffer: a word [w] below the maximum that lies there
    becomes [w + 1], and the buffer keeps the sum reduced modulo
    [BASE ^ length rs]. *)
Theorem mul_add_asm_carries_past_end m pr rs w k x y fuel :
  read_array m pr (S (length rs)) = Some (rs ++ [w]) ->
  addressable pr (S (length rs)) ->
  Forall word64 rs -> 0 <= w < max_word -> word64 x -> word64 y ->
  (S k < length rs)%nat ->
  BASE ^ Z.of_nat (length rs)
    <= bigint_value rs + x * y * BASE ^ Z.of_nat k ->
  (S (length rs) <= fuel)%nat ->
  exists s' rs',
    run (mul_add_asm fuel (pr + 8 * Z.of_nat k) x y) m = Done tt s' /\
    read_array (mem s') pr (length rs) = Some rs' /\
    bigint_value rs'
    = bigint_value rs + x * y * BASE ^ Z.of_nat k
      - BASE ^ Z.of_nat (length rs) /\
    mem s' !! (pr + 8 * Z.of_nat (length rs)) = Some (w + 1).
Proof.
  intros Hr Haddr Hw Hwr Hx Hy Hk Hover Hfuel.
  set (n := length rs) in *.
  pose proof (bigint_value_bound rs Hw) as Hb. fold n in Hb.
  pose proof (partial_product_bound rs k x y Hw Hx Hy Hk) as Hpp. fold n in Hpp.
  pose proof (BASE_pow_pos n) as HBn. pose proof BASE_pos as HB.
  assert (Hww : word64 w) by (unfold word64, max_word in *; lia).
  assert (Hext : Forall word64 (rs ++ [w])).
  { apply Forall_app. split; [assumption|]. constructor; [assumption|constructor]. }
  assert (Hlen : length (rs ++ [w]) = S n)
    by (rewrite length_app; cbn [length]; lia).
  assert (Hval : bigint_value (rs ++ [w])
                 = bigint_value rs + BASE ^ Z.of_nat n * w).
  { rewrite bigint_value_app. cbn [bigint_value]. fold n. lia. }
  assert (Hfit : bigint_value (rs ++ [w]) + x * y * BASE ^ Z.of_nat k
                 < BASE ^ Z.of_nat (length (rs ++ [w]))).
  { rewrite Hlen, Hval, BASE_pow_S. unfold max_word in Hwr. nia. }
  rewrite <- Hlen in Hr, Haddr, Hfuel.
  assert (Hk' : (S k < length (rs ++ [w]))%nat) by (rewrite Hlen; lia).
  destruct (mul_add_asm_run m pr (rs ++ [w]) k x y fuel
              Hr Haddr Hext Hx Hy Hk' Hfit Hfuel) as (s' & E & [L A F _]).
  pose proof (add_product_words (rs ++ [w]) k x y Hext) as Hw'.
  pose proof (add_product_length (rs ++ [w]) k x y) as Hl'.
  pose proof (add_product_value (rs ++ [w]) k x y Hext Hx Hy Hk' Hfit) as Hv'.
  rewrite Hlen in Hl'. rewrite Hval in Hv'.
  destruct (add_product (rs ++ [w]) k x y) as [|w' rs' _] using rev_ind;
    [cbn in Hl'; lia|].
  rewrite length_app in Hl'. cbn [length] in Hl'.
  assert (Hl : length rs' = n) by lia.
  apply Forall_app in Hw' as [Hrs' Hw'].
  apply Forall_cons in Hw' as [Hw' _].
  pose proof (bigint_value_bound rs' Hrs') as Hb'. rewrite Hl in Hb'.
  rewrite bigint_value_app in Hv'. cbn [bigint_value] in Hv'.
  rewrite Hl in Hv'. unfold word64 in Hw'.
  assert (Hlast : w' = w + 1) by nia. subst w'.
  exists s', rs'. split; [exact E|]. split; [|split].
  - apply read_array_spec. split; [exact Hl|].
    intros i v Hi. apply A. rewrite lookup_app_l; [exact Hi|].
    apply lookup_lt_Some in Hi. lia.
  - lia.
  - rewrite <- Hl. apply A.
    rewrite lookup_app_r, Nat.sub_diag by lia. reflexivity.
Qed.

Lemma mul_add_asm_carries_past_end_witness :
  let rs := [max_word; max_word; max_word] in
  let m := write_array 4096 (rs ++ [77]) ∅ in
  read_array m 4096 (S (length rs)) = Some (rs ++ [77]) /\
  addressable 4096 (S (length rs)) /\
  Forall word64 rs /\ 0 <= 77 < max_word /\ word64 2 /\ word64 3 /\
  (S 1 < length rs)%nat /\
  BASE ^ Z.of_nat (length rs)
    <= bigint_value rs + 2 * 3 * BASE ^ Z.of_nat 1 /\
  (S (length rs) <= 4)%nat /\
  exists s' rs',
    run (mul_add_asm 4 (4096 + 8 * Z.of_nat 1) 2 3) m = Done tt s' /\
    read_array (mem s') 4096 (length rs) = Some rs' /\
    bigint_value rs'
    = bigint_value rs + 2 * 3 * BASE ^ Z.of_nat 1
      - BASE ^ Z.of_nat (length rs) /\
    mem s' !! (4096 + 8 * Z.of_nat (length rs)) = Some (77 + 1).
Proof.
  intros rs m.
  assert (H1 : read_array m 4096 (S (length rs)) = Some (rs ++ [77]))
    by (vm_compute; reflexivity).
  assert (H2 : addressable 4096 (S (length rs))) by (split; concrete).
  assert (H3 : Forall word64 rs) by concrete_words.
  assert (H4 : 0 <= 77 < max_word) by (split; concrete).
  assert (H5 : word64 2) by (split; concrete).
  assert (H6 : word64 3) by (split; concrete).
  assert (H7 : (S 1 < length rs)%nat) by concrete.
  assert (H8 : BASE ^ Z.of_nat (length rs)
               <= bigint_value rs + 2 * 3 * BASE ^ Z.of_nat 1) by concrete.
  assert (H9 : (S (length rs) <= 4)%nat) by concrete.
  repeat (split; [assumption|]).
  exact (mul_add_asm_carries_past_end m 4096 rs 77 1 2 3 4
           H1 H2 H3 H4 H5 H6 H7 H8 H9).
Defined.

(** ** The loop nest, row by row *)

Lemma bigint_multiply_raw_rows fuel pa sa pb sb pr :
  bigint_multiply_raw fuel pa sa pb sb pr
  = (memset_zero pr (uint (sa + sb)) ;;
     multiply_rows fuel pa pb sb pr (Z.to_nat sa)).
Proof. reflexivity. Qed.

Lemma operand_loads_app pr n t1 t2 :
  operand_loads pr n (t1 ++ t2)
  = operand_loads pr n t2 ++ operand_loads pr n t1.
Proof. unfold operand_loads. rewrite omap_app, rev_app_distr. reflexivity. Qed.

Lemma operand_loads_inside pr n evs :
  Forall (access_ok pr n (fun _ => False)) evs -> operand_loads pr n evs = [].
Proof.
  unfold operand_loads. intros H. replace (omap _ evs) with (@nil Z);
    [reflexivity|].
  induction H as [|e evs He _ IH]; [reflexivity|].
  cbn [omap list_omap]. destruct e as [addr | addr]; cbn [access_ok] in He.
  - destruct (decide (in_buffer pr n addr)) as [_ | Hout];
      [exact IH | tauto].
  - exact IH.
Qed.

Lemma operand_loads_outside pr n addr tr :
  ~ in_buffer pr n addr ->
  operand_loads pr n (EvLoad addr :: tr) = operand_loads pr n tr ++ [addr].
Proof.
  intros Hout. unfold operand_loads. cbn [omap list_omap].
  destruct (decide (in_buffer pr n addr)) as [Hin | _]; [tauto|].
  reflexivity.
Qed.

Lemma operand_load_order_S pa i pb cols :
  operand_load_order pa (S i) pb cols
  = operand_load_order pa i pb cols
    ++ (pa + 8 * Z.of_nat i)
       :: map (fun j => pb + 8 * Z.of_nat j) (seq 0 cols).
Proof.
  unfold operand_load_order. rewrite seq_S, flat_map_app. cbn [flat_map].
  rewrite app_nil_r. reflexivity.
Qed.

Lemma ld_outside_exact pr n rd s0 rs s p w :
  tracks pr n rd s0 rs s -> 0 <= p < BASE ->
  ~ in_buffer pr n p -> rd p -> mem s0 !! p = Some w ->
  ld_d p 0 s = Done w (mkState (mem s) (EvLoad p :: trace s)) /\
  tracks pr n rd s0 rs (mkState (mem s) (EvLoad p :: trace s)).
Proof.
  intros T Hr Hout Hrd Hw.
  assert (Hea : ea p 0 = p) by (rewrite ea_small; lia).
  destruct T as [L A F (evs & Tr & Hacc)].
  split.
  - rewrite <- Hea at 2. apply ld_d_Done. rewrite Hea, (F _ Hout). exact Hw.
  - split; cbn [mem trace]; [assumption | assumption | assumption |].
    exists (EvLoad p :: evs). split; [rewrite Tr; reflexivity|].
    constructor; [right; exact Hrd | exact Hacc].
Qed.

(** The first [i] rows of the loop nest, run on a zeroed result. *)
Lemma multiply_rows_sim s1 pa a pb b pr fuel i :
  call_ok (mem s1) pa a pb b pr (replicate (length a + length b) 0) ->
  (i <= length a)%nat ->
  (length a + length b <= fuel)%nat ->
  exists s',
    multiply_rows fuel pa pb (Z.of_nat (length b)) pr i s1 = Done tt s' /\
    tracks pr (length a + length b) (operand_cell pa a pb b) s1
           (rows_upto a b i) s' /\
    operand_loads pr (length a + length b) (trace s')
    = operand_loads pr (length a + length b) (trace s1)
      ++ operand_load_order pa i pb (length b).
Proof.
  intros [Ha Hb Hr Hwa Hwb Hsz Hpa Hpb Hpr Hda Hdb] Hi Hfuel.
  set (n := (length a + length b)%nat) in *.
  set (rd := operand_cell pa a pb b).
  apply read_array_spec in Ha as [_ Ha]. apply read_array_spec in Hb as [_ Hb].
  apply read_array_spec in Hr as [Hrl Hr].
  unfold multiply_rows. rewrite Nat2Z.id.
  apply (for_loop_inv
    (fun k s => tracks pr n rd s1 (rows_upto a b k) s /\
                operand_loads pr n (trace s)
                = operand_loads pr n (trace s1)
                  ++ operand_load_order pa k pb (length b))).
  - split; [apply tracks_refl; assumption|].
    unfold operand_load_order. cbn [seq flat_map]. rewrite app_nil_r.
    reflexivity.
  - intros k s Hk [Tk Lk].
    destruct (lookup_lt_is_Some_2 a k ltac:(lia)) as [x Hx].
    pose proof (Forall_lookup_1 _ _ _ _ Hwa Hx) as Hxw.
    assert (Houta : ~ in_buffer pr n (pa + 8 * Z.of_nat k))
      by (apply (disjoint_not_in_buffer _ _ _ _ _ Hda); lia).
    destruct (ld_outside_exact pr n rd s1 _ s (pa + 8 * Z.of_nat k) x Tk)
      as (E2 & T2).
    { destruct Hpa. lia. }
    { exact Houta. }
    { left. apply in_buffer_element. lia. }
    { apply Ha, Hx. }
    unfold bind at 1. rewrite E2.
    rewrite rows_upto_S, operand_load_order_S,
      (nth_lookup_Some a k 0 x Hx). unfold row.
    apply (for_loop_inv
      (fun j s =>
         tracks pr n rd s1 (row_upto b x k j (rows_upto a b k)) s /\
         operand_loads pr n (trace s)
         = operand_loads pr n (trace s1)
           ++ operand_load_order pa k pb (length b)
           ++ (pa + 8 * Z.of_nat k)
              :: map (fun j => pb + 8 * Z.of_nat j) (seq 0 j))).
    + split; [exact T2|]. cbn [trace seq map].
      rewrite (operand_loads_outside _ _ _ _ Houta), Lk, <- app_assoc.
      reflexivity.
    + intros j s3 Hj [Tj Lj].
      destruct (lookup_lt_is_Some_2 b j Hj) as [y Hy].
      pose proof (Forall_lookup_1 _ _ _ _ Hwb Hy) as Hyw.
      assert (Houtb : ~ in_buffer pr n (pb + 8 * Z.of_nat j))
        by (apply (disjoint_not_in_buffer _ _ _ _ _ Hdb); lia).
      destruct (ld_outside_exact pr n rd s1 _ s3 (pb + 8 * Z.of_nat j) y Tj)
        as (E4 & T4).
      { destruct Hpb. lia. }
      { exact Houtb. }
      { right. apply in_buffer_element, Hj. }
      { apply Hb, Hy. }
      unfold bind. rewrite E4.
      set (s4 := mkState (mem s3) (EvLoad (pb + 8 * Z.of_nat j) :: trace s3))
        in *.
      rewrite <- Nat2Z.inj_add, uint_small by lia.
      rewrite row_upto_S, (nth_lookup_Some b j 0 y Hy).
      destruct (pair_fits a b k j Hwa Hwb ltac:(lia) Hj) as (Hw & Hl & Hfit).
      rewrite (nth_lookup_Some a k 0 x Hx),
              (nth_lookup_Some b j 0 y Hy) in *.
      set (r := row_upto b x k j (rows_upto a b k)) in *.
      destruct (split_at2 r (k + j)) as (l1 & w0 & w1 & l2 & Er & El1);
        [lia|].
      rewrite Er in *. rewrite <- El1.
      destruct (mul_add_asm_tracks pr n (fun _ => False) s4 Hpr
                  l1 w0 w1 l2 x y fuel s4) as (s5 & E5 & T5);
        try assumption.
      * apply tracks_refl; [exact Hl|]. apply (tracks_array _ _ _ _ _ _ T4).
      * rewrite El1. exact Hfit.
      * rewrite length_app in Hl. cbn [length] in Hl. lia.
      * exists s5. split; [exact E5|]. split.
        -- apply (tracks_trans _ _ _ _ _ _ _ _ T4).
           apply (tracks_mono _ _ (fun _ => False)); [tauto | exact T5].
        -- destruct (tracks_trace _ _ _ _ _ _ T5) as (evs & -> & Hacc).
           rewrite operand_loads_app, (operand_loads_inside _ _ _ Hacc).
           unfold s4. cbn [trace].
           rewrite (operand_loads_outside _ _ _ _ Houtb), Lj.
           rewrite seq_S, map_app. cbn [map app].
           rewrite <- !app_assoc. reflexivity.
Qed.

Lemma memset_trace k :
  forall st pr s s',
    for_loop k (Z.of_nat st) (fun j => st_d 0 (pr + 8 * j) 0) s = Done tt s' ->
    trace s'
    = rev (map (fun j => EvStore (ea (pr + 8 * Z.of_nat j) 0)) (seq st k))
      ++ trace s.
Proof.
  induction k as [|k IH]; intros st pr s s' E.
  - cbn in E. injection E as <-. reflexivity.
  - cbn [for_loop] in E. unfold bind in E.
    destruct (st_d 0 (pr + 8 * Z.of_nat st) 0 s) as [[] s2| |] eqn:E2;
      try discriminate.
    replace (Z.of_nat st + 1) with (Z.of_nat (S st)) in E by lia.
    rewrite (IH _ _ _ _ E), (st_d_trace _ _ _ _ _ E2).
    cbn [seq map rev]. rewrite <- app_assoc. reflexivity.
Qed.

(** The call in its two phases: zeroing, then [i] rows. *)
Lemma kernel_phases m pa a pb b pr r0 fuel i :
  call_ok m pa a pb b pr r0 ->
  (i <= length a)%nat ->
  (length a + length b <= fuel)%nat ->
  exists s1 s',
    memset_zero pr (Z.of_nat (length a + length b)) (mkState m [])
    = Done tt s1 /\
    trace s1
    = rev (map (fun j => EvStore (pr + 8 * Z.of_nat j))
               (seq 0 (length a + length b))) /\
    multiply_rows fuel pa pb (Z.of_nat (length b)) pr i s1 = Done tt s' /\
    tracks pr (length a + length b) (operand_cell pa a pb b) s1
           (rows_upto a b i) s' /\
    operand_loads pr (length a + length b) (trace s')
    = operand_load_order pa i pb (length b).
Proof.
  intros Hok Hi Hfuel. pose proof Hok as Hok'.
  destruct Hok' as [Ha Hb Hr Hwa Hwb Hsz Hpa Hpb Hpr Hda Hdb].
  set (n := (length a + length b)%nat) in *.
  destruct (memset_zero_tracks pr n (operand_cell pa a pb b)
              (mkState m []) r0 Hpr Hr)
    as (s1 & evs1 & E1 & [L1 A1 F1 _] & _ & _).
  cbn [mem] in F1.
  assert (Htr : trace s1 = rev (map (fun j => EvStore (pr + 8 * Z.of_nat j))
                                    (seq 0 n))).
  { pose proof E1 as E1'. unfold memset_zero in E1'. rewrite Nat2Z.id in E1'.
    rewrite (memset_trace n O pr _ _ E1'). cbn [trace]. rewrite app_nil_r.
    f_equal. apply map_ext_in. intros j Hj. apply in_seq in Hj.
    destruct Hpr. rewrite ea_small by lia. f_equal. lia. }
  assert (Hok1 : call_ok (mem s1) pa a pb b pr (replicate n 0)).
  { split; try assumption.
    - apply (read_array_frame m _ pr n); [exact F1 | exact Hda | exact Ha].
    - apply (read_array_frame m _ pr n); [exact F1 | exact Hdb | exact Hb].
    - apply read_array_spec. split; assumption. }
  destruct (multiply_rows_sim s1 pa a pb b pr fuel i Hok1 Hi Hfuel)
    as (s' & E' & T' & Hl).
  exists s1, s'. split; [exact E1|]. split; [exact Htr|].
  split; [exact E'|]. split; [exact T'|].
  fold n in Hl. rewrite Hl, Htr.
  replace (operand_loads pr n _) with (@nil Z); [reflexivity|].
  symmetry. apply operand_loads_inside.
  apply Forall_rev, Forall_map, Forall_forall.
  intros j Hj. apply elem_of_seq in Hj. cbn [access_ok].
  apply in_buffer_element. lia.
Qed.

Lemma multiply_call_phases m pa a pb b pr fuel s1 s' :
  Z.of_nat (length a + length b) < 2 ^ 32 ->
  memset_zero pr (Z.of_nat (length a + length b)) (mkState m [])
  = Done tt s1 ->
  multiply_rows fuel pa pb (Z.of_nat (length b)) pr (length a) s1
  = Done tt s' ->
  run (multiply_call fuel pa a pb b pr) m = Done tt s'.
Proof.
  intros Hsz E1 E'. unfold run, multiply_call.
  rewrite bigint_multiply_raw_rows. unfold bind.
  rewrite <- Nat2Z.inj_add, uint_small by lia.
  rewrite E1, Nat2Z.id. exact E'.
Qed.

(** X5. The outer loop keeps the invariant that makes the kernel correct:
    after the zeroing and the first [i] iterations of the outer loop the
    result buffer holds the product of the [i] low words of the
    multiplicand and the whole multiplier. *)
Theorem rows_partial_product m pa a pb b pr r0 fuel i :
  call_ok m pa a pb b pr r0 ->
  (i <= length a)%nat ->
  (length a + length b <= fuel)%nat ->
  exists s' r,
    run (memset_zero pr (Z.of_nat (length a + length b)) ;;
         multiply_rows fuel pa pb (Z.of_nat (length b)) pr i) m
    = Done tt s' /\
    read_array (mem s') pr (length a + length b) = Some r /\
    Forall word64 r /\
    bigint_value r = bigint_value (take i a) * bigint_value b.
Proof.
  intros Hok Hi Hfuel.
  destruct (kernel_phases m pa a pb b pr r0 fuel i Hok Hi Hfuel)
    as (s1 & s' & E1 & _ & E' & [L A _ _] & _).
  destruct (rows_upto_spec a b i (multiplicand_words _ _ _ _ _ _ _ Hok)
              (multiplier_words _ _ _ _ _ _ _ Hok) Hi) as (Hw & _ & Hv).
  exists s', (rows_upto a b i). split; [|split; [|split]].
  - unfold run, bind. rewrite E1. exact E'.
  - apply read_array_spec. split; assumption.
  - exact Hw.
  - exact Hv.
Qed.

Lemma rows_partial_product_witness :
  let a := [max_word; 2; 3] in
  let b := [max_word; max_word] in
  let m := heap_of 4096 a 8192 b 12288 [1; 1; 1; 1; 1] in
  call_ok m 4096 a 8192 b 12288 [1; 1; 1; 1; 1] /\
  (2 <= length a)%nat /\
  (length a + length b <= 5)%nat /\
  exists s' r,
    run (memset_zero 12288 (Z.of_nat (length a + length b)) ;;
         multiply_rows 5 4096 8192 (Z.of_nat (length b)) 12288 2) m
    = Done tt s' /\
    read_array (mem s') 12288 (length a + length b) = Some r /\
    Forall word64 r /\
    bigint_value r = bigint_value (take 2 a) * bigint_value b.
Proof.
  intros a b m.
  assert (Hok : call_ok m 4096 a 8192 b 12288 [1; 1; 1; 1; 1])
    by concrete_call.
  assert (Hi : (2 <= length a)%nat) by concrete.
  assert (Hfuel : (length a + length b <= 5)%nat) by concrete.
  split; [exact Hok|]. split; [exact Hi|]. split; [exact Hfuel|].
  exact (rows_partial_product m 4096 a 8192 b 12288 [1; 1; 1; 1; 1] 5 2
           Hok Hi Hfuel).
Defined.



Lemma load_after_stores (evs2 evs1 : list event) :
  forall tr1 addr tr2,
    evs2 ++ evs1 = tr1 ++ EvLoad addr :: tr2 ->
    ~ In (EvLoad addr) evs1 ->
    exists t, tr2 = t ++ evs1.
Proof.
  induction evs2 as [|e evs2 IH]; intros tr1 addr tr2 E Hno.
  - cbn [app] in E. exfalso. apply Hno. rewrite E.
    apply in_or_app. right. left. reflexivity.
  - destruct tr1 as [|e' tr1]; cbn [app] in E.
    + injection E as _ <-. exists evs2. reflexivity.
    + injection E as _ E. exact (IH _ _ _ E Hno).
Qed.

(** X7. The kernel never loads a result element that it has not stored
    to before: every load from the result buffer comes later in the
    trace than a store to the same address. *)
Theorem no_load_before_store m pa a pb b pr r0 fuel :
  call_ok m pa a pb b pr r0 ->
  (length a + length b <= fuel)%nat ->
  exists s',
    run (multiply_call fuel pa a pb b pr) m = Done tt s' /\
    forall later addr earlier,
      trace s' = later ++ EvLoad addr :: earlier ->
      in_buffer pr (length a + length b) addr ->
      In (EvStore addr) earlier.
Proof.
  intros Hok Hfuel.
  destruct (kernel_phases m pa a pb b pr r0 fuel (length a) Hok
              ltac:(lia) Hfuel)
    as (s1 & s' & E1 & Htr1 & E' & [_ _ _ (evs & Htr & _)] & _).
  exists s'. split.
  - apply (multiply_call_phases _ _ _ _ _ _ _ s1);
      [exact (sizes_fit _ _ _ _ _ _ _ Hok) | exact E1 | exact E'].
  - intros later addr earlier Hsplit Hin. rewrite Htr in Hsplit.
    destruct (load_after_stores _ _ _ _ _ Hsplit) as (t & ->).
    + rewrite Htr1, <- in_rev, in_map_iff. intros (j & Hj & _). discriminate.
    + apply in_or_app. right.
      apply in_buffer_inv in Hin as (k & Hk & ->).
      rewrite Htr1, <- in_rev. apply in_map_iff. exists k.
      split; [reflexivity | apply in_seq; lia].
Qed.

Lemma no_load_before_store_witness :
  let a := [max_word; max_word] in
  let b := [max_word; max_word] in
  let m := heap_of 4096 a 8192 b 12288 [5; 6; 7; 8] in
  call_ok m 4096 a 8192 b 12288 [5; 6; 7; 8] /\
  (length a + length b <= 4)%nat /\
  exists s',
    run (multiply_call 4 4096 a 8192 b 12288) m = Done tt s' /\
    forall later addr earlier,
      trace s' = later ++ EvLoad addr :: earlier ->
      in_buffer 12288 (length a + length b) addr ->
      In (EvStore addr) earlier.
Proof.
  intros a b m.
  assert (Hok : call_ok m 4096 a 8192 b 12288 [5; 6; 7; 8]) by concrete_call.
  assert (Hfuel : (length a + length b <= 4)%nat) by concrete.
  split; [exact Hok|]. split; [exact Hfuel|].
  exact (no_load_before_store m 4096 a 8192 b 12288 [5; 6; 7; 8] 4
           Hok Hfuel).
Defined.

(** ** Aliased buffers *)

Lemma add_product_zero n k y :
  (S k < n)%nat -> word64 y ->
  add_product (replicate n 0) k 0 y = replicate n 0.
Proof.
  intros Hk Hy.
  assert (H0 : word64 0) by (split; [lia | reflexivity]).
  pose proof (Forall_word64_replicate n) as Hz.
  pose proof (BASE_pow_pos n) as HB.
  apply bigint_value_inj.
  - apply add_product_words, Hz.
  - exact Hz.
  - rewrite add_product_length. reflexivity.
  - rewrite add_product_value; try assumption.
    + rewrite bigint_value_replicate. lia.
    + rewrite length_replicate. exact Hk.
    + rewrite bigint_value_replicate, length_replicate. lia.
Qed.

(** X8. Multiplying in place does not work: when the multiplicand lies
    inside the result buffer, the initial zeroing destroys it before it
    is read, and the call returns with an all-zero result whatever the
    operands were. *)
Theorem multiplicand_in_result_gives_zero m pb b pr r0 (o size : nat) fuel :
  read_array m pb (length b) = Some b ->
  read_array m pr (size + length b) = Some r0 ->
  Forall word64 b ->
  Z.of_nat (size + length b) < 2 ^ 32 ->
  addressable pb (length b) ->
  addressable pr (size + length b) ->
  disjoint pr (size + length b) pb (length b) ->
  (o + size <= size + length b)%nat ->
  (size + length b <= fuel)%nat ->
  exists s',
    run (bigint_multiply_raw fuel (pr + 8 * Z.of_nat o) (Z.of_nat size)
                             pb (Z.of_nat (length b)) pr) m
    = Done tt s' /\
    read_array (mem s') pr (size + length b)
    = Some (replicate (size + length b) 0) /\
    read_array (mem s') (pr + 8 * Z.of_nat o) size = Some (replicate size 0).
Proof.
  intros Hb Hr Hwb Hsz Hpb Hpr Hdb Ho Hfuel.
  set (n := (size + length b)%nat) in *.
  set (rd := fun addr => in_buffer pb (length b) addr).
  apply read_array_spec in Hb as [_ Hb].
  destruct (memset_zero_tracks pr n rd (mkState m []) r0 Hpr Hr)
    as (s1 & evs1 & E1 & T1 & _ & _).
  assert (Hloop : exists s',
    multiply_rows fuel (pr + 8 * Z.of_nat o) pb (Z.of_nat (length b)) pr
                  size s1 = Done tt s' /\
    tracks pr n rd s1 (replicate n 0) s').
  { unfold multiply_rows. rewrite Nat2Z.id.
    apply (for_loop_inv (fun _ s => tracks pr n rd s1 (replicate n 0) s)).
    - apply tracks_refl; [apply length_replicate|].
      apply (tracks_array _ _ _ _ _ _ T1).
    - intros i s Hi Ti.
      destruct (ld_tracks pr n rd s1 Hpr _ s
                  (pr + 8 * Z.of_nat o + 8 * Z.of_nat i) 0 (o + i) 0 Ti)
        as (s2 & E2 & T2).
      { apply lookup_replicate_2. lia. }
      { lia. }
      unfold bind at 1. rewrite E2.
      apply (for_loop_inv (fun _ s => tracks pr n rd s1 (replicate n 0) s));
        [exact T2|].
      intros j s3 Hj Tj.
      destruct (lookup_lt_is_Some_2 b j Hj) as [y Hy].
      pose proof (Forall_lookup_1 _ _ _ _ Hwb Hy) as Hyw.
      assert (Houtb : ~ in_buffer pr n (pb + 8 * Z.of_nat j))
        by (apply (disjoint_not_in_buffer _ _ _ _ _ Hdb); lia).
      destruct (ld_outside pr n rd s1 _ s3 (pb + 8 * Z.of_nat j) 0 y Tj)
        as (s4 & E4 & T4).
      { destruct Hpb. lia. }
      { rewrite Z.add_0_r. exact Houtb. }
      { rewrite Z.add_0_r. apply in_buffer_element, Hj. }
      { rewrite Z.add_0_r, (tracks_frame _ _ _ _ _ _ T1 _ Houtb).
        apply Hb, Hy. }
      unfold bind. rewrite E4.
      rewrite <- Nat2Z.inj_add, uint_small by lia.
      assert (H0 : word64 0) by (split; [lia | reflexivity]).
      pose proof (Forall_word64_replicate n) as Hz.
      pose proof (BASE_pow_pos n) as HBn.
      destruct (split_at2 (replicate n 0) (i + j))
        as (l1 & w0 & w1 & l2 & Er & El1);
        [rewrite length_replicate; lia|].
      assert (Hl : length (l1 ++ w0 :: w1 :: l2) = n)
        by (rewrite <- Er; apply length_replicate).
      destruct (mul_add_asm_tracks pr n rd s1 Hpr l1 w0 w1 l2 0 y fuel s4)
        as (s5 & E5 & T5); try assumption.
      + rewrite <- Er. exact T4.
      + rewrite <- Er. exact Hz.
      + rewrite <- Er, bigint_value_replicate, length_replicate. lia.
      + rewrite length_app in Hl. cbn [length] in Hl. lia.
      + exists s5. split; [rewrite <- El1; exact E5|].
        rewrite <- Er, El1, add_product_zero in T5 by (lia || assumption).
        exact T5. }
  destruct Hloop as (s' & E' & [_ A _ _]).
  exists s'. split; [|split].
  - unfold run. rewrite bigint_multiply_raw_rows. unfold bind.
    rewrite <- Nat2Z.inj_add. fold n. rewrite uint_small by lia.
    rewrite E1, Nat2Z.id. exact E'.
  - apply read_array_spec. split; [apply length_replicate | exact A].
  - apply read_array_spec. split; [apply length_replicate|].
    intros k w Hk. apply lookup_replicate in Hk as [-> Hk].
    replace (pr + 8 * Z.of_nat o + 8 * Z.of_nat k)
      with (pr + 8 * Z.of_nat (o + k)) by lia.
    apply A, lookup_replicate_2. lia.
Qed.

Lemma multiplicand_in_result_gives_zero_witness :
  let b := [max_word; 5] in
  let m := heap_of 4096 [3; 4; 9; 9] 8192 b 4096 [3; 4; 9; 9] in
  read_array m 8192 (length b) = Some b /\
  read_array m 4096 (2 + length b) = Some [3; 4; 9; 9] /\
  Forall word64 b /\
  Z.of_nat (2 + length b) < 2 ^ 32 /\
  addressable 8192 (length b) /\
  addressable 4096 (2 + length b) /\
  disjoint 4096 (2 + length b) 8192 (length b) /\
  (0 + 2 <= 2 + length b)%nat /\
  (2 + length b <= 4)%nat /\
  exists s',
    run (bigint_multiply_raw 4 (4096 + 8 * Z.of_nat 0) (Z.of_nat 2)
                             8192 (Z.of_nat (length b)) 4096) m
    = Done tt s' /\
    read_array (mem s') 4096 (2 + length b)
    = Some (replicate (2 + length b) 0) /\
    read_array (mem s') (4096 + 8 * Z.of_nat 0) 2 = Some (replicate 2 0).
Proof.
  intros b m.
  assert (H1 : read_array m 8192 (length b) = Some b)
    by (vm_compute; reflexivity).
  assert (H2 : read_array m 4096 (2 + length b) = Some [3; 4; 9; 9])
    by (vm_compute; reflexivity).
  assert (H3 : Forall word64 b) by concrete_words.
  assert (H4 : Z.of_nat (2 + length b) < 2 ^ 32) by concrete.
  assert (H5 : addressable 8192 (length b)) by (split; concrete).
  assert (H6 : addressable 4096 (2 + length b)) by (split; concrete).
  assert (H7 : disjoint 4096 (2 + length b) 8192 (length b)) by concrete.
  assert (H8 : (0 + 2 <= 2 + length b)%nat) by concrete.
  assert (H9 : (2 + length b <= 4)%nat) by concrete.
  repeat (split; [assumption|]).
  exact (multiplicand_in_result_gives_zero m 8192 b 4096 [3; 4; 9; 9] 0 2 4
           H1 H2 H3 H4 H5 H6 H7 H8 H9).
Defined.

(** ** Algebra and composition of calls *)

(** X9. A zero operand gives a zero result: when the value of the
    multiplicand or of the multiplier is 0, every word of the result
    is 0. *)
Theorem multiply_by_zero m pa a pb b pr r0 fuel :
  call_ok m pa a pb b pr r0 ->
  (length a + length b <= fuel)%nat ->
  bigint_value a = 0 \/ bigint_value b = 0 ->
  result_of (run (multiply_call fuel pa a pb b pr) m) pr
            (length a + length b)
  = Some (replicate (length a + length b) 0).
Proof.
  intros Hok Hfuel Hzero.
  rewrite (result_of_call _ _ _ _ _ _ _ _ Hok Hfuel). f_equal.
  destruct (multiply_spec a b (multiplicand_words _ _ _ _ _ _ _ Hok)
              (multiplier_words _ _ _ _ _ _ _ Hok)) as (Hw & Hl & Hv).
  apply bigint_value_inj.
  - exact Hw.
  - apply Forall_word64_replicate.
  - rewrite Hl, length_replicate. reflexivity.
  - rewrite Hv, bigint_value_replicate. destruct Hzero as [-> | ->]; lia.
Qed.

Lemma multiply_by_zero_witness :
  let a := [max_word; 17; max_word] in
  let b := [0; 0] in
  let m := heap_of 4096 a 8192 b 12288 [1; 2; 3; 4; 5] in
  call_ok m 4096 a 8192 b 12288 [1; 2; 3; 4; 5] /\
  (length a + length b <= 5)%nat /\
  (bigint_value a = 0 \/ bigint_value b = 0) /\
  result_of (run (multiply_call 5 4096 a 8192 b 12288) m) 12288
            (length a + length b)
  = Some (replicate (length a + length b) 0).
Proof.
  intros a b m.
  assert (Hok : call_ok m 4096 a 8192 b 12288 [1; 2; 3; 4; 5])
    by concrete_call.
  assert (Hfuel : (length a + length b <= 5)%nat) by concrete.
  assert (Hz : bigint_value a = 0 \/ bigint_value b = 0)
    by (right; reflexivity).
  split; [exact Hok|]. split; [exact Hfuel|]. split; [exact Hz|].
  exact (multiply_by_zero m 4096 a 8192 b 12288 [1; 2; 3; 4; 5] 5
           Hok Hfuel Hz).
Defined.

(** X10. Zero-extending the multiplicand by one word zero-extends the
    result by one word and changes nothing else. *)
Theorem multiply_zero_extended m pa a pb b pr r0 m' pa' pb' pr' r0' fuel :
  call_ok m pa a pb b pr r0 ->
  call_ok m' pa' (a ++ [0]) pb' b pr' r0' ->
  (length (a ++ [0%Z]) + length b <= fuel)%nat ->
  exists r,
    result_of (run (multiply_call fuel pa a pb b pr) m) pr
              (length a + length b) = Some r /\
    result_of (run (multiply_call fuel pa' (a ++ [0]) pb' b pr') m') pr'
              (length (a ++ [0]) + length b) = Some (r ++ [0]).
Proof.
  intros Hok Hok' Hfuel.
  pose proof (multiplicand_words _ _ _ _ _ _ _ Hok) as Hwa.
  pose proof (multiplier_words _ _ _ _ _ _ _ Hok) as Hwb.
  pose proof (multiplicand_words _ _ _ _ _ _ _ Hok') as Hwa'.
  destruct (multiply_spec a b Hwa Hwb) as (Hw & Hl & Hv).
  destruct (multiply_spec (a ++ [0]) b Hwa' Hwb) as (Hw' & Hl' & Hv').
  rewrite length_app in Hfuel, Hl'. cbn [length] in Hfuel, Hl'.
  exists (multiply a b). split.
  - apply (result_of_call _ _ _ _ _ _ _ _ Hok). lia.
  - rewrite (result_of_call _ _ _ _ _ _ _ _ Hok')
      by (rewrite length_app; cbn [length]; lia).
    f_equal. apply bigint_value_inj.
    + exact Hw'.
    + apply Forall_app. split; [exact Hw|]. apply (Forall_word64_replicate 1).
    + rewrite Hl', length_app, Hl. cbn [length]. lia.
    + rewrite Hv', !bigint_value_app, Hv. cbn [bigint_value]. ring.
Qed.

Lemma multiply_zero_extended_witness :
  let a := [max_word; 3] in
  let b := [max_word; max_word] in
  let m := heap_of 4096 a 8192 b 12288 [0; 0; 0; 0] in
  let m' := heap_of 400 (a ++ [0]) 800 b 1200 [4; 4; 4; 4; 4] in
  call_ok m 4096 a 8192 b 12288 [0; 0; 0; 0] /\
  call_ok m' 400 (a ++ [0]) 800 b 1200 [4; 4; 4; 4; 4] /\
  (length (a ++ [0%Z]) + length b <= 5)%nat /\
  exists r,
    result_of (run (multiply_call 5 4096 a 8192 b 12288) m) 12288
              (length a + length b) = Some r /\
    result_of (run (multiply_call 5 400 (a ++ [0]) 800 b 1200) m') 1200
              (length (a ++ [0]) + length b) = Some (r ++ [0]).
Proof.
  intros a b m m'.
  assert (Hok : call_ok m 4096 a 8192 b 12288 [0; 0; 0; 0]) by concrete_call.
  assert (Hok' : call_ok m' 400 (a ++ [0]) 800 b 1200 [4; 4; 4; 4; 4])
    by concrete_call.
  assert (Hfuel : (length (a ++ [0%Z]) + length b <= 5)%nat) by concrete.
  split; [exact Hok|]. split; [exact Hok'|]. split; [exact Hfuel|].
  exact (multiply_zero_extended m 4096 a 8192 b 12288 [0; 0; 0; 0]
           m' 400 800 1200 [4; 4; 4; 4; 4] 5 Hok Hok' Hfuel).
Defined.

Lemma disjoint_sym p1 n1 p2 n2 : disjoint p1 n1 p2 n2 -> disjoint p2 n2 p1 n1.
Proof. unfold disjoint. tauto. Qed.

(** The heap after a call still has everything a second call needs. *)
Lemma call_ok_after m pa a pb b pr r0 s' :
  call_ok m pa a pb b pr r0 ->
  tracks pr (length a + length b) (operand_cell pa a pb b) (mkState m [])
         (multiply a b) s' ->
  call_ok (mem s') pa a pb b pr (multiply a b).
Proof.
  intros [Ha Hb Hr Hwa Hwb Hsz Hpa Hpb Hpr Hda Hdb] [L A F _].
  cbn [mem] in F. split; try assumption.
  - exact (read_array_frame _ _ _ _ _ _ _ F Hda Ha).
  - exact (read_array_frame _ _ _ _ _ _ _ F Hdb Hb).
  - apply read_array_spec. split; assumption.
Qed.

(** X11. Calls compose: a second call that takes the result buffer of
    the first as its multiplicand leaves the product of all three
    operands, and the intermediate product stays in its buffer. *)
Theorem chained_calls_multiply_three
    m pa a pb b pr1 r1 pc c pr2 r2 fuel :
  call_ok m pa a pb b pr1 r1 ->
  read_array m pc (length c) = Some c ->
  read_array m pr2 (length a + length b + length c) = Some r2 ->
  Forall word64 c ->
  Z.of_nat (length a + length b + length c) < 2 ^ 32 ->
  addressable pc (length c) ->
  addressable pr2 (length a + length b + length c) ->
  disjoint pr1 (length a + length b) pc (length c) ->
  disjoint pr1 (length a + length b)
           pr2 (length a + length b + length c) ->
  disjoint pr2 (length a + length b + length c) pc (length c) ->
  (length a + length b + length c <= fuel)%nat ->
  exists s' r,
    run (multiply_call fuel pa a pb b pr1 ;;
         bigint_multiply_raw fuel pr1 (Z.of_nat (length a + length b))
                             pc (Z.of_nat (length c)) pr2) m
    = Done tt s' /\
    read_array (mem s') pr2 (length a + length b + length c) = Some r /\
    bigint_value r = bigint_value a * bigint_value b * bigint_value c /\
    exists r', read_array (mem s') pr1 (length a + length b) = Some r' /\
               bigint_value r' = bigint_value a * bigint_value b.
Proof.
  intros Hok Hc Hr2 Hwc Hsz Hpc Hpr2 Hd1c Hd12 Hd2c Hfuel.
  pose proof (multiplicand_words _ _ _ _ _ _ _ Hok) as Hwa.
  pose proof (multiplier_words _ _ _ _ _ _ _ Hok) as Hwb.
  destruct (multiply_spec a b Hwa Hwb) as (Hw & Hl & Hv).
  destruct (kernel_tracks (mkState m []) pa a pb b pr1 r1 fuel Hok
              ltac:(lia)) as (s1 & _ & E1 & T1 & _).
  pose proof (call_ok_after _ _ _ _ _ _ _ _ Hok T1) as Hok1.
  destruct T1 as [_ _ F1 _]. cbn [mem] in F1.
  assert (Hok2 : call_ok (mem s1) pr1 (multiply a b) pc c pr2 r2).
  { split; rewrite ?Hl.
    - exact (result_at _ _ _ _ _ _ _ Hok1).
    - exact (read_array_frame _ _ _ _ _ _ _ F1 Hd1c Hc).
    - exact (read_array_frame _ _ _ _ _ _ _ F1 Hd12 Hr2).
    - exact Hw.
    - exact Hwc.
    - exact Hsz.
    - exact (result_addressable _ _ _ _ _ _ _ Hok).
    - exact Hpc.
    - exact Hpr2.
    - apply disjoint_sym, Hd12.
    - exact Hd2c. }
  destruct (kernel_tracks s1 pr1 (multiply a b) pc c pr2 r2 fuel Hok2
              ltac:(rewrite Hl; lia)) as (s2 & _ & E2 & T2 & _).
  destruct (multiply_spec (multiply a b) c Hw Hwc) as (Hw2 & Hl2 & Hv2).
  rewrite Hl in T2. destruct T2 as [L2 A2 F2 _].
  exists s2, (multiply (multiply a b) c). split; [|split; [|split]].
  - unfold run, bind. rewrite E1.
    unfold multiply_call in E2. rewrite Hl in E2. exact E2.
  - apply read_array_spec. split; assumption.
  - rewrite Hv2, Hv. reflexivity.
  - exists (multiply a b). split; [|exact Hv].
    apply (read_array_frame (mem s1) _ pr2
             (length a + length b + length c));
      [exact F2 | apply disjoint_sym, Hd12 |].
    exact (result_at _ _ _ _ _ _ _ Hok1).
Qed.

Lemma chained_calls_multiply_three_witness :
  let a := [max_word; 2] in
  let b := [max_word] in
  let c := [max_word; 9] in
  let m := write_array 64 c (write_array 512 [7; 7; 7; 7; 7]
             (heap_of 4096 a 8192 b 12288 [1; 2; 3])) in
  call_ok m 4096 a 8192 b 12288 [1; 2; 3] /\
  read_array m 64 (length c) = Some c /\
  read_array m 512 (length a + length b + length c) = Some [7; 7; 7; 7; 7] /\
  Forall word64 c /\
  Z.of_nat (length a + length b + length c) < 2 ^ 32 /\
  addressable 64 (length c) /\
  addressable 512 (length a + length b + length c) /\
  disjoint 12288 (length a + length b) 64 (length c) /\
  disjoint 12288 (length a + length b)
           512 (length a + length b + length c) /\
  disjoint 512 (length a + length b + length c) 64 (length c) /\
  (length a + length b + length c <= 5)%nat /\
  exists s' r,
    run (multiply_call 5 4096 a 8192 b 12288 ;;
         bigint_multiply_raw 5 12288 (Z.of_nat (length a + length b))
                             64 (Z.of_nat (length c)) 512) m
    = Done tt s' /\
    read_array (mem s') 512 (length a + length b + length c) = Some r /\
    bigint_value r = bigint_value a * bigint_value b * bigint_value c /\
    exists r', read_array (mem s') 12288 (length a + length b) = Some r' /\
               bigint_value r' = bigint_value a * bigint_value b.
Proof.
  intros a b c m.
  assert (H1 : call_ok m 4096 a 8192 b 12288 [1; 2; 3]) by concrete_call.
  assert (H2 : read_array m 64 (length c) = Some c)
    by (vm_compute; reflexivity).
  assert (H3 : read_array m 512 (length a + length b + length c)
               = Some [7; 7; 7; 7; 7]) by (vm_compute; reflexivity).
  assert (H4 : Forall word64 c) by concrete_words.
  assert (H5 : Z.of_nat (length a + length b + length c) < 2 ^ 32)
    by concrete.
  assert (H6 : addressable 64 (length c)) by (split; concrete).
  assert (H7 : addressable 512 (length a + length b + length c))
    by (split; concrete).
  assert (H8 : disjoint 12288 (length a + length b) 64 (length c))
    by concrete.
  assert (H9 : disjoint 12288 (length a + length b)
                        512 (length a + length b + length c)) by concrete.
  assert (H10 : disjoint 512 (length a + length b + length c) 64 (length c))
    by concrete.
  assert (H11 : (length a + length b + length c <= 5)%nat) by concrete.
  repeat (split; [assumption|]).
  exact (chained_calls_multiply_three m 4096 a 8192 b 12288 [1; 2; 3]
           64 c 512 [7; 7; 7; 7; 7] 5
           H1 H2 H3 H4 H5 H6 H7 H8 H9 H10 H11).
Defined.

(** X12. The call is idempotent: made twice in a row on the same
    buffers, it leaves the heap exactly as one call leaves it. *)
Theorem repeated_call_same_heap m pa a pb b pr r0 fuel :
  call_ok m pa a pb b pr r0 ->
  (length a + length b <= fuel)%nat ->
  exists s1 s2,
    run (multiply_call fuel pa a pb b pr) m = Done tt s1 /\
    run (multiply_call fuel pa a pb b pr ;;
         multiply_call fuel pa a pb b pr) m = Done tt s2 /\
    mem s2 = mem s1.
Proof.
  intros Hok Hfuel.
  destruct (kernel_tracks (mkState m []) pa a pb b pr r0 fuel Hok Hfuel)
    as (s1 & _ & E1 & T1 & _).
  pose proof (call_ok_after _ _ _ _ _ _ _ _ Hok T1) as Hok1.
  destruct (kernel_tracks s1 pa a pb b pr (multiply a b) fuel Hok1 Hfuel)
    as (s2 & _ & E2 & T2 & _).
  exists s1, s2. split; [exact E1|]. split.
  - unfold run, bind. unfold run in E1. rewrite E1. exact E2.
  - destruct T1 as [L1 A1 _ _]. destruct T2 as [_ A2 F2 _].
    apply map_eq. intros addr.
    destruct (decide (in_buffer pr (length a + length b) addr)) as [Hin | Hout].
    + apply in_buffer_inv in Hin as (k & Hk & ->).
      destruct (lookup_lt_is_Some_2 (multiply a b) k ltac:(lia)) as [w Hw].
      rewrite (A1 k w Hw), (A2 k w Hw). reflexivity.
    + apply F2, Hout.
Qed.

Lemma repeated_call_same_heap_witness :
  let a := [max_word; max_word] in
  let b := [max_word; 6] in
  let m := heap_of 4096 a 8192 b 12288 [9; 9; 9; 9] in
  call_ok m 4096 a 8192 b 12288 [9; 9; 9; 9] /\
  (length a + length b <= 4)%nat /\
  exists s1 s2,
    run (multiply_call 4 4096 a 8192 b 12288) m = Done tt s1 /\
    run (multiply_call 4 4096 a 8192 b 12288 ;;
         multiply_call 4 4096 a 8192 b 12288) m = Done tt s2 /\
    mem s2 = mem s1.
Proof.
  intros a b m.
  assert (Hok : call_ok m 4096 a 8192 b 12288 [9; 9; 9; 9]) by concrete_call.
  assert (Hfuel : (length a + length b <= 4)%nat) by concrete.
  split; [exact Hok|]. split; [exact Hfuel|].
  exact (repeated_call_same_heap m 4096 a 8192 b 12288 [9; 9; 9; 9] 4
           Hok Hfuel).
Defined.

(** X13. For one-word operands the kernel is the widening multiply of
    the machine: the result is the low half of the product, as [mul.d]
    gives it, followed by the high half, as [mulh.du] gives it. *)
Theorem single_word_product m pa x pb y pr r0 fuel :
  call_ok m pa [x] pb [y] pr r0 ->
  (2 <= fuel)%nat ->
  result_of (run (multiply_call fuel pa [x] pb [y] pr) m) pr 2
  = Some [mul_d x y; mulh_du x y].
Proof.
  intros Hok Hfuel.
  pose proof (multiplicand_words _ _ _ _ _ _ _ Hok) as Hwa.
  pose proof (multiplier_words _ _ _ _ _ _ _ Hok) as Hwb.
  destruct (multiply_spec [x] [y] Hwa Hwb) as (Hw & Hl & Hv).
  apply Forall_cons in Hwa as [Hx _]. apply Forall_cons in Hwb as [Hy _].
  change 2%nat with (length [x] + length [y])%nat at 1.
  rewrite (result_of_call _ _ _ _ _ _ _ _ Hok) by exact Hfuel.
  f_equal. apply bigint_value_inj.
  - exact Hw.
  - rewrite (mulh_du_word x y Hx Hy).
    constructor; [apply word64_mod|].
    constructor; [|constructor].
    rewrite <- (mulh_du_word x y Hx Hy). apply word64_mod.
  - exact Hl.
  - rewrite Hv, (mulh_du_word x y Hx Hy), mul_d_word.
    cbn [bigint_value]. pose proof BASE_pos.
    pose proof (Z.div_mod (x * y) BASE ltac:(lia)). lia.
Qed.

Lemma single_word_product_witness :
  let m := heap_of 4096 [max_word] 8192 [max_word] 12288 [5; 5] in
  call_ok m 4096 [max_word] 8192 [max_word] 12288 [5; 5] /\
  (2 <= 2)%nat /\
  result_of (run (multiply_call 2 4096 [max_word] 8192 [max_word] 12288) m)
            12288 2
  = Some [mul_d max_word max_word; mulh_du max_word max_word].
Proof.
  intros m.
  assert (Hok : call_ok m 4096 [max_word] 8192 [max_word] 12288 [5; 5])
    by concrete_call.
  assert (Hfuel : (2 <= 2)%nat) by lia.
  split; [exact Hok|]. split; [exact Hfuel|].
  exact (single_word_product m 4096 max_word 8192 max_word 12288 [5; 5] 2
           Hok Hfuel).
Defined.

Lemma add_product_zero_r n k x :
  (S k < n)%nat -> word64 x ->
  add_product (replicate n 0) k x 0 = replicate n 0.
Proof.
  intros Hk Hx.
  assert (H0 : word64 0) by (split; [lia | reflexivity]).
  pose proof (Forall_word64_replicate n) as Hz.
  pose proof (BASE_pow_pos n) as HB.
  apply bigint_value_inj.
  - apply add_product_words, Hz.
  - exact Hz.
  - rewrite add_product_length. reflexivity.
  - rewrite add_product_value; try assumption.
    + rewrite bigint_value_replicate. lia.
    + rewrite length_replicate. exact Hk.
    + rewrite bigint_value_replicate, length_replicate. lia.
Qed.

(** X14. The same holds for the other operand: when the multiplier lies
    inside the result buffer it is zeroed before it is read, and the call
    returns with an all-zero result. *)
Theorem multiplier_in_result_gives_zero m pa a pr r0 (o size : nat) fuel :
  read_array m pa (length a) = Some a ->
  read_array m pr (length a + size) = Some r0 ->
  Forall word64 a ->
  Z.of_nat (length a + size) < 2 ^ 32 ->
  addressable pa (length a) ->
  addressable pr (length a + size) ->
  disjoint pr (length a + size) pa (length a) ->
  (o + size <= length a + size)%nat ->
  (length a + size <= fuel)%nat ->
  exists s',
    run (bigint_multiply_raw fuel pa (Z.of_nat (length a))
                             (pr + 8 * Z.of_nat o) (Z.of_nat size) pr) m
    = Done tt s' /\
    read_array (mem s') pr (length a + size)
    = Some (replicate (length a + size) 0) /\
    read_array (mem s') (pr + 8 * Z.of_nat o) size = Some (replicate size 0).
Proof.
  intros Ha Hr Hwa Hsz Hpa Hpr Hda Ho Hfuel.
  set (n := (length a + size)%nat) in *.
  set (rd := fun addr => in_buffer pa (length a) addr).
  apply read_array_spec in Ha as [_ Ha].
  destruct (memset_zero_tracks pr n rd (mkState m []) r0 Hpr Hr)
    as (s1 & evs1 & E1 & T1 & _ & _).
  assert (Hloop : exists s',
    multiply_rows fuel pa (pr + 8 * Z.of_nat o) (Z.of_nat size) pr
                  (length a) s1 = Done tt s' /\
    tracks pr n rd s1 (replicate n 0) s').
  { unfold multiply_rows. rewrite Nat2Z.id.
    apply (for_loop_inv (fun _ s => tracks pr n rd s1 (replicate n 0) s)).
    - apply tracks_refl; [apply length_replicate|].
      apply (tracks_array _ _ _ _ _ _ T1).
    - intros i s Hi Ti.
      destruct (lookup_lt_is_Some_2 a i Hi) as [x Hx].
      pose proof (Forall_lookup_1 _ _ _ _ Hwa Hx) as Hxw.
      assert (Houta : ~ in_buffer pr n (pa + 8 * Z.of_nat i))
        by (apply (disjoint_not_in_buffer _ _ _ _ _ Hda); lia).
      destruct (ld_outside pr n rd s1 _ s (pa + 8 * Z.of_nat i) 0 x Ti)
        as (s2 & E2 & T2).
      { destruct Hpa. lia. }
      { rewrite Z.add_0_r. exact Houta. }
      { rewrite Z.add_0_r. apply in_buffer_element, Hi. }
      { rewrite Z.add_0_r, (tracks_frame _ _ _ _ _ _ T1 _ Houta).
        apply Ha, Hx. }
      unfold bind at 1. rewrite E2.
      apply (for_loop_inv (fun _ s => tracks pr n rd s1 (replicate n 0) s));
        [exact T2|].
      intros j s3 Hj Tj.
      destruct (ld_tracks pr n rd s1 Hpr _ s3
                  (pr + 8 * Z.of_nat o + 8 * Z.of_nat j) 0 (o + j) 0 Tj)
        as (s4 & E4 & T4).
      { apply lookup_replicate_2. lia. }
      { lia. }
      unfold bind. rewrite E4.
      rewrite <- Nat2Z.inj_add, uint_small by lia.
      assert (H0 : word64 0) by (split; [lia | reflexivity]).
      pose proof (Forall_word64_replicate n) as Hz.
      pose proof (BASE_pow_pos n) as HBn.
      destruct (split_at2 (replicate n 0) (i + j))
        as (l1 & w0 & w1 & l2 & Er & El1);
        [rewrite length_replicate; lia|].
      assert (Hl : length (l1 ++ w0 :: w1 :: l2) = n)
        by (rewrite <- Er; apply length_replicate).
      destruct (mul_add_asm_tracks pr n rd s1 Hpr l1 w0 w1 l2 x 0 fuel s4)
        as (s5 & E5 & T5); try assumption.
      + rewrite <- Er. exact T4.
      + rewrite <- Er. exact Hz.
      + rewrite <- Er, bigint_value_replicate, length_replicate. lia.
      + rewrite length_app in Hl. cbn [length] in Hl. lia.
      + exists s5. split; [rewrite <- El1; exact E5|].
        rewrite <- Er, El1, add_product_zero_r in T5 by (lia || assumption).
        exact T5. }
  destruct Hloop as (s' & E' & [_ A _ _]).
  exists s'. split; [|split].
  - unfold run. rewrite bigint_multiply_raw_rows. unfold bind.
    rewrite <- Nat2Z.inj_add. fold n. rewrite uint_small by lia.
    rewrite E1, Nat2Z.id. exact E'.
  - apply read_array_spec. split; [apply length_replicate | exact A].
  - apply read_array_spec. split; [apply length_replicate|].
    intros k w Hk. apply lookup_replicate in Hk as [-> Hk].
    replace (pr + 8 * Z.of_nat o + 8 * Z.of_nat k)
      with (pr + 8 * Z.of_nat (o + k)) by lia.
    apply A, lookup_replicate_2. lia.
Qed.

Lemma multiplier_in_result_gives_zero_witness :
  let a := [max_word; 5] in
  let m := heap_of 8192 a 4096 [3; 4; 9; 9] 4096 [3; 4; 9; 9] in
  read_array m 8192 (length a) = Some a /\
  read_array m 4096 (length a + 2) = Some [3; 4; 9; 9] /\
  Forall word64 a /\
  Z.of_nat (length a + 2) < 2 ^ 32 /\
  addressable 8192 (length a) /\
  addressable 4096 (length a + 2) /\
  disjoint 4096 (length a + 2) 8192 (length a) /\
  (2 + 2 <= length a + 2)%nat /\
  (length a + 2 <= 4)%nat /\
  exists s',
    run (bigint_multiply_raw 4 8192 (Z.of_nat (length a))
                             (4096 + 8 * Z.of_nat 2) (Z.of_nat 2) 4096) m
    = Done tt s' /\
    read_array (mem s') 4096 (length a + 2)
    = Some (replicate (length a + 2) 0) /\
    read_array (mem s') (4096 + 8 * Z.of_nat 2) 2 = Some (replicate 2 0).
Proof.
  intros a m.
  assert (H1 : read_array m 8192 (length a) = Some a)
    by (vm_compute; reflexivity).
  assert (H2 : read_array m 4096 (length a + 2) = Some [3; 4; 9; 9])
    by (vm_compute; reflexivity).
  assert (H3 : Forall word64 a) by concrete_words.
  assert (H4 : Z.of_nat (length a + 2) < 2 ^ 32) by concrete.
  assert (H5 : addressable 8192 (length a)) by (split; concrete).
  assert (H6 : addressable 4096 (length a + 2)) by (split; concrete).
  assert (H7 : disjoint 4096 (length a + 2) 8192 (length a)) by concrete.
  assert (H8 : (2 + 2 <= length a + 2)%nat) by concrete.
  assert (H9 : (length a + 2 <= 4)%nat) by concrete.
  repeat (split; [assumption|]).
  exact (multiplier_in_result_gives_zero m 8192 a 4096 [3; 4; 9; 9] 2 2 4
           H1 H2 H3 H4 H5 H6 H7 H8 H9).
Defined.
